(** * SwapSmith: order monitor, DCA scheduler, aggregator client, the
      authenticated HTTP routes, the yield pools and the command parser,
      embedded from the TypeScript sources.

    Times are milliseconds since the epoch ([Z]); JavaScript values read from
    JSON bodies and JWT payloads are [JS.value]; a promise that rejects or a
    call that throws is a [Rejected] result; database tables are lists of
    rows; the side effects of a function are the events it returns.

    Part I holds the embedding, Part II the properties. *)

From Stdlib Require Import ZArith List String Ascii Bool Lia QArith.
Import ListNotations.
Open Scope string_scope.
Open Scope list_scope.
Open Scope Z_scope.
Set Warnings "-register-all".

(* ================================================================== *)
(** * Part I: the embedding *)

(* ------------------------------------------------------------------ *)
(** ** JavaScript values *)

Module JS.

(** A JavaScript number: a finite value, an infinity or NaN. *)
Inductive number : Type :=
| Fin (q : Q)
| PosInf
| NegInf
| NaN.

(** The values of JSON, and [Builtin] for a built-in function met when a
    property is read. *)
Inductive value : Type :=
| Undefined
| Null
| Bool (b : bool)
| Num (n : number)
| Str (s : string)
| Arr (items : list value)
| Obj (fields : list (string * value))
| Builtin (name : string).

(** The result of an awaited promise or of a call that may throw. *)
Inductive outcome (A : Type) : Type :=
| Resolved (a : A)
| Rejected.
Arguments Resolved {A} a.
Arguments Rejected {A}.

(** ToBoolean. *)
Definition truthy (v : value) : bool :=
  match v with
  | Undefined | Null => false
  | Bool b => b
  | Num (Fin q) => negb (Qeq_bool q 0)
  | Num NaN => false
  | Num _ => true
  | Str s => negb (String.eqb s EmptyString)
  | Arr _ | Obj _ | Builtin _ => true
  end.

Definition typeof (v : value) : string :=
  match v with
  | Undefined => "undefined"
  | Null => "object"
  | Bool _ => "boolean"
  | Num _ => "number"
  | Str _ => "string"
  | Arr _ | Obj _ => "object"
  | Builtin _ => "function"
  end.

(** [n <= 0] on numbers: false on NaN. *)
Definition num_le0 (n : number) : bool :=
  match n with
  | Fin q => Qle_bool q 0
  | NegInf => true
  | PosInf | NaN => false
  end.

Fixpoint lookup (k : string) (fields : list (string * value)) : value :=
  match fields with
  | [] => Undefined
  | (k', v) :: rest => if String.eqb k k' then v else lookup k rest
  end.

(** [v.k] for the keys read here: a TypeError ([None]) on [undefined] and
    [null]; the member of an object, [undefined] when it has none; on a
    string the key [sub] is the method [String.prototype.sub], the one key
    read here that names a built-in property; [undefined] on any other
    primitive, on an array and on a function. *)
Definition get (v : value) (k : string) : option value :=
  match v with
  | Undefined | Null => None
  | Obj fields => Some (lookup k fields)
  | Str _ =>
      if String.eqb k "sub" then Some (Builtin "String.prototype.sub")
      else Some Undefined
  | _ => Some Undefined
  end.

(** [v?.k]: [undefined] instead of the TypeError. *)
Definition get_opt (v : value) (k : string) : value :=
  match get v k with
  | Some x => x
  | None => Undefined
  end.

(** [a || b]. *)
Definition or_else (a b : value) : value := if truthy a then a else b.

(** [v === s] for a string [s]. *)
Definition strict_eq_str (v : value) (s : string) : bool :=
  match v with
  | Str t => String.eqb t s
  | _ => false
  end.

(** [s.startsWith(p)]. *)
Definition startsWith (p s : string) : bool := String.prefix p s.

(** [s.substring(n)] for [n] within the string, [s.slice(n)] alike. *)
Definition substring_from (n : nat) (s : string) : string :=
  String.substring n (String.length s - n) s.

Fixpoint split_fuel (fuel : nat) (sep s : string) : list string :=
  match fuel with
  | O => [s]
  | S f =>
      match String.index 0 sep s with
      | None => [s]
      | Some i =>
          String.substring 0 i s
          :: split_fuel f sep (substring_from (i + String.length sep) s)
      end
  end.

(** [s.split(sep)] for a non-empty separator. *)
Definition split (sep s : string) : list string :=
  split_fuel (S (String.length s)) sep s.

(** [xs.includes(v)] for a list of string literals. *)
Definition includes (xs : list string) (v : value) : bool :=
  existsb (strict_eq_str v) xs.

End JS.

(* ------------------------------------------------------------------ *)
(** ** Aggregator client (bot/src/services/sideshift-client.ts) *)

Module SideShift.

Import JS.

Record SideShiftError : Type := mkSSError {
  code : string;
  err_message : string
}.

Record SideShiftQuote : Type := mkQuote {
  q_id : string;
  q_settleAmount : string;
  q_rate : string;
  q_error : option SideShiftError
}.

(** [depositAddress: string | { address, memo }]. *)
Inductive DepositAddress : Type :=
| AddressString (address : string)
| AddressObject (address memo : string).

Record SideShiftOrder : Type := mkOrder {
  o_id : string;
  o_depositAddress : DepositAddress;
  o_settleAmount : string
}.

(** The part of the status reply its readers use. *)
Record SideShiftOrderStatus : Type := mkStatus {
  st_id : string;
  st_status : string;
  st_depositHash : option string;
  st_settleHash : option string
}.

Record SideShiftCheckoutResponse : Type := mkCheckout {
  c_id : string;
  c_url : string;
  c_error : option SideShiftError
}.

(** The response axios attaches to the error it throws for a status outside
    2xx: status line, the [Retry-After] header when sent, parsed body. *)
Record AxiosResponse : Type := mkResponse {
  status : Z;
  retryAfter : option string;
  data : value
}.

(** What awaiting [axios.get]/[axios.post] gives: the body of a 2xx reply; an
    axios error, with the response for 4xx/5xx and without one for a network
    failure or a timeout; or some other exception. *)
Inductive AxiosResult : Type :=
| Fulfilled (body : value)
| AxiosError (response : option AxiosResponse)
| OtherError.

(** [new Error(arg)]: the argument is all the thrown object carries; its
    [message] is the argument converted to a string. *)
Record Error : Type := mkError {
  message : value
}.

Inductive result (A : Type) : Type :=
| Returns (a : A)
| Throws (e : Error).
Arguments Returns {A} a.
Arguments Throws {A} e.

(** [error.response?.data?.error?.message || fallback]. *)
Definition error_message (response : option AxiosResponse) (fallback : string)
    : value :=
  or_else
    (match response with
     | None => Undefined
     | Some r => get_opt (get_opt (data r) "error") "message"
     end)
    (Str fallback).

(** The [catch] block shared by the client's functions. *)
Definition rethrow (fallback : string) (r : AxiosResult) : Error :=
  match r with
  | AxiosError response => mkError (error_message response fallback)
  | _ => mkError (Str fallback)
  end.

(** A function of the client whose [try] block validates the body against
    [schema] and then runs [check], either of which may throw into the same
    [catch]. *)
Definition call {A : Type} (fallback : string) (schema : value -> option A)
    (check : A -> option A) (r : AxiosResult) : result A :=
  match r with
  | Fulfilled body =>
      match schema body with
      | None => Throws (mkError (Str fallback))
      | Some validated =>
          match check validated with
          | None => Throws (mkError (Str fallback))
          | Some a => Returns a
          end
      end
  | _ => Throws (rethrow fallback r)
  end.

Definition quote_fallback (fromAsset toAsset : string) : string :=
  String.append "Failed to create quote for "
    (String.append fromAsset (String.append " to " toAsset)).

(** [createQuote]: throws on [validated.error], else returns the quote. *)
Definition createQuote (schema : value -> option SideShiftQuote)
    (fromAsset toAsset : string) (r : AxiosResult) : result SideShiftQuote :=
  call (quote_fallback fromAsset toAsset) schema
    (fun q => match q_error q with Some _ => None | None => Some q end) r.

Definition createOrder (schema : value -> option SideShiftOrder)
    (r : AxiosResult) : result SideShiftOrder :=
  call "Failed to create order" schema Some r.

Definition getOrderStatus (schema : value -> option SideShiftOrderStatus)
    (r : AxiosResult) : result SideShiftOrderStatus :=
  call "Failed to get order status" schema Some r.

(** [createCheckout]: throws on [validated.error]; an empty [url] is
    replaced by [CHECKOUT_URL/id]. *)
Definition createCheckout (checkoutUrl : string)
    (schema : value -> option SideShiftCheckoutResponse) (r : AxiosResult)
    : result SideShiftCheckoutResponse :=
  call "Failed to create checkout" schema
    (fun c =>
       match c_error c with
       | Some _ => None
       | None =>
           Some (mkCheckout (c_id c)
                   (if String.eqb (c_url c) EmptyString
                    then String.append checkoutUrl (String.append "/" (c_id c))
                    else c_url c)
                   None)
       end) r.

(** [getCoins] and [getPairs]: the body validated as an array. *)
Definition getCoins {A : Type} (schema : value -> option A) (r : AxiosResult)
    : result A :=
  call "Failed to fetch coins" schema Some r.

Definition getPairs {A : Type} (schema : value -> option A) (r : AxiosResult)
    : result A :=
  call "Failed to fetch trading pairs" schema Some r.

(** The error a caller sees, if any. *)
Definition thrown {A : Type} (x : result A) : option Error :=
  match x with
  | Throws e => Some e
  | Returns _ => None
  end.

(** An error reply of the aggregator: 4xx or 5xx. *)
Definition is_error_status (s : Z) : bool := (400 <=? s) && (s <=? 599).

(** *** Scenario: two error replies without a JSON error body *)

Definition unavailable_503 : AxiosResponse :=
  mkResponse 503 (Some "120") (Str "<html>Service Unavailable</html>").

Definition not_found_404 : AxiosResponse :=
  mkResponse 404 None (Str "Not Found").

Definition no_schema : value -> option SideShiftOrderStatus := fun _ => None.

End SideShift.

(* ------------------------------------------------------------------ *)
(** ** Order monitor (bot/src/services/order-monitor.ts) *)

Module Monitor.

Import JS.
Import SideShift.

(** [getBackoffInterval(ageMs)]; the age is [now - createdAt.getTime()],
    a difference of two millisecond timestamps. *)
Definition getBackoffInterval (ageMs : Z) : Z :=
  if ageMs <? 5 * 60000 then 15000
  else if ageMs <? 30 * 60000 then 60000
  else if ageMs <? 2 * 3600000 then 5 * 60000
  else 15 * 60000.

Definition seconds (n : Z) : Z := n * 1000.
Definition minutes (n : Z) : Z := n * 60000.
Definition hours (n : Z) : Z := n * 3600000.

Record TrackedOrder : Type := mkTracked {
  orderId : string;
  telegramId : Z;
  createdAt : Z;
  lastChecked : Z;
  lastStatus : string
}.

(** Calls made on the injected [OrderMonitorDeps], in the order made. *)
Inductive Event : Type :=
| GetOrderStatus (orderId : string)
| UpdateOrderStatus (orderId newStatus : string)
| UpdateWatchedOrderStatus (orderId newStatus : string)
| AddWatchedOrder (telegramId : Z) (orderId initialStatus : string)
| OnStatusChange (telegramId : Z) (orderId oldStatus newStatus : string)
    (orderDetails : SideShiftOrderStatus).

(** What the injected dependencies answer.  [onStatusChange] returning
    [false] stands for the callback throwing; [dateNow] is [Date.now()] read
    when the reply for an order arrives. *)
Record Deps : Type := mkDeps {
  getOrderStatus : string -> outcome SideShiftOrderStatus;
  onStatusChange : Z -> string -> string -> string -> SideShiftOrderStatus -> bool;
  dateNow : string -> Z
}.

Definition TERMINAL_STATUSES : list string :=
  ["settled"; "expired"; "refunded"; "failed"].

Definition is_terminal (s : string) : bool :=
  existsb (String.eqb s) TERMINAL_STATUSES.

Definition MAX_CONCURRENT : Z := 5.
Definition TICK_INTERVAL : Z := 10000.

(** The [tracked] map keeps insertion order, which [tick] relies on when it
    slices the batch: an association list with one entry per key. *)
Record OrderMonitor : Type := mkMonitor {
  tracked : list (string * TrackedOrder);
  activePollCount : Z
}.

Definition empty : OrderMonitor := mkMonitor [] 0.

Fixpoint map_has (k : string) (m : list (string * TrackedOrder)) : bool :=
  match m with
  | [] => false
  | (k', _) :: rest => String.eqb k k' || map_has k rest
  end.

(** [Map.set]: replaces in place, or appends. *)
Fixpoint map_set (k : string) (v : TrackedOrder)
    (m : list (string * TrackedOrder)) : list (string * TrackedOrder) :=
  match m with
  | [] => [(k, v)]
  | (k', v') :: rest =>
      if String.eqb k k' then (k, v) :: rest else (k', v') :: map_set k v rest
  end.

Fixpoint map_delete (k : string) (m : list (string * TrackedOrder))
    : list (string * TrackedOrder) :=
  match m with
  | [] => []
  | (k', v') :: rest =>
      if String.eqb k k' then map_delete k rest else (k', v') :: map_delete k rest
  end.

(** Writing through the reference [tick] took from the map: the entry
    changes only while the object is still the one stored under its key. *)
Definition map_mutate (k : string) (v : TrackedOrder)
    (m : list (string * TrackedOrder)) : list (string * TrackedOrder) :=
  if map_has k m then map_set k v m else m.

Definition count_key (k : string) (m : list (string * TrackedOrder)) : nat :=
  List.length (filter (fun e => String.eqb k (fst e)) m).

(** [trackOrder(orderId, telegramId, createdAt?)]; [now] is the
    [new Date()] used when no creation time is given. *)
Definition trackOrder (now : Z) (m : OrderMonitor) (oid : string) (tg : Z)
    (created : option Z) : OrderMonitor * list Event :=
  if map_has oid (tracked m) then (m, [])
  else
    (mkMonitor
       (map_set oid
          (mkTracked oid tg (match created with Some c => c | None => now end)
             0 "pending")
          (tracked m))
       (activePollCount m),
     [AddWatchedOrder tg oid "pending"]).

Definition untrackOrder (m : OrderMonitor) (oid : string) : OrderMonitor :=
  mkMonitor (map_delete oid (tracked m)) (activePollCount m).

(** The [try] block of [pollOrder]: the status request, then the writes
    when the status changed.  A rejected request and a throwing callback both
    land in the [catch], which only logs. *)
Definition pollOrder_try (d : Deps) (m : OrderMonitor) (order : TrackedOrder)
    : OrderMonitor * list Event :=
  let oid := orderId order in
  match getOrderStatus d oid with
  | Rejected => (m, [GetOrderStatus oid])
  | Resolved status =>
      let checked :=
        mkTracked oid (telegramId order) (createdAt order) (dateNow d oid)
          (lastStatus order) in
      let newStatus := st_status status in
      let oldStatus := lastStatus order in
      if String.eqb newStatus oldStatus then
        (mkMonitor (map_mutate oid checked (tracked m)) (activePollCount m),
         [GetOrderStatus oid])
      else
        let changed :=
          mkTracked oid (telegramId order) (createdAt order) (dateNow d oid)
            newStatus in
        let m1 :=
          mkMonitor (map_mutate oid changed (tracked m)) (activePollCount m) in
        let evs :=
          [GetOrderStatus oid;
           UpdateOrderStatus oid newStatus;
           UpdateWatchedOrderStatus oid newStatus;
           OnStatusChange (telegramId order) oid oldStatus newStatus status] in
        if onStatusChange d (telegramId order) oid oldStatus newStatus status
        then
          if is_terminal newStatus then (untrackOrder m1 oid, evs)
          else (m1, evs)
        else (m1, evs)
  end.

(** [pollOrder(order)]: [activePollCount++], the [try] block, and
    [activePollCount--] in the [finally]. *)
Definition pollOrder (d : Deps) (m : OrderMonitor) (order : TrackedOrder)
    : OrderMonitor * list Event :=
  let '(m1, evs) :=
    pollOrder_try d (mkMonitor (tracked m) (activePollCount m + 1)) order in
  (mkMonitor (tracked m1) (activePollCount m1 - 1), evs).

(** [xs.slice(0, n)]: a negative [n] counts from the end. *)
Definition slice0 {A : Type} (n : Z) (xs : list A) : list A :=
  if n <? 0 then firstn (Z.to_nat (Z.of_nat (List.length xs) + n)) xs
  else firstn (Z.to_nat n) xs.

Definition due (now : Z) (o : TrackedOrder) : bool :=
  getBackoffInterval (now - createdAt o) <=? now - lastChecked o.

Fixpoint pollAll (d : Deps) (m : OrderMonitor) (batch : list TrackedOrder)
    : OrderMonitor * list Event :=
  match batch with
  | [] => (m, [])
  | o :: rest =>
      let '(m1, e1) := pollOrder d m o in
      let '(m2, e2) := pollAll d m1 rest in
      (m2, e1 ++ e2)
  end.

(** [tick()] at [Date.now() = now].  The polls of a batch run interleaved
    in the source; each touches its own order and restores the counter, so
    they are run here one after the other. *)
Definition tick (d : Deps) (now : Z) (m : OrderMonitor)
    : OrderMonitor * list Event :=
  let toPoll := filter (due now) (map snd (tracked m)) in
  match toPoll with
  | [] => (m, [])
  | _ =>
      let batch := slice0 (MAX_CONCURRENT - activePollCount m) toPoll in
      match batch with
      | [] => (m, [])
      | _ => pollAll d m batch
      end
  end.

(** A run of ticks, each with the clock reading and the answers of its
    time. *)
Fixpoint ticks (steps : list (Deps * Z)) (m : OrderMonitor)
    : OrderMonitor * list Event :=
  match steps with
  | [] => (m, [])
  | (d, now) :: rest =>
      let '(m1, e1) := tick d now m in
      let '(m2, e2) := ticks rest m1 in
      (m2, e1 ++ e2)
  end.

(** Requests sent to the aggregator among the events. *)
Definition polls (evs : list Event) : list string :=
  flat_map (fun e => match e with GetOrderStatus o => [o] | _ => [] end) evs.

Definition notifications (evs : list Event) : list Event :=
  filter (fun e => match e with OnStatusChange _ _ _ _ _ => true | _ => false end)
    evs.

(** *** The persistence behind the dependencies *)

Record WatchedOrderRow : Type := mkWatched {
  w_telegramId : Z;
  w_sideshiftOrderId : string;
  w_lastStatus : string
}.

(** Modelled from the spec: [addWatchedOrder] and
    [updateWatchedOrderStatus] of bot/src/services/database.ts, which is not
    among the sources.  The insert is on-conflict-do-nothing on the unique
    external order id, as the scheduler's own insert into [watchedOrders] is;
    the update sets the last-known status of the row with that id. *)
Definition persist (rows : list WatchedOrderRow) (e : Event)
    : list WatchedOrderRow :=
  match e with
  | AddWatchedOrder tg oid st =>
      if existsb (fun r => String.eqb oid (w_sideshiftOrderId r)) rows
      then rows
      else rows ++ [mkWatched tg oid st]
  | UpdateWatchedOrderStatus oid st =>
      map (fun r =>
             if String.eqb oid (w_sideshiftOrderId r)
             then mkWatched (w_telegramId r) oid st else r) rows
  | _ => rows
  end.

Definition persist_all (rows : list WatchedOrderRow) (evs : list Event)
    : list WatchedOrderRow :=
  fold_left persist evs rows.

Definition count_rows (oid : string) (rows : list WatchedOrderRow) : nat :=
  List.length (filter (fun r => String.eqb oid (w_sideshiftOrderId r)) rows).

(** Every entry sits under its own order id, as [trackOrder] and
    [loadPendingOrders] store it. *)
Definition keyed (m : OrderMonitor) : Prop :=
  forall k v, In (k, v) (tracked m) -> orderId v = k.

(** [track(o); track(o); untrack(o); track(o)], with the clock readings of
    the three [trackOrder] calls. *)
Definition track_track_untrack_track (t1 t2 t3 : Z) (m : OrderMonitor)
    (oid : string) (tg : Z) (created : option Z) : OrderMonitor * list Event :=
  let '(m1, e1) := trackOrder t1 m oid tg created in
  let '(m2, e2) := trackOrder t2 m1 oid tg created in
  let m3 := untrackOrder m2 oid in
  let '(m4, e4) := trackOrder t3 m3 oid tg created in
  (m4, e1 ++ e2 ++ e4).

(** *** Loading and reconciling *)

(** A row of [orders] or of [watched_orders] as [loadPendingOrders] reads
    it: the status is [status] of an order and [lastStatus] of a watched
    order; [createdAt] may be null. *)
Record PendingRow : Type := mkPending {
  p_sideshiftOrderId : string;
  p_telegramId : Z;
  p_createdAt : option Z;
  p_status : string
}.

(** [tracked.get(k)]. *)
Fixpoint map_get (k : string) (m : list (string * TrackedOrder))
    : option TrackedOrder :=
  match m with
  | [] => None
  | (k', v) :: rest => if String.eqb k k' then Some v else map_get k rest
  end.

(** One turn of either [for] loop of [loadPendingOrders]; [clockAt] is the
    [new Date()] taken for a row without a creation time. *)
Definition load_row (clockAt : string -> Z)
    (t : list (string * TrackedOrder)) (r : PendingRow)
    : list (string * TrackedOrder) :=
  let oid := p_sideshiftOrderId r in
  if map_has oid t then t
  else
    map_set oid
      (mkTracked oid (p_telegramId r)
         (match p_createdAt r with Some c => c | None => clockAt oid end)
         0 (p_status r))
      t.

Definition load_rows (clockAt : string -> Z) (rows : list PendingRow)
    (t : list (string * TrackedOrder)) : list (string * TrackedOrder) :=
  fold_left (load_row clockAt) rows t.

(** [loadPendingOrders()]: the orders table first, then the watched
    orders; a query that rejects ends the load in the [catch], with what was
    loaded before it kept. *)
Definition loadPendingOrders (clockAt : string -> Z)
    (pendingOrders pendingWatched : outcome (list PendingRow))
    (m : OrderMonitor) : OrderMonitor :=
  match pendingOrders with
  | Rejected => m
  | Resolved os =>
      let t1 := load_rows clockAt os (tracked m) in
      match pendingWatched with
      | Rejected => mkMonitor t1 (activePollCount m)
      | Resolved ws => mkMonitor (load_rows clockAt ws t1) (activePollCount m)
      end
  end.

(** [reconcile()]: reload, then poll every tracked order, whatever its
    backoff and whatever the number of polls in flight. *)
Definition reconcile (d : Deps) (clockAt : string -> Z)
    (pendingOrders pendingWatched : outcome (list PendingRow))
    (m : OrderMonitor) : OrderMonitor * list Event :=
  let m1 := loadPendingOrders clockAt pendingOrders pendingWatched m in
  pollAll d m1 (map snd (tracked m1)).

(** [getTrackedOrderIds()] and [trackedCount]. *)
Definition getTrackedOrderIds (m : OrderMonitor) : list string :=
  map fst (tracked m).

Definition trackedCount (m : OrderMonitor) : nat := List.length (tracked m).

(** One entry per order id. *)
Definition unique (m : OrderMonitor) : Prop := NoDup (getTrackedOrderIds m).

(** The orders a tick at [now] finds due, in the order of the map. *)
Definition dueOrders (now : Z) (m : OrderMonitor) : list TrackedOrder :=
  filter (due now) (map snd (tracked m)).

(** The monitor wired to the client: [deps.getOrderStatus] is the client's
    function of that name, whose thrown error the monitor's [catch] receives
    as a rejection. *)
Definition client_deps
    (schema : value -> option SideShiftOrderStatus)
    (aggregator : string -> AxiosResult)
    (callback : Z -> string -> string -> string -> SideShiftOrderStatus -> bool)
    (clockAt : string -> Z) : Deps :=
  mkDeps
    (fun oid =>
       match SideShift.getOrderStatus schema (aggregator oid) with
       | Returns s => Resolved s
       | Throws _ => Rejected
       end)
    callback clockAt.

(** *** Scenario: order X1, in processing, is reported settled *)

Definition x1 : TrackedOrder := mkTracked "X1" 42 0 0 "processing".

Definition x1_settled : SideShiftOrderStatus :=
  mkStatus "X1" "settled" (Some "0xd") (Some "0xs").

Definition watching_x1 : OrderMonitor := mkMonitor [("X1", x1)] 0.

Definition settling : Deps :=
  mkDeps (fun _ => Resolved x1_settled) (fun _ _ _ _ _ => true)
    (fun _ => 300000).

(** *** Scenario: the callback throws on the terminal transition, and the
    aggregator keeps answering settled *)

Definition throwing : Deps :=
  mkDeps (fun _ => Resolved x1_settled) (fun _ _ _ _ _ => false)
    (fun _ => 300000).

Definition settled_again : Deps :=
  mkDeps (fun _ => Resolved x1_settled) (fun _ _ _ _ _ => true)
    (fun _ => 600000).

(** *** Scenario: the aggregator answers 429 with Retry-After: 30 *)

Definition too_many_requests : AxiosResult :=
  AxiosError
    (Some (mkResponse 429 (Some "30")
             (Obj [("error", Obj [("message", Str "Rate limit exceeded")])]))).

Definition rate_limited : Deps :=
  client_deps (fun _ => None) (fun _ => too_many_requests)
    (fun _ _ _ _ _ => true) (fun _ => 0).

(** *** Scenario: rows waiting in the tables, and a monitor with six polls
    in flight *)

Definition pending_rows : list PendingRow :=
  [mkPending "X1" 42 (Some 0) "waiting"; mkPending "X2" 43 None "pending"].

Definition busy_monitor : OrderMonitor :=
  mkMonitor
    [("X1", x1); ("X2", mkTracked "X2" 43 0 0 "pending");
     ("X3", mkTracked "X3" 44 0 0 "waiting")]
    6.

End Monitor.

(* ------------------------------------------------------------------ *)
(** ** DCA scheduler (bot/src/services/dca-scheduler.ts) *)

Module DCA.

Import JS.
Import SideShift.

Definition RETRY_DELAY_MINUTES : Z := 5.
Definition MAX_PROCESSING_TIME_MINUTES : Z := 10.

(** A row of [dca_schedules]. *)
Record Schedule : Type := mkSchedule {
  id : Z;
  telegramId : Z;
  fromAsset : string;
  fromNetwork : string;
  toAsset : string;
  toNetwork : string;
  amountPerOrder : string;
  intervalHours : Z;
  isActive : Z;
  nextExecutionAt : Z;
  ordersExecuted : Z
}.

(** A row of [orders], as [executeSchedule] inserts it. *)
Record OrderRow : Type := mkOrderRow {
  or_telegramId : Z;
  or_sideshiftOrderId : string;
  or_quoteId : string;
  or_fromAsset : string;
  or_fromNetwork : string;
  or_fromAmount : string;
  or_toAsset : string;
  or_toNetwork : string;
  or_settleAmount : string;
  or_depositAddress : string;
  or_depositMemo : option string;
  or_status : string
}.

Record WatchedRow : Type := mkWatchedRow {
  wr_telegramId : Z;
  wr_sideshiftOrderId : string;
  wr_lastStatus : string
}.

Record Db : Type := mkDb {
  dcaSchedules : list Schedule;
  orders : list OrderRow;
  watchedOrders : list WatchedRow
}.

Record User : Type := mkUser {
  walletAddress : option string
}.

(** What the collaborators answer during one [executeSchedule]: the user
    row, or a rejected query; the quote and the order; and whether the
    closing transaction, the update of [releaseLock] and the update of
    [scheduleRetry] go through when they are reached. *)
Record Answers : Type := mkAnswers {
  getUser : outcome (option User);
  quote : result SideShiftQuote;
  order : result SideShiftOrder;
  committed : bool;
  released : bool;
  retried : bool
}.

(** The time zone of the host as [Date] consults it: the offset of local
    time from UTC at an instant, and the offset taken for a local time when
    it is turned back into an instant (for a local time that occurs twice,
    at the end of daylight saving, the offset before the change). *)
Record Zone : Type := mkZone {
  offsetAt : Z -> Z;
  offsetOfLocal : Z -> Z
}.

(** Between the instant [t] and the local time [delta] later the offset
    does not change. *)
Definition steady (zone : Zone) (t delta : Z) : Prop :=
  offsetOfLocal zone (t + offsetAt zone t + delta) = offsetAt zone t.

Definition utc : Zone := mkZone (fun _ => 0) (fun _ => 0).

Section Zoned.

Variable zone : Zone.

(** A setter of [Date] on a local-time field: the local time of [t], moved
    by [delta], turned back into an instant. *)
Definition set_local (t delta : Z) : Z :=
  let local := t + offsetAt zone t + delta in
  local - offsetOfLocal zone local.

(** [d.setMinutes(d.getMinutes() + n)] and [d.setHours(d.getHours() + n)]
    on the timestamp of [d]. *)
Definition addMinutes (t n : Z) : Z := set_local t (n * 60000).
Definition addHours (t n : Z) : Z := set_local t (n * 3600000).

Definition with_nextExecutionAt (t : Z) (s : Schedule) : Schedule :=
  mkSchedule (id s) (telegramId s) (fromAsset s) (fromNetwork s) (toAsset s)
    (toNetwork s) (amountPerOrder s) (intervalHours s) (isActive s) t
    (ordersExecuted s).

Definition with_ordersExecuted (n : Z) (s : Schedule) : Schedule :=
  mkSchedule (id s) (telegramId s) (fromAsset s) (fromNetwork s) (toAsset s)
    (toNetwork s) (amountPerOrder s) (intervalHours s) (isActive s)
    (nextExecutionAt s) n.

(** [where(and(eq(isActive, 1), lte(nextExecutionAt, now)))]. *)
Definition is_due (now : Z) (s : Schedule) : bool :=
  (isActive s =? 1) && (nextExecutionAt s <=? now).

Definition in_ids (ids : list Z) (s : Schedule) : bool :=
  existsb (Z.eqb (id s)) ids.

(** [update(dcaSchedules).set({ nextExecutionAt: t }).where(inArray(id, ids))]. *)
Definition update_nextExecutionAt (ids : list Z) (t : Z)
    (rows : list Schedule) : list Schedule :=
  map (fun s => if in_ids ids s then with_nextExecutionAt t s else s) rows.

(** [update(dcaSchedules).set({ ordersExecuted: orders_executed + 1 })
    .where(eq(id, sid))]. *)
Definition increment_ordersExecuted (sid : Z) (rows : list Schedule)
    : list Schedule :=
  map (fun s =>
         if id s =? sid then with_ordersExecuted (ordersExecuted s + 1) s
         else s) rows.

(** [insert(watchedOrders).values(row).onConflictDoNothing()]: the external
    order id is unique. *)
Definition insert_watched (row : WatchedRow) (rows : list WatchedRow)
    : list WatchedRow :=
  if existsb
       (fun r => String.eqb (wr_sideshiftOrderId row) (wr_sideshiftOrderId r))
       rows
  then rows else rows ++ [row].

Definition lockTime (clock : Z) : Z :=
  addMinutes clock MAX_PROCESSING_TIME_MINUTES.

(** The claim transaction of [processSchedules], run alone: [now] is the
    first [new Date()], [clock] the one read inside the transaction. *)
Definition claim (now clock : Z) (db : Db) : list Schedule * Db :=
  let schedules := filter (is_due now) (dcaSchedules db) in
  match schedules with
  | [] => (schedules, db)
  | _ =>
      (schedules,
       mkDb (update_nextExecutionAt (map id schedules) (lockTime clock)
               (dcaSchedules db))
         (orders db) (watchedOrders db))
  end.

(** The writes the scheduler issues after a claim. *)
Inductive Write : Type :=
| InsertOrder (row : OrderRow)
| InsertWatchedOrder (row : WatchedRow)
| IncrementOrdersExecuted (scheduleId : Z)
| SetNextExecutionAt (scheduleId : Z) (t : Z).

Definition apply_write (db : Db) (w : Write) : Db :=
  match w with
  | InsertOrder row =>
      mkDb (dcaSchedules db) (orders db ++ [row]) (watchedOrders db)
  | InsertWatchedOrder row =>
      mkDb (dcaSchedules db) (orders db) (insert_watched row (watchedOrders db))
  | IncrementOrdersExecuted sid =>
      mkDb (increment_ordersExecuted sid (dcaSchedules db)) (orders db)
        (watchedOrders db)
  | SetNextExecutionAt sid t =>
      mkDb (update_nextExecutionAt [sid] t (dcaSchedules db)) (orders db)
        (watchedOrders db)
  end.

(** [releaseLock(scheduleId, intervalHours)]. *)
Definition releaseLock (clock : Z) (sid hours : Z) : list Write :=
  [SetNextExecutionAt sid (addHours clock hours)].

(** [scheduleRetry(scheduleId)]. *)
Definition scheduleRetry (clock : Z) (sid : Z) : list Write :=
  [SetNextExecutionAt sid (addMinutes clock RETRY_DELAY_MINUTES)].

Definition depositAddr (a : DepositAddress) : string :=
  match a with
  | AddressString s => s
  | AddressObject s _ => s
  end.

(** [depositMemo || null]: an empty memo is stored as null. *)
Definition depositMemo (a : DepositAddress) : option string :=
  match a with
  | AddressString _ => None
  | AddressObject _ memo =>
      if String.eqb memo EmptyString then None else Some memo
  end.

(** The writes of the transaction that ends a successful execution, in the
    order made. *)
Definition success_writes (schedule : Schedule) (q : SideShiftQuote)
    (o : SideShiftOrder) : list Write :=
  [InsertOrder
     (mkOrderRow (telegramId schedule) (o_id o) (q_id q) (fromAsset schedule)
        (fromNetwork schedule) (amountPerOrder schedule) (toAsset schedule)
        (toNetwork schedule) (q_settleAmount q)
        (depositAddr (o_depositAddress o)) (depositMemo (o_depositAddress o))
        "pending");
   InsertWatchedOrder (mkWatchedRow (telegramId schedule) (o_id o) "pending");
   IncrementOrdersExecuted (id schedule)].

(** How one [executeSchedule] ends: the lock released for a user without
    a wallet; the retry scheduled by the [catch]; the closing transaction
    committed; or nothing written, when the update of [scheduleRetry] is
    rejected as well. *)
Inductive Path : Type :=
| NoWallet
| Failed
| Succeeded (q : SideShiftQuote) (o : SideShiftOrder)
| Unwritten.

Definition has_wallet (u : option User) : option string :=
  match u with
  | Some (mkUser (Some w)) =>
      if String.eqb w EmptyString then None else Some w
  | _ => None
  end.

(** Where the [catch] ends. *)
Definition caught (a : Answers) : Path :=
  if retried a then Failed else Unwritten.

Definition path (a : Answers) : Path :=
  match getUser a with
  | Rejected => caught a
  | Resolved user =>
      match has_wallet user with
      | None => if released a then NoWallet else caught a
      | Some _ =>
          match quote a with
          | Throws _ => caught a
          | Returns q =>
              match q_error q with
              | Some _ => caught a
              | None =>
                  match order a with
                  | Throws _ => caught a
                  | Returns o =>
                      if String.eqb (o_id o) EmptyString then caught a
                      else if committed a then Succeeded q o
                      else caught a
                  end
              end
          end
      end
  end.

(** [executeSchedule(schedule)] with the collaborators' answers [a]; [clock]
    is the [new Date()] of [releaseLock] or [scheduleRetry]. *)
Definition executeSchedule_writes (a : Answers) (clock : Z)
    (schedule : Schedule) : list Write :=
  match path a with
  | NoWallet => releaseLock clock (id schedule) (intervalHours schedule)
  | Failed => scheduleRetry clock (id schedule)
  | Succeeded q o => success_writes schedule q o
  | Unwritten => []
  end.

Definition executeSchedule (a : Answers) (clock : Z) (schedule : Schedule)
    (db : Db) : Db :=
  fold_left apply_write (executeSchedule_writes a clock schedule) db.

(** The row of a schedule, by id. *)
Definition find_schedule (sid : Z) (db : Db) : option Schedule :=
  find (fun s => id s =? sid) (dcaSchedules db).

(** *** One instance, one tick *)

(** The executions [processSchedules] launches for the rows it claimed;
    each ends in one transaction or one update, applied here in the order
    launched.  [clockAt] is the [new Date()] of an execution. *)
Definition execute_all (answers : Schedule -> Answers)
    (clockAt : Schedule -> Z) (schedules : list Schedule) (d : Db) : Db :=
  fold_left (fun acc s => executeSchedule (answers s) (clockAt s) s acc)
    schedules d.

(** [processSchedules()] of a single instance. *)
Definition processSchedules (answers : Schedule -> Answers)
    (clockAt : Schedule -> Z) (now clock0 : Z) (d : Db) : list Schedule * Db :=
  let '(dueSchedules, d1) := claim now clock0 d in
  (dueSchedules, execute_all answers clockAt dueSchedules d1).

(** The sum of [ordersExecuted] over the plans. *)
Definition total_executed (d : Db) : Z :=
  fold_right Z.add 0 (map ordersExecuted (dcaSchedules d)).

(** The rows of a plan id. *)
Definition rows_of (sid : Z) (d : Db) : list Schedule :=
  filter (fun s => id s =? sid) (dcaSchedules d).

(** The rows of the other plans. *)
Definition rows_but (sid : Z) (d : Db) : list Schedule :=
  filter (fun s => negb (id s =? sid)) (dcaSchedules d).

(** A plan row without its two counters the scheduler writes. *)
Definition static (s : Schedule) : Schedule :=
  with_ordersExecuted 0 (with_nextExecutionAt 0 s).

(** One watched-order row per external order id. *)
Definition watched_unique (d : Db) : Prop :=
  NoDup (map wr_sideshiftOrderId (watchedOrders d)).

(** The rows one execution adds to [orders]. *)
Definition new_orders (a : Answers) : nat :=
  match path a with
  | Succeeded _ _ => 1%nat
  | _ => 0%nat
  end.

(** *** Two scheduler instances on one database *)

Inductive Instance : Type := A | B.

Definition inst_eqb (i j : Instance) : bool :=
  match i, j with
  | A, A | B, B => true
  | _, _ => false
  end.

(** Where an instance stands in [processSchedules]: [now] read and the
    transaction open; rows selected and locked; lock sentinel written; the
    transaction committed, with [dueSchedules] and the executions of it still
    to finish. *)
Inductive Pc : Type :=
| Begun (now : Z)
| Selected (schedules : list Schedule)
| Updated (schedules : list Schedule)
| Running (dueSchedules pending : list Schedule).

Record World : Type := mkWorld {
  clock : Z;
  db : Db;
  locks : list (Z * Instance);
  pcA : Pc;
  pcB : Pc
}.

Definition pc_of (i : Instance) (w : World) : Pc :=
  match i with A => pcA w | B => pcB w end.

Definition set_pc (i : Instance) (p : Pc) (w : World) (c : Z) (d : Db)
    (l : list (Z * Instance)) : World :=
  match i with
  | A => mkWorld c d l p (pcB w)
  | B => mkWorld c d l (pcA w) p
  end.

(** Row [sid] is locked by a transaction of another instance. *)
Definition locked_by_other (i : Instance) (l : list (Z * Instance)) (sid : Z)
    : bool :=
  existsb (fun e => (fst e =? sid) && negb (inst_eqb (snd e) i)) l.

(** [select ... for update skip locked]: due rows not locked elsewhere. *)
Definition select_skip_locked (i : Instance) (now : Z)
    (l : list (Z * Instance)) (rows : list Schedule) : list Schedule :=
  filter (fun s => is_due now s && negb (locked_by_other i l (id s))) rows.

Definition release (i : Instance) (l : list (Z * Instance))
    : list (Z * Instance) :=
  filter (fun e => negb (inst_eqb (snd e) i)) l.

Fixpoint remove_nth {X : Type} (n : nat) (xs : list X) : list X :=
  match n, xs with
  | _, [] => []
  | O, _ :: rest => rest
  | S k, x :: rest => x :: remove_nth k rest
  end.

(** One step of instance [i] after [dt] milliseconds: a statement of the
    claim transaction, its commit, or the database write that ends one of the
    executions launched after it ([choice] picks which).  [None] when the
    instance has nothing left to do or waits for a row lock. *)
Definition step (answers : Instance -> Schedule -> Answers) (i : Instance)
    (dt : Z) (choice : nat) (w : World) : option World :=
  if dt <? 0 then None
  else
    let c := clock w + dt in
    match pc_of i w with
    | Begun now =>
        let schedules :=
          select_skip_locked i now (locks w) (dcaSchedules (db w)) in
        Some (set_pc i (Selected schedules) w c (db w)
                (locks w ++ map (fun s => (id s, i)) schedules))
    | Selected [] =>
        Some (set_pc i (Running [] []) w c (db w) (release i (locks w)))
    | Selected schedules =>
        Some (set_pc i (Updated schedules) w c
                (mkDb
                   (update_nextExecutionAt (map id schedules) (lockTime c)
                      (dcaSchedules (db w)))
                   (orders (db w)) (watchedOrders (db w)))
                (locks w))
    | Updated schedules =>
        Some (set_pc i (Running schedules schedules) w c (db w)
                (release i (locks w)))
    | Running dueSchedules pending =>
        match nth_error pending choice with
        | None => None
        | Some schedule =>
            if locked_by_other i (locks w) (id schedule) then None
            else
              Some (set_pc i (Running dueSchedules (remove_nth choice pending))
                      w c (executeSchedule (answers i schedule) c schedule (db w))
                      (locks w))
        end
    end.

(** An interleaving: who moves, after how long, and which execution. *)
Definition Move : Type := (Instance * Z * nat)%type.

Fixpoint run (answers : Instance -> Schedule -> Answers) (moves : list Move)
    (w : World) : option World :=
  match moves with
  | [] => Some w
  | (i, dt, choice) :: rest =>
      match step answers i dt choice w with
      | None => None
      | Some w' => run answers rest w'
      end
  end.

(** Both instances have read [now] and opened their transaction. *)
Definition start (clock0 nowA nowB : Z) (d : Db) : World :=
  mkWorld clock0 d [] (Begun nowA) (Begun nowB).

Definition finished_pc (p : Pc) : bool :=
  match p with
  | Running _ [] => true
  | _ => false
  end.

Definition finished (w : World) : bool :=
  finished_pc (pcA w) && finished_pc (pcB w).

(** The rows an instance has claimed so far. *)
Definition claimed (p : Pc) : list Z :=
  match p with
  | Begun _ => []
  | Selected l | Updated l => map id l
  | Running l _ => map id l
  end.

Definition disjoint (xs ys : list Z) : Prop :=
  forall x, In x xs -> ~ In x ys.

Definition succeeds (a : Answers) : Prop :=
  exists q o, path a = Succeeded q o.

(** Steps an instance still has to take, at most. *)
Definition fuel_pc (rows : nat) (p : Pc) : nat :=
  match p with
  | Begun _ => rows + 3
  | Selected l => List.length l + 2
  | Updated l => List.length l + 1
  | Running _ pending => List.length pending
  end.

Definition fuel (w : World) : nat :=
  (fuel_pc (List.length (dcaSchedules (db w))) (pcA w)
   + fuel_pc (List.length (dcaSchedules (db w))) (pcB w))%nat.

(** *** The shape of a world in which two instances go after one plan *)

(** An instance that holds no claim: it has not selected yet, or it
    selected nothing. *)
Definition idle (now : Z) (p : Pc) : Prop :=
  p = Begun now \/ p = Selected [] \/ p = Running [] [].

(** Instance [i] holds the claim on [P]: it has the row locked, then has
    written a lock sentinel at least [MAX_PROCESSING_TIME] past [clock0],
    then has committed, then has inserted its order. *)
Definition owns (P : Schedule) (clock0 : Z) (os0 : list OrderRow)
    (i : Instance) (w : World) : Prop :=
  (pc_of i w = Selected [P] /\ locks w = [(id P, i)] /\
   dcaSchedules (db w) = [P] /\ orders (db w) = os0)
  \/
  (exists t, lockTime clock0 <= t /\
     pc_of i w = Updated [P] /\ locks w = [(id P, i)] /\
     dcaSchedules (db w) = [with_nextExecutionAt t P] /\ orders (db w) = os0)
  \/
  (exists t, lockTime clock0 <= t /\
     pc_of i w = Running [P] [P] /\ locks w = [] /\
     dcaSchedules (db w) = [with_nextExecutionAt t P] /\ orders (db w) = os0)
  \/
  (exists t o, lockTime clock0 <= t /\
     pc_of i w = Running [P] [] /\ locks w = [] /\
     dcaSchedules (db w)
     = [with_ordersExecuted (ordersExecuted P + 1) (with_nextExecutionAt t P)] /\
     orders (db w) = os0 ++ [o]).

Definition claim_invariant (P : Schedule) (clock0 nowA nowB : Z)
    (os0 : list OrderRow) (w : World) : Prop :=
  clock0 <= clock w /\
  ((pcA w = Begun nowA /\ pcB w = Begun nowB /\ locks w = [] /\
    dcaSchedules (db w) = [P] /\ orders (db w) = os0)
   \/ (owns P clock0 os0 A w /\ idle nowB (pcB w))
   \/ (owns P clock0 os0 B w /\ idle nowA (pcA w))).

End Zoned.

(** *** Scenario: one due plan, a user with a wallet, a quote and an order,
    on a host in UTC *)

Definition t0 : Z := 1700000000000.

Definition plan : Schedule :=
  mkSchedule 1 42 "USDC" "ethereum" "BTC" "bitcoin" "50" 24 1 (t0 - 1000) 3.

Definition db0 : Db := mkDb [plan] [] [].

Definition quote1 : SideShiftQuote := mkQuote "q1" "0.0012" "0.000024" None.

Definition order1 : SideShiftOrder :=
  mkOrder "o1" (AddressString "0xdeposit") "0.0012".

Definition happy : Answers :=
  mkAnswers (Resolved (Some (mkUser (Some "bc1qwallet")))) (Returns quote1)
    (Returns order1) true true true.

Definition no_wallet : Answers :=
  mkAnswers (Resolved (Some (mkUser None))) (Returns quote1) (Returns order1)
    true true true.

Definition order1_row : OrderRow :=
  mkOrderRow 42 "o1" "q1" "USDC" "ethereum" "50" "BTC" "bitcoin" "0.0012"
    "0xdeposit" None "pending".

(** An interleaving of the two instances. *)
Definition interleaved : list Move :=
  [(A, 0, 0%nat); (B, 5, 0%nat); (A, 10, 0%nat); (B, 3, 0%nat);
   (A, 7, 0%nat); (A, 2000, 0%nat)].

(** Where [interleaved] leaves the scenario when every execution gets
    [happy] answers. *)
Definition interleaved_end : World :=
  mkWorld (t0 + 2025)
    (mkDb
       [with_ordersExecuted 4
          (with_nextExecutionAt (lockTime utc (t0 + 15)) plan)]
       [order1_row] [mkWatchedRow 42 "o1" "pending"])
    [] (Running [plan] []) (Running [] []).

(** *** Scenario: a second plan, due thirty seconds after the first claim,
    and a quote request that fails *)

Definition plan2 : Schedule :=
  mkSchedule 2 43 "ETH" "ethereum" "BTC" "bitcoin" "0.1" 1 1 (t0 + 30000) 0.

Definition db2 : Db := mkDb [plan; plan2] [] [].

Definition failing : Answers :=
  mkAnswers (Resolved (Some (mkUser (Some "bc1qwallet"))))
    (Throws (mkError (Str "Rate limit exceeded"))) (Returns order1)
    true true true.

(** *** Scenario: two instances in the hour the clocks repeat *)

(** Central European time at the end of daylight saving 2023: at 01:00 UTC
    on 29 October the offset falls from two hours to one, and the local
    times from 02:00 to 03:00 occur twice. *)
Definition fall_back : Z := 1698541200000.

Definition berlin : Zone :=
  mkZone
    (fun t => if t <? fall_back then 7200000 else 3600000)
    (fun local => if local <? fall_back + 7200000 then 7200000 else 3600000).

(** 01:05 UTC, which is 02:05 local time for the second time. *)
Definition t1 : Z := fall_back + 300000.

Definition autumn_plan : Schedule :=
  mkSchedule 1 42 "USDC" "ethereum" "BTC" "bitcoin" "50" 24 1 (t1 - 1000) 3.

Definition autumn_db : Db := mkDb [autumn_plan] [] [].

Definition order2 : SideShiftOrder :=
  mkOrder "o2" (AddressString "0xdeposit2") "0.0012".

(** Instance A gets order [o1], instance B order [o2]. *)
Definition orders_for (i : Instance) (_ : Schedule) : Answers :=
  match i with
  | A => happy
  | B =>
      mkAnswers (Resolved (Some (mkUser (Some "bc1qwallet"))))
        (Returns quote1) (Returns order2) true true true
  end.

(** A runs its claim transaction; B, started with it, runs its own right
    after A's commit; then the two executions finish. *)
Definition one_after_the_other : list Move :=
  [(A, 0, 0%nat); (A, 5, 0%nat); (A, 5, 0%nat);
   (B, 5, 0%nat); (B, 5, 0%nat); (B, 5, 0%nat);
   (A, 2000, 0%nat); (B, 10, 0%nat)].

End DCA.

(* ------------------------------------------------------------------ *)
(** ** HTTP routes (frontend/app/api/...) *)

Module Api.

Import JS.

Record Request : Type := mkRequest {
  authorization : option string;
  query : list (string * string);
  body : option value
}.

(** [searchParams.get(k)]. *)
Fixpoint param (k : string) (q : list (string * string)) : option string :=
  match q with
  | [] => None
  | (k', v) :: rest => if String.eqb k k' then Some v else param k rest
  end.

Record Response : Type := mkResponse {
  status : Z;
  error : option string
}.

Definition ok (s : Z) : Response := mkResponse s None.
Definition fail (s : Z) (msg : string) : Response := mkResponse s (Some msg).

Record DecodedIdToken : Type := mkDecoded {
  uid : string;
  email : option string
}.

Record Admin : Type := mkAdmin {
  admin_name : string;
  admin_email : string;
  admin_role : string
}.

Record UserRow : Type := mkUserRow {
  firebase_uid : option string;
  wallet_address : option string
}.

Record AdjustArgs : Type := mkAdjust {
  adminId : value;
  adminEmail : string;
  targetUserId : value;
  targetFirebaseUid : string;
  walletAddress : option string;
  action : value;
  amount : value;
  note : value
}.

(** Calls into the data layer, with the arguments passed; a [limit] or a
    numeric [userId] is carried as the text handed to [parseInt], and the
    [note] of a broadcast gift as sent, before its default text. *)
Inductive Effect : Type :=
| GetSwapHistory (userId : string) (limit : string)
| GetChatHistory (userId : string) (sessionId : option string) (limit : string)
| AddChatMessage (userId walletAddress role content sessionId metadata : value)
| ClearChatHistory (userId : string) (sessionId : option string)
| GetUserSettings (userId : string)
| CreateOrUpdateUserSettings (userId walletAddress preferences
    emailNotifications : value)
| GetAdminByFirebaseUid (uid : value)
| SelectUser (targetUserId : value)
| AdjustTestnetCoins (args : AdjustArgs)
| GetUserCoinLogs (userId : string)
| GetCoinSupplyStats
| GetCoinUsersList (page limit search hasSwapped : option string)
| GiftAllUsers (adminId : value) (adminEmail : value) (amount : number)
    (note : value).

(** The world outside the handlers: the identity provider
    ([adminAuth.verifyIdToken], [None] when it throws), the built-ins
    [JSON.parse(Buffer.from(part, 'base64url').toString('utf-8'))] ([None]
    when it throws) and [Number(v)], whether a call into the data layer
    returns instead of throwing, the rows it finds, and whether
    [DATABASE_URL] is set; and whether the handler can read what a call
    returned: for [getChatHistory], whether [JSON.parse] accepts the
    [metadata] of every row that has one. *)
Record Services : Type := mkServices {
  verifyIdToken : string -> option DecodedIdToken;
  decodePayload : string -> option value;
  toNumber : value -> number;
  returns : Effect -> bool;
  adminRow : value -> option Admin;
  userRow : value -> option UserRow;
  databaseUrl : bool;
  readable : Effect -> bool
}.

(** *** Handlers as guarded sequences *)

(** A handler either has answered ([inl]) or goes on ([inr]); the calls
    into the data layer made so far are collected alongside. *)
Definition M (X : Type) : Type := ((Response + X) * list Effect)%type.

Definition ret {X : Type} (x : X) : M X := (inr x, []).

Definition reply {X : Type} (r : Response) : M X := (inl r, []).

Definition bind {X Y : Type} (m : M X) (k : X -> M Y) : M Y :=
  match m with
  | (inl r, es) => (inl r, es)
  | (inr x, es) => let '(y, es') := k x in (y, es ++ es')
  end.

Notation "x <- m ;; k" := (bind m (fun x => k))
  (at level 61, m at next level, right associativity).
Notation "m ;;; k" := (bind m (fun _ => k))
  (at level 61, right associativity).

(** Answer with [r] unless [b]. *)
Definition require (b : bool) (r : Response) : M unit :=
  if b then ret tt else reply r.

Definition some {X : Type} (o : option X) (r : Response) : M X :=
  match o with
  | Some x => ret x
  | None => reply r
  end.

(** A call into the data layer; the handler's [catch] answers [r] when it
    throws. *)
Definition perform (sv : Services) (e : Effect) (r : Response) : M unit :=
  (if returns sv e then inr tt else inl r, [e]).

Definition respond (m : M Response) : Response * list Effect :=
  match m with
  | (inl r, es) => (r, es)
  | (inr r, es) => (r, es)
  end.

(** [authHeader?.startsWith('Bearer ')]. *)
Definition bearer (h : option string) : option string :=
  match h with
  | Some s => if startsWith "Bearer " s then Some s else None
  | None => None
  end.

(** The authentication block of the user-scoped routes: the token is
    [authHeader.split('Bearer ')[1]], verified by the identity provider. *)
Definition authenticate (sv : Services) (req : Request) : M string :=
  h <- some (bearer (authorization req))
         (fail 401 "Unauthorized: No token provided") ;;
  decodedToken <- some
         (match nth_error (split "Bearer " h) 1 with
          | Some idToken => verifyIdToken sv idToken
          | None => None
          end)
         (fail 401 "Unauthorized: Invalid token") ;;
  ret (uid decodedToken).

(** [x || d] on an optional string. *)
Definition or_default (x : option string) (d : string) : string :=
  match x with
  | Some s => if String.eqb s EmptyString then d else s
  | None => d
  end.

(** [x || undefined] on an optional string. *)
Definition nonempty (x : option string) : option string :=
  match x with
  | Some s => if String.eqb s EmptyString then None else Some s
  | None => None
  end.

(** [const { a, b } = body]: a TypeError on [null]. *)
Definition field (b : value) (k : string) (r : Response) : M value :=
  some (get b k) r.

(** [GET /api/swap-history]. *)
Definition swapHistory_GET (sv : Services) (req : Request)
    : Response * list Effect :=
  respond (
    authenticatedUserId <- authenticate sv req ;;
    userId <- some (nonempty (param "userId" (query req)))
                (fail 400 "userId is required") ;;
    require (String.eqb userId authenticatedUserId)
      (fail 403 "Forbidden: User ID mismatch") ;;;
    perform sv
      (GetSwapHistory userId (or_default (param "limit" (query req)) "50"))
      (fail 500 "Failed to fetch swap history") ;;;
    ret (ok 200)).

(** [GET /api/chat/history]: the rows returned are mapped with
    [JSON.parse(msg.metadata)] inside the [try], so unreadable metadata ends
    in the [catch] as well. *)
Definition chatHistory_GET (sv : Services) (req : Request)
    : Response * list Effect :=
  respond (
    authenticatedUserId <- authenticate sv req ;;
    userId <- some (nonempty (param "userId" (query req)))
                (fail 400 "userId is required") ;;
    require (String.eqb userId authenticatedUserId)
      (fail 403 "Forbidden: User ID mismatch") ;;;
    let call :=
      GetChatHistory userId (nonempty (param "sessionId" (query req)))
        (or_default (param "limit" (query req)) "50") in
    perform sv call (fail 500 "Failed to fetch chat history") ;;;
    require (readable sv call) (fail 500 "Failed to fetch chat history") ;;;
    ret (ok 200)).

Definition dquote : string := String (ascii_of_nat 34) EmptyString.

(** The message naming the two roles, each in double quotes. *)
Definition role_message : string :=
  String.concat EmptyString
    ["role must be either "; dquote; "user"; dquote; " or "; dquote;
     "assistant"; dquote].

(** [POST /api/chat/history]. *)
Definition chatHistory_POST (sv : Services) (req : Request)
    : Response * list Effect :=
  let oops := fail 500 "Failed to add chat message" in
  respond (
    authenticatedUserId <- authenticate sv req ;;
    b <- some (body req) oops ;;
    userId <- field b "userId" oops ;;
    walletAddress <- field b "walletAddress" oops ;;
    role <- field b "role" oops ;;
    content <- field b "content" oops ;;
    sessionId <- field b "sessionId" oops ;;
    metadata <- field b "metadata" oops ;;
    require (truthy userId && truthy role && truthy content)
      (fail 400 "userId, role, and content are required") ;;;
    require (strict_eq_str userId authenticatedUserId)
      (fail 403 "Forbidden: User ID mismatch") ;;;
    require (includes ["user"; "assistant"] role)
      (fail 400 role_message) ;;;
    perform sv
      (AddChatMessage userId walletAddress role content sessionId metadata)
      oops ;;;
    ret (ok 201)).

(** [DELETE /api/chat/history]. *)
Definition chatHistory_DELETE (sv : Services) (req : Request)
    : Response * list Effect :=
  respond (
    authenticatedUserId <- authenticate sv req ;;
    userId <- some (nonempty (param "userId" (query req)))
                (fail 400 "userId is required") ;;
    require (String.eqb userId authenticatedUserId)
      (fail 403 "Forbidden: User ID mismatch") ;;;
    perform sv
      (ClearChatHistory userId (nonempty (param "sessionId" (query req))))
      (fail 500 "Failed to clear chat history") ;;;
    ret (ok 200)).

(** [GET /api/user/settings]. *)
Definition userSettings_GET (sv : Services) (req : Request)
    : Response * list Effect :=
  respond (
    authenticatedUserId <- authenticate sv req ;;
    require (databaseUrl sv) (fail 500 "Database configuration error") ;;;
    userId <- some (nonempty (param "userId" (query req)))
                (fail 400 "userId is required") ;;
    require (String.eqb userId authenticatedUserId)
      (fail 403 "Forbidden: User ID mismatch") ;;;
    perform sv (GetUserSettings userId)
      (fail 500 "Failed to fetch user settings") ;;;
    ret (ok 200)).

(** [POST /api/user/settings]; [PATCH] calls it. *)
Definition userSettings_POST (sv : Services) (req : Request)
    : Response * list Effect :=
  let oops := fail 500 "Failed to update user settings" in
  respond (
    authenticatedUserId <- authenticate sv req ;;
    require (databaseUrl sv) (fail 500 "Database configuration error") ;;;
    b <- some (body req) oops ;;
    userId <- field b "userId" oops ;;
    walletAddress <- field b "walletAddress" oops ;;
    preferences <- field b "preferences" oops ;;
    emailNotifications <- field b "emailNotifications" oops ;;
    require (truthy userId) (fail 400 "userId is required") ;;;
    require (strict_eq_str userId authenticatedUserId)
      (fail 403 "Forbidden: User ID mismatch") ;;;
    perform sv
      (CreateOrUpdateUserSettings userId walletAddress preferences
         emailNotifications)
      oops ;;;
    ret (ok 200)).

Definition userSettings_PATCH (sv : Services) (req : Request)
    : Response * list Effect :=
  userSettings_POST sv req.

(** *** Admin coin routes *)

(** The fallback of [decodeToken] and [verifyAdminToken]: the payload of a
    three-part token, read without checking the signature. *)
Definition rawPayload (sv : Services) (token : string) : option value :=
  match split "." token with
  | [_; part; _] => decodePayload sv part
  | _ => None
  end.

(** [payload.user_id || payload.sub || payload.uid]; a TypeError on a
    [null] payload. *)
Definition payloadUid (payload : value) : option value :=
  match get payload "user_id", get payload "sub", get payload "uid" with
  | Some a, Some b, Some c => Some (or_else (or_else a b) c)
  | _, _, _ => None
  end.

Definition rawUid (sv : Services) (token : string) : option value :=
  match rawPayload sv token with
  | None => None
  | Some payload =>
      match payloadUid payload with
      | Some u => if truthy u then Some u else None
      | None => None
      end
  end.

(** [decodeToken(token)] of the adjust, stats and users routes: the [uid]
    of the decoded token, or null. *)
Definition decodeToken (sv : Services) (token : string) : option value :=
  match verifyIdToken sv token with
  | Some decoded => Some (Str (uid decoded))
  | None => rawUid sv token
  end.

(** [verifyAdminToken(authHeader)] of lib/adminAuth: [uid] and [email]. *)
Definition verifyAdminToken (sv : Services) (authHeader : string)
    : option (value * value) :=
  let token :=
    if startsWith "Bearer " authHeader then substring_from 7 authHeader
    else authHeader in
  if String.eqb token EmptyString then None
  else
    match verifyIdToken sv token with
    | Some decoded =>
        Some (Str (uid decoded),
              match email decoded with Some e => Str e | None => Undefined end)
    | None =>
        match rawPayload sv token with
        | None => None
        | Some payload =>
            match payloadUid payload with
            | None => None
            | Some u =>
                if truthy u then
                  Some (u,
                        match get_opt payload "email" with
                        | Null => Undefined
                        | e => e
                        end)
                else None
            end
        end
    end.

(** The gate shared by the adjust, stats and users routes. *)
Definition adminGate (sv : Services) (req : Request) : M (value * Admin) :=
  let oops := fail 500 "Internal server error." in
  h <- some (bearer (authorization req)) (fail 401 "Unauthorized") ;;
  decoded <- some (decodeToken sv (substring_from 7 h))
               (fail 401 "Invalid token") ;;
  perform sv (GetAdminByFirebaseUid decoded) oops ;;;
  admin <- some (adminRow sv decoded) (fail 403 "Forbidden") ;;
  ret (decoded, admin).

Definition is_gift_or_deduct (action : value) : bool :=
  strict_eq_str action "gift" || strict_eq_str action "deduct".

(** [typeof amount !== 'number' || amount <= 0]. *)
Definition bad_amount (amount : value) : bool :=
  match amount with
  | Num n => num_le0 n
  | _ => true
  end.

(** [POST /api/admin/coins/adjust], from the validation of the
    destructured body on. *)
Definition adjust_checked (sv : Services) (who : value * Admin)
    (targetUserId action amount note : value) : M Response :=
  let oops := fail 500 "Internal server error." in
  require (truthy targetUserId && includes ["gift"; "deduct"; "reset"] action)
    (fail 400 "Missing or invalid fields: targetUserId, action") ;;;
  require (negb (is_gift_or_deduct action && bad_amount amount))
    (fail 400 "amount must be a positive number for gift/deduct") ;;;
  perform sv (SelectUser targetUserId) oops ;;;
  row <- some (userRow sv targetUserId)
           (fail 404 "User not found or has no firebase_uid") ;;
  fuid <- some (nonempty (firebase_uid row))
            (fail 404 "User not found or has no firebase_uid") ;;
  perform sv
    (AdjustTestnetCoins
       (mkAdjust (fst who) (admin_email (snd who)) targetUserId fuid
          (wallet_address row) action
          (if strict_eq_str action "reset" then Num (Fin 0) else amount)
          note))
    oops ;;;
  ret (ok 200).

(** [POST /api/admin/coins/adjust]. *)
Definition adjust_POST (sv : Services) (req : Request)
    : Response * list Effect :=
  let oops := fail 500 "Internal server error." in
  respond (
    who <- adminGate sv req ;;
    b <- some (body req) oops ;;
    targetUserId <- field b "targetUserId" oops ;;
    action <- field b "action" oops ;;
    amount <- field b "amount" oops ;;
    note <- field b "note" oops ;;
    adjust_checked sv who targetUserId action amount note).

(** [GET /api/admin/coins/adjust?userId=]: [parseInt] of the parameter
    must be a non-zero number; the parameter is handed on as sent. *)
Definition adjust_GET (sv : Services) (parseIntOk : string -> bool)
    (req : Request) : Response * list Effect :=
  respond (
    who <- adminGate sv req ;;
    userId <- some
        (match param "userId" (query req) with
         | Some s => if parseIntOk s then Some s else None
         | None => None
         end)
        (fail 400 "Missing userId") ;;
    perform sv (GetUserCoinLogs userId) (fail 500 "Internal server error.") ;;;
    ret (ok 200)).

(** [GET /api/admin/coins/stats]. *)
Definition stats_GET (sv : Services) (req : Request)
    : Response * list Effect :=
  respond (
    who <- adminGate sv req ;;
    perform sv GetCoinSupplyStats (fail 500 "Internal server error.") ;;;
    ret (ok 200)).

(** [GET /api/admin/coins/users]; the paging parameters are handed on as
    sent. *)
Definition users_GET (sv : Services) (req : Request)
    : Response * list Effect :=
  respond (
    who <- adminGate sv req ;;
    perform sv
      (GetCoinUsersList (param "page" (query req)) (param "limit" (query req))
         (param "search" (query req)) (param "hasSwapped" (query req)))
      (fail 500 "Internal server error.") ;;;
    ret (ok 200)).

(** [!amount || amount <= 0 || !Number.isFinite(amount)]. *)
Definition bad_gift (n : number) : bool :=
  negb (truthy (Num n)) || num_le0 n
  || match n with Fin _ => false | _ => true end.

(** [POST /api/admin/coins/gift-all]: [req.json()] failing gives [{}]. *)
Definition giftAll_POST (sv : Services) (req : Request)
    : Response * list Effect :=
  let oops := fail 500 "Internal server error" in
  respond (
    admin <- some
        (verifyAdminToken sv
           (match authorization req with Some h => h | None => EmptyString end))
        (fail 401 "Unauthorized") ;;
    let b := match body req with Some v => v | None => Obj [] end in
    rawAmount <- field b "amount" oops ;;
    note <- field b "note" oops ;;
    let amount := toNumber sv rawAmount in
    require (negb (bad_gift amount)) (fail 400 "Invalid amount") ;;;
    perform sv
      (GiftAllUsers (fst admin)
         (match snd admin with Undefined | Null => Str "unknown" | e => e end)
         amount note)
      oops ;;;
    ret (ok 200)).

(** The user-scoped routes. *)
Inductive UserRoute : Type :=
| SwapHistoryGet
| ChatHistoryGet
| ChatHistoryPost
| ChatHistoryDelete
| UserSettingsGet
| UserSettingsPost.

Definition handle (route : UserRoute) (sv : Services) (req : Request)
    : Response * list Effect :=
  match route with
  | SwapHistoryGet => swapHistory_GET sv req
  | ChatHistoryGet => chatHistory_GET sv req
  | ChatHistoryPost => chatHistory_POST sv req
  | ChatHistoryDelete => chatHistory_DELETE sv req
  | UserSettingsGet => userSettings_GET sv req
  | UserSettingsPost => userSettings_POST sv req
  end.

(** The [userId] a request supplies to a route: the query parameter, or the
    field of the JSON body. *)
Definition suppliedUserId (route : UserRoute) (req : Request) : value :=
  match route with
  | ChatHistoryPost | UserSettingsPost =>
      match body req with
      | Some b => get_opt b "userId"
      | None => Undefined
      end
  | _ =>
      match param "userId" (query req) with
      | Some s => Str s
      | None => Undefined
      end
  end.

(** The admin coin routes behind [adminGate]. *)
Inductive AdminRoute : Type :=
| AdjustPost
| AdjustGet
| StatsGet
| UsersGet.

Definition handleAdmin (route : AdminRoute) (parseIntOk : string -> bool)
    (sv : Services) (req : Request) : Response * list Effect :=
  match route with
  | AdjustPost => adjust_POST sv req
  | AdjustGet => adjust_GET sv parseIntOk req
  | StatsGet => stats_GET sv req
  | UsersGet => users_GET sv req
  end.

(** The answer of the checks a route makes between authentication and the
    ownership check, when one of them rejects a request that supplies a
    [userId]. *)
Definition earlier_rejection (route : UserRoute) (sv : Services)
    (req : Request) : option Z :=
  match route with
  | SwapHistoryGet | ChatHistoryGet | ChatHistoryDelete => None
  | UserSettingsGet | UserSettingsPost =>
      if databaseUrl sv then None else Some 500
  | ChatHistoryPost =>
      match body req with
      | Some b =>
          if truthy (get_opt b "role") && truthy (get_opt b "content")
          then None else Some 400
      | None => Some 500
      end
  end.

(** The user a call into the data layer of the user-scoped routes reads or
    writes for. *)
Definition effect_user (e : Effect) : option value :=
  match e with
  | GetSwapHistory u _ => Some (Str u)
  | GetChatHistory u _ _ => Some (Str u)
  | AddChatMessage u _ _ _ _ _ => Some u
  | ClearChatHistory u _ => Some (Str u)
  | GetUserSettings u => Some (Str u)
  | CreateOrUpdateUserSettings u _ _ _ => Some u
  | _ => None
  end.

(** *** Scenario: Alice's token, Bob's user id *)

Definition alice_services : Services :=
  mkServices
    (fun t => if String.eqb t "tokA" then Some (mkDecoded "alice" None) else None)
    (fun _ => None) (fun _ => NaN) (fun _ => true) (fun _ => None)
    (fun _ => None) true (fun _ => true).

Definition post_as_bob : Request :=
  mkRequest (Some "Bearer tokA") [] (Some (Obj [("userId", Str "bob")])).

Definition get_as_bob : Request :=
  mkRequest (Some "Bearer tokA") [("userId", "bob")] None.

(** *** Scenario: Alice asks for her own history; a gift to all users *)

Definition get_as_alice : Request :=
  mkRequest (Some "Bearer tokA") [("userId", "alice")] None.

Definition gift_services : Services :=
  mkServices
    (fun t =>
       if String.eqb t "tokAdmin" then Some (mkDecoded "admin1" None) else None)
    (fun _ => None)
    (fun v => match v with Num n => n | _ => NaN end)
    (fun _ => true) (fun _ => None) (fun _ => None) true (fun _ => true).

Definition gift_request : Request :=
  mkRequest (Some "tokAdmin") [] (Some (Obj [("amount", Num (Fin 100))])).

Definition alice_message : value :=
  Obj [("userId", Str "alice"); ("role", Str "user"); ("content", Str "hi")].

Definition post_as_alice : Request :=
  mkRequest (Some "Bearer tokA") [] (Some alice_message).

(** *** Scenario: an unsigned token naming an admin *)

Definition admin1 : Admin := mkAdmin "Root" "root@example.org" "super_admin".

(** The identity provider rejects every token; the payload part
    [eyJ1aWQiOiJhZG1pbjEifQ] is the base64url text of the JSON object with
    the one member [uid] set to [admin1]. *)
Definition forgery_services : Services :=
  mkServices
    (fun _ => None)
    (fun part =>
       if String.eqb part "eyJ1aWQiOiJhZG1pbjEifQ"
       then Some (Obj [("uid", Str "admin1")]) else None)
    (fun _ => NaN) (fun _ => true)
    (fun u => if strict_eq_str u "admin1" then Some admin1 else None)
    (fun _ => Some (mkUserRow (Some "uid-7") None)) true (fun _ => true).

Definition forged_token : string :=
  "eyJhbGciOiJub25lIn0.eyJ1aWQiOiJhZG1pbjEifQ.x".

Definition forged_request : Request :=
  mkRequest (Some (String.append "Bearer " forged_token)) [] None.

(** *** Scenario: an unsigned token naming a uid the admin table does
    not know, sent to the gift-all route *)

(** The identity provider rejects every token and no uid has an admin row;
    the payload part [eyJ1aWQiOiJtYWxsb3J5In0] is the base64url text of the
    JSON object with the one member [uid] set to [mallory]. *)
Definition outsider_services : Services :=
  mkServices
    (fun _ => None)
    (fun part =>
       if String.eqb part "eyJ1aWQiOiJtYWxsb3J5In0"
       then Some (Obj [("uid", Str "mallory")]) else None)
    (fun v => match v with Num n => n | _ => NaN end)
    (fun _ => true) (fun _ => None) (fun _ => None) true (fun _ => true).

Definition outsider_token : string :=
  "eyJhbGciOiJub25lIn0.eyJ1aWQiOiJtYWxsb3J5In0.x".

Definition outsider_gift : Request :=
  mkRequest (Some (String.append "Bearer " outsider_token)) []
    (Some (Obj [("amount", Num (Fin (inject_Z 1000000)))])).

(** *** Scenario: an admin resets a balance *)

Definition admin_services : Services :=
  mkServices
    (fun t =>
       if String.eqb t "tokAdmin" then Some (mkDecoded "admin1" None) else None)
    (fun _ => None) (fun _ => NaN) (fun _ => true)
    (fun u => if strict_eq_str u "admin1" then Some admin1 else None)
    (fun _ => Some (mkUserRow (Some "uid-7") None)) true (fun _ => true).

Definition adjust_request (action amount : value) : Request :=
  mkRequest (Some "Bearer tokAdmin") []
    (Some (Obj [("targetUserId", Num (Fin 7)); ("action", action);
                ("amount", amount)])).

End Api.

(* ------------------------------------------------------------------ *)
(** ** Yield pools (bot/src/services/yield-client.ts) *)

Module Yield.

Import JS.

(** A pool as the yields API lists it; [apy] and [tvlUsd] are finite
    numbers, taken as exact rationals. *)
Record YieldPool : Type := mkPool {
  chain : string;
  project : string;
  symbol : string;
  apy : Q;
  tvlUsd : Q;
  poolId : option string
}.

Record MigrationSuggestion : Type := mkSuggestion {
  fromPool : YieldPool;
  toPool : YieldPool;
  apyDifference : Q;
  annualExtraYield : Q;
  isCrossChain : bool
}.

(** [a > b] on numbers. *)
Definition gt (a b : Q) : bool := negb (Qle_bool a b).

(** [xs.includes(s)] on string literals. *)
Definition includes_str (xs : list string) (s : string) : bool :=
  existsb (String.eqb s) xs.

(** The filter of [getTopYieldPools]: a stablecoin, more than a million
    dollars locked, on a major chain. *)
Definition eligible (p : YieldPool) : bool :=
  includes_str ["USDC"; "USDT"; "DAI"] (symbol p)
  && gt (tvlUsd p) (inject_Z 1000000)
  && includes_str
       ["Ethereum"; "Polygon"; "Arbitrum"; "Optimism"; "Base"; "Avalanche"]
       (chain p).

(** [xs.sort((a, b) => b.apy - a.apy)]: the stable sort, highest APY
    first.  A pool goes behind the pools with a higher APY and in front of
    the later pools with the same or a lower one. *)
Fixpoint insert (x : YieldPool) (l : list YieldPool) : list YieldPool :=
  match l with
  | [] => [x]
  | y :: rest => if gt (apy y) (apy x) then y :: insert x rest else x :: l
  end.

Fixpoint sort_by_apy (l : list YieldPool) : list YieldPool :=
  match l with
  | [] => []
  | x :: rest => insert x (sort_by_apy rest)
  end.

(** [getTopYieldPools()]: [fetched] is [response.data.data], [Rejected]
    when the request fails or the body has no list; the [catch] returns the
    empty list. *)
Definition getTopYieldPools (fetched : outcome (list YieldPool))
    : list YieldPool :=
  match fetched with
  | Resolved data => firstn 5 (sort_by_apy (filter eligible data))
  | Rejected => []
  end.

(** [!chain || ...]: an absent or empty chain matches every pool. *)
Definition chain_matches (toLowerCase : string -> string)
    (chain' : option string) (p : YieldPool) : bool :=
  match chain' with
  | Some c =>
      if String.eqb c EmptyString then true
      else String.eqb (toLowerCase (chain p)) (toLowerCase c)
  | None => true
  end.

(** The filter of [findHigherYieldPools]. *)
Definition higher_yield (toUpperCase toLowerCase : string -> string)
    (asset : string) (chain' : option string) (minApy : Q) (p : YieldPool)
    : bool :=
  String.eqb (toUpperCase (symbol p)) (toUpperCase asset)
  && gt (apy p) minApy
  && chain_matches toLowerCase chain' p.

(** [findHigherYieldPools(asset, chain, minApy)]; the case conversions of
    the built-in strings are parameters. *)
Definition findHigherYieldPools (toUpperCase toLowerCase : string -> string)
    (fetched : outcome (list YieldPool)) (asset : string)
    (chain' : option string) (minApy : Q) : list YieldPool :=
  sort_by_apy
    (filter (higher_yield toUpperCase toLowerCase asset chain' minApy)
       (getTopYieldPools fetched)).

(** [relevantPools.reduce((highest, p) => p.apy > highest.apy ? p : highest,
    relevantPools[0])]: undefined on the empty list. *)
Definition highest (relevantPools : list YieldPool) : option YieldPool :=
  match relevantPools with
  | [] => None
  | first :: _ =>
      Some (fold_left (fun highest p => if gt (apy p) (apy highest) then p
                                        else highest)
              relevantPools first)
  end.

(** [a !== b] on optional pool ids. *)
Definition poolId_differs (a b : option string) : bool :=
  match a, b with
  | Some x, Some y => negb (String.eqb x y)
  | None, None => false
  | _, _ => true
  end.

(** The pool the user is taken to be in: by symbol, else by chain, else
    the first pool below the best one. *)
Definition source_pool (toLowerCase : string -> string)
    (relevantPools : list YieldPool) (chain' sourceAsset : option string)
    (best : YieldPool) : option YieldPool :=
  let bySymbol :=
    match sourceAsset with
    | Some a => find (fun p => String.eqb (symbol p) a) relevantPools
    | None => None
    end in
  let byChain :=
    match bySymbol with
    | Some p => Some p
    | None =>
        match chain' with
        | Some c =>
            if String.eqb c EmptyString then None
            else find (fun p => String.eqb (toLowerCase (chain p))
                                  (toLowerCase c))
                   relevantPools
        | None => None
        end
    end in
  match byChain with
  | Some p => Some p
  | None =>
      find (fun p => gt (apy best) (apy p)
                     && poolId_differs (poolId p) (poolId best))
        relevantPools
  end.

(** [calculateYieldMigration(relevantPools, amount, chain, sourceAsset)];
    [None] is [null].  On the empty list every [find] and the [reduce] give
    undefined. *)
Definition calculateYieldMigration (toLowerCase : string -> string)
    (relevantPools : list YieldPool) (amount : Q)
    (chain' sourceAsset : option string) : option MigrationSuggestion :=
  match highest relevantPools with
  | None => None
  | Some best =>
      match source_pool toLowerCase relevantPools chain' sourceAsset best with
      | None => None
      | Some from =>
          Some (mkSuggestion from best (apy best - apy from)
                  (amount * (apy best - apy from) / inject_Z 100)
                  (negb (String.eqb (toLowerCase (chain from))
                           (toLowerCase (chain best)))))
      end
  end.

(** Highest APY first. *)
Fixpoint descending (l : list YieldPool) : Prop :=
  match l with
  | [] => True
  | x :: rest => (forall y, In y rest -> (apy y <= apy x)%Q) /\ descending rest
  end.

(** *** Scenario: three pools *)

Definition aave_usdc : YieldPool :=
  mkPool "Ethereum" "aave-v3" "USDC" (inject_Z 4) (inject_Z 5000000)
    (Some "p1").

Definition curve_dai : YieldPool :=
  mkPool "Polygon" "curve" "DAI" (inject_Z 7) (inject_Z 2000000) (Some "p2").

Definition tiny_usdt : YieldPool :=
  mkPool "Base" "newfarm" "USDT" (inject_Z 90) (inject_Z 1000) (Some "p3").

Definition three_pools : list YieldPool := [aave_usdc; curve_dai; tiny_usdt].

End Yield.

(* ------------------------------------------------------------------ *)
(** ** Command parsing (frontend/utils/groq-client.ts) *)

Module Groq.

Import JS.

(** The command returned to the caller; fields the object literal leaves
    out are [Undefined]. *)
Record ParsedCommand : Type := mkParsed {
  success : bool;
  intent : value;
  fromAsset : value;
  fromChain : value;
  toAsset : value;
  toChain : value;
  amount : value;
  amountType : value;
  portfolio : value;
  frequency : value;
  dayOfWeek : value;
  dayOfMonth : value;
  conditionOperator : value;
  conditionValue : value;
  conditionAsset : value;
  settleAsset : value;
  settleNetwork : value;
  settleAmount : value;
  settleAddress : value;
  confidence : number;
  validationErrors : list value;
  parsedMessage : value;
  requiresConfirmation : value;
  originalInput : option string
}.

(** [v <= 0]: a number is compared as it is, any other value through
    [toNumber], the built-in [Number(v)]. *)
Definition le0 (toNumber : value -> number) (v : value) : bool :=
  match v with
  | Num n => num_le0 n
  | _ => num_le0 (toNumber v)
  end.

(** [!v || v <= 0]. *)
Definition invalid_amount (toNumber : value -> number) (v : value) : bool :=
  negb (truthy v) || le0 toNumber v.

(** [v.length === 0] for a truthy [v]. *)
Definition length_is_0 (v : value) : bool :=
  match v with
  | Arr [] => true
  | Obj fields =>
      match lookup "length" fields with
      | Num (Fin q) => Qeq_bool q 0
      | _ => false
      end
  | _ => false
  end.

(** [if (b) errors.push(msg)]. *)
Definition push (b : bool) (msg : string) : list string :=
  if b then [msg] else [].

(** [!a && b ? b : a]: the remapping of a swap field onto a checkout
    field. *)
Definition remap (a b : value) : value :=
  if negb (truthy a) && truthy b then b else a.

(** The three settle fields after the checkout branch has remapped them;
    the other branches leave them as parsed. *)
Definition settled (parsed : value) (k fallback : string) : value :=
  if strict_eq_str (get_opt parsed "intent") "checkout"
  then remap (get_opt parsed k) (get_opt parsed fallback)
  else get_opt parsed k.

(** The errors the validation itself finds, in the order pushed. *)
Definition errors_found (toNumber : value -> number) (parsed : value)
    : list string :=
  let f := get_opt parsed in
  let i := f "intent" in
  if strict_eq_str i "swap" then
    push (negb (truthy (f "fromAsset"))) "Source asset not specified"
    ++ push (negb (truthy (f "toAsset"))) "Destination asset not specified"
    ++ push (invalid_amount toNumber (f "amount")) "Invalid amount specified"
  else if strict_eq_str i "dca" then
    push (negb (truthy (f "fromAsset"))) "Source asset not specified"
    ++ push (negb (truthy (f "toAsset"))) "Destination asset not specified"
    ++ push (invalid_amount toNumber (f "amount")) "Invalid amount specified"
    ++ push (negb (truthy (f "frequency")))
         "Frequency (daily/weekly/monthly) not specified"
  else if strict_eq_str i "portfolio" then
    push (negb (truthy (f "fromAsset"))) "Source asset not specified"
    ++ push (invalid_amount toNumber (f "amount")) "Invalid amount specified"
    ++ push (negb (truthy (f "portfolio")) || length_is_0 (f "portfolio"))
         "No portfolio allocation specified"
  else if strict_eq_str i "checkout" then
    push (negb (truthy (settled parsed "settleAsset" "fromAsset")))
      "Asset to receive/send not specified"
    ++ push (invalid_amount toNumber (settled parsed "settleAmount" "amount"))
         "Invalid amount specified"
  else [].

(** [[...v]]: the items of an array, the characters of a string (of an
    ASCII string here), a TypeError ([None]) on anything else. *)
Definition spread (v : value) : option (list value) :=
  match v with
  | Arr items => Some items
  | Str s =>
      Some (map (fun c => Str (String c EmptyString)) (list_ascii_of_string s))
  | _ => None
  end.

(** [Math.max(0, raw - 30)], on exact rationals. *)
Definition lowered (raw : number) : number :=
  match raw with
  | Fin q => if Qle_bool (q - inject_Z 30) 0 then Fin 0
             else Fin (q - inject_Z 30)
  | NegInf => Fin 0
  | PosInf => PosInf
  | NaN => NaN
  end.

(** [validateParsedCommand(parsed, userInput)]; [None] when it throws: on
    a [parsed] that is null or undefined, and on [validationErrors] that
    cannot be spread. *)
Definition validateParsedCommand (toNumber : value -> number) (parsed : value)
    (userInput : string) : option ParsedCommand :=
  match get parsed "intent" with
  | None => None
  | Some i =>
      let f := get_opt parsed in
      match spread (or_else (f "validationErrors") (Arr [])) with
      | None => None
      | Some reported =>
          let allErrors :=
            reported ++ map Str (errors_found toNumber parsed) in
          let rawConfidence :=
            match f "confidence" with
            | Num n => n
            | _ => Fin 0
            end in
          Some (mkParsed
                  (match f "success" with Bool false => false | _ => true end
                   && (List.length allErrors =? 0)%nat)
                  (or_else i (Str "unknown"))
                  (or_else (f "fromAsset") Null)
                  (or_else (f "fromChain") Null)
                  (or_else (f "toAsset") Null)
                  (or_else (f "toChain") Null)
                  (or_else (f "amount") Null)
                  (or_else (f "amountType") Null)
                  (f "portfolio")
                  (f "frequency")
                  (f "dayOfWeek")
                  (f "dayOfMonth")
                  (f "conditionOperator")
                  (f "conditionValue")
                  (f "conditionAsset")
                  (or_else (settled parsed "settleAsset" "fromAsset") Null)
                  (or_else (settled parsed "settleNetwork" "fromChain") Null)
                  (or_else (settled parsed "settleAmount" "amount") Null)
                  (or_else (f "settleAddress") Null)
                  (match allErrors with
                   | [] => rawConfidence
                   | _ => lowered rawConfidence
                   end)
                  allErrors
                  (or_else (f "parsedMessage") (Str EmptyString))
                  (or_else (f "requiresConfirmation") (Bool false))
                  (Some userInput))
      end
  end.

(** The object the [catch] of [parseUserCommand] returns. *)
Definition parsing_failed : ParsedCommand :=
  mkParsed false (Str "unknown") Null Null Null Null Null Undefined Undefined
    Undefined Undefined Undefined Undefined Undefined Undefined Null Null Null
    Null (Fin 0) [Str "AI parsing failed"] (Str EmptyString) Undefined None.

(** [parseUserCommand(userInput)]: [completion] is what
    [safeParseJSON(completion.choices[0].message.content)] gives, [Rejected]
    when the request or the reading of its result throws. *)
Definition parseUserCommand (toNumber : value -> number)
    (completion : outcome value) (userInput : string) : ParsedCommand :=
  match completion with
  | Rejected => parsing_failed
  | Resolved content =>
      match validateParsedCommand toNumber (or_else content (Obj [])) userInput
      with
      | Some command => command
      | None => parsing_failed
      end
  end.

(** *** Scenario: a swap without an amount, and a swap of one ETH *)

Definition swap_without_amount : value :=
  Obj [("success", Bool true); ("intent", Str "swap");
       ("fromAsset", Str "ETH"); ("toAsset", Str "USDC");
       ("confidence", Num (Fin (inject_Z 20)))].

Definition swap_one_eth : value :=
  Obj [("success", Bool true); ("intent", Str "swap");
       ("fromAsset", Str "ETH"); ("toAsset", Str "USDC");
       ("amount", Num (Fin 1)); ("confidence", Num (Fin (inject_Z 95)))].

(** [Number(v)] on the numbers; the scenario has no other amounts. *)
Definition number_of (v : value) : number :=
  match v with
  | Num n => n
  | _ => NaN
  end.

End Groq.

(* ================================================================== *)
(** * Part II: properties *)

(* ------------------------------------------------------------------ *)
(** ** Order monitor *)

Module MonitorFacts.

Import JS.
Import SideShift.
Import Monitor.

(** C8: the polling interval by age is 15 s below 5 min, 60 s from 5 min
    to below 30 min, 5 min from 30 min to below 2 h, and 15 min from 2 h
    on. *)
Theorem getBackoffInterval_by_age (age : Z) :
  (age < minutes 5 -> getBackoffInterval age = seconds 15) /\
  (minutes 5 <= age < minutes 30 -> getBackoffInterval age = seconds 60) /\
  (minutes 30 <= age < hours 2 -> getBackoffInterval age = minutes 5) /\
  (hours 2 <= age -> getBackoffInterval age = minutes 15).
Proof.
  unfold getBackoffInterval, minutes, hours, seconds.
  repeat split; intros H;
    repeat match goal with
           | |- context [?a <? ?b] => destruct (Z.ltb_spec a b); try lia
           end; reflexivity.
Qed.

Lemma getBackoffInterval_by_age_witness :
  getBackoffInterval 299999 = seconds 15 /\
  getBackoffInterval 300000 = seconds 60 /\
  getBackoffInterval 1800000 = minutes 5 /\
  getBackoffInterval 7200000 = minutes 15.
Proof.
  split; [|split; [|split]].
  - apply (proj1 (getBackoffInterval_by_age 299999)).
    unfold minutes; lia.
  - apply (proj1 (proj2 (getBackoffInterval_by_age 300000))).
    unfold minutes; lia.
  - apply (proj1 (proj2 (proj2 (getBackoffInterval_by_age 1800000)))).
    unfold minutes, hours; lia.
  - apply (proj2 (proj2 (proj2 (getBackoffInterval_by_age 7200000)))).
    unfold hours; lia.
Defined.

(** *** The tracked map *)

Lemma map_has_absent_count (k : string) (m : list (string * TrackedOrder)) :
  map_has k m = false -> count_key k m = 0%nat.
Proof.
  unfold count_key.
  induction m as [|[k' v'] rest IH]; simpl; intros H; [reflexivity|].
  apply orb_false_iff in H as [Hk Hrest].
  rewrite Hk. now apply IH.
Qed.

Lemma map_has_set (k : string) (v : TrackedOrder)
    (m : list (string * TrackedOrder)) :
  map_has k (map_set k v m) = true.
Proof.
  induction m as [|[k' v'] rest IH]; simpl.
  - now rewrite String.eqb_refl.
  - destruct (String.eqb k k') eqn:E; simpl.
    + now rewrite String.eqb_refl.
    + now rewrite E, IH.
Qed.

Lemma count_key_set_absent (k : string) (v : TrackedOrder)
    (m : list (string * TrackedOrder)) :
  map_has k m = false -> count_key k (map_set k v m) = 1%nat.
Proof.
  unfold count_key.
  induction m as [|[k' v'] rest IH]; simpl; intros H.
  - now rewrite String.eqb_refl.
  - apply orb_false_iff in H as [Hk Hrest].
    rewrite Hk. simpl. rewrite Hk. now apply IH.
Qed.

Lemma map_has_delete (k : string) (m : list (string * TrackedOrder)) :
  map_has k (map_delete k m) = false.
Proof.
  induction m as [|[k' v'] rest IH]; simpl; [reflexivity|].
  destruct (String.eqb k k') eqn:E; simpl; [assumption|].
  now rewrite E, IH.
Qed.

Lemma map_has_in (k : string) (m : list (string * TrackedOrder)) :
  map_has k m = false -> forall v, ~ In (k, v) m.
Proof.
  induction m as [|[k' v'] rest IH]; simpl; intros H v; [tauto|].
  apply orb_false_iff in H as [Hk Hrest].
  intros [E|E].
  - inversion E; subst. now rewrite String.eqb_refl in Hk.
  - now apply (IH Hrest v).
Qed.

Lemma in_map_delete (k k' : string) (v : TrackedOrder)
    (m : list (string * TrackedOrder)) :
  In (k', v) (map_delete k m) -> In (k', v) m.
Proof.
  induction m as [|[k0 v0] rest IH]; simpl; [tauto|].
  destruct (String.eqb k k0); simpl; intuition.
Qed.

(** *** The watched-orders table *)

Lemma has_row_count (oid : string) (rows : list WatchedOrderRow) :
  existsb (fun r => String.eqb oid (w_sideshiftOrderId r)) rows = false ->
  count_rows oid rows = 0%nat.
Proof.
  unfold count_rows.
  induction rows as [|r rest IH]; simpl; intros H; [reflexivity|].
  apply orb_false_iff in H as [Hr Hrest].
  rewrite Hr. now apply IH.
Qed.

Lemma count_rows_app (oid : string) (xs ys : list WatchedOrderRow) :
  count_rows oid (xs ++ ys) = (count_rows oid xs + count_rows oid ys)%nat.
Proof.
  unfold count_rows. now rewrite filter_app, length_app.
Qed.

Lemma count_rows_positive (oid : string) (rows : list WatchedOrderRow) :
  existsb (fun r => String.eqb oid (w_sideshiftOrderId r)) rows = true ->
  (0 < count_rows oid rows)%nat.
Proof.
  unfold count_rows.
  induction rows as [|r rest IH]; simpl; intros H; [discriminate|].
  destruct (String.eqb oid (w_sideshiftOrderId r)); simpl in *; [lia|].
  now apply IH.
Qed.

(** One insert leaves a table with at most one row for the id with exactly
    one. *)
Lemma persist_add_once (tg : Z) (oid st : string)
    (rows : list WatchedOrderRow) :
  (count_rows oid rows <= 1)%nat ->
  count_rows oid (persist rows (AddWatchedOrder tg oid st)) = 1%nat.
Proof.
  intros H. simpl.
  destruct (existsb _ rows) eqn:E.
  - apply count_rows_positive in E. lia.
  - rewrite count_rows_app, (has_row_count _ _ E).
    unfold count_rows; simpl. now rewrite String.eqb_refl.
Qed.

(** C7: from a monitor that does not track [o] and a table with no row
    for [o] (or one left by an earlier run), track; track; untrack; track
    leaves exactly one in-memory entry and exactly one watched-order row
    for [o]. *)
Theorem track_track_untrack_track_once (t1 t2 t3 : Z) (m : OrderMonitor)
    (o : string) (u : Z) (created : option Z) (rows : list WatchedOrderRow) :
  map_has o (tracked m) = false ->
  (count_rows o rows <= 1)%nat ->
  count_key o (tracked (fst (track_track_untrack_track t1 t2 t3 m o u created)))
    = 1%nat /\
  count_rows o
    (persist_all rows (snd (track_track_untrack_track t1 t2 t3 m o u created)))
    = 1%nat.
Proof.
  intros Hm Hrows.
  unfold track_track_untrack_track, trackOrder.
  rewrite Hm. cbn [tracked activePollCount].
  rewrite map_has_set.
  unfold untrackOrder. cbn [tracked activePollCount].
  rewrite map_has_delete. cbn [fst snd tracked app].
  split.
  - apply count_key_set_absent, map_has_delete.
  - unfold persist_all. cbn [fold_left].
    apply persist_add_once.
    rewrite persist_add_once by assumption. lia.
Qed.

Lemma track_track_untrack_track_once_witness :
  count_key "X1"
    (tracked (fst (track_track_untrack_track 10 20 30 empty "X1" 7 (Some 5))))
    = 1%nat /\
  count_rows "X1"
    (persist_all []
       (snd (track_track_untrack_track 10 20 30 empty "X1" 7 (Some 5))))
    = 1%nat.
Proof.
  apply (track_track_untrack_track_once 10 20 30 empty "X1" 7 (Some 5) []).
  - reflexivity.
  - unfold count_rows; simpl; lia.
Defined.

(** *** Polling *)

Lemma pollOrder_try_polls (d : Deps) (m : OrderMonitor) (o : TrackedOrder) :
  polls (snd (pollOrder_try d m o)) = [orderId o].
Proof.
  unfold pollOrder_try.
  destruct (getOrderStatus d (orderId o)) as [status|]; [|reflexivity].
  destruct (String.eqb _ _); [reflexivity|].
  destruct (onStatusChange d _ _ _ _ _); [|reflexivity].
  destruct (is_terminal _); reflexivity.
Qed.

Lemma pollOrder_polls (d : Deps) (m : OrderMonitor) (o : TrackedOrder) :
  polls (snd (pollOrder d m o)) = [orderId o].
Proof.
  unfold pollOrder.
  pose proof (pollOrder_try_polls d
                (mkMonitor (tracked m) (activePollCount m + 1)) o) as H.
  destruct (pollOrder_try d _ o) as [m1 evs]. exact H.
Qed.

Lemma polls_app (xs ys : list Event) : polls (xs ++ ys) = polls xs ++ polls ys.
Proof. unfold polls. apply flat_map_app. Qed.

Lemma pollAll_polls (d : Deps) (batch : list TrackedOrder) :
  forall m, polls (snd (pollAll d m batch)) = map orderId batch.
Proof.
  induction batch as [|o rest IH]; intros m; simpl; [reflexivity|].
  pose proof (pollOrder_polls d m o) as Ho.
  destruct (pollOrder d m o) as [m1 e1].
  specialize (IH m1).
  destruct (pollAll d m1 rest) as [m2 e2].
  simpl in *. now rewrite polls_app, Ho, IH.
Qed.

Lemma firstn_subset {X : Type} (n : nat) (xs : list X) (x : X) :
  In x (firstn n xs) -> In x xs.
Proof.
  intros H. rewrite <- (firstn_skipn n xs). apply in_or_app. now left.
Qed.

Lemma slice0_subset {X : Type} (n : Z) (xs : list X) (x : X) :
  In x (slice0 n xs) -> In x xs.
Proof.
  unfold slice0. destruct (n <? 0); apply firstn_subset.
Qed.

Lemma in_map_has (k : string) (v : TrackedOrder)
    (m : list (string * TrackedOrder)) :
  In (k, v) m -> map_has k m = true.
Proof.
  induction m as [|[k' v'] rest IH]; simpl; [tauto|].
  intros [E|E].
  - inversion E; subst. now rewrite String.eqb_refl.
  - rewrite (IH E). apply orb_true_r.
Qed.

(** A tick sends requests only for orders in the tracked map. *)
Lemma tick_polls_tracked (d : Deps) (now : Z) (m : OrderMonitor) (o : string) :
  keyed m -> In o (polls (snd (tick d now m))) ->
  map_has o (tracked m) = true.
Proof.
  intros Hk Hin.
  assert (Hb : exists order,
             In order (map snd (tracked m)) /\ orderId order = o).
  { unfold tick in Hin.
    destruct (filter (due now) (map snd (tracked m))) as [|x xs] eqn:Ef;
      [contradiction|].
    destruct (slice0 _ (x :: xs)) as [|y ys] eqn:Es; [contradiction|].
    rewrite pollAll_polls in Hin.
    apply in_map_iff in Hin as [order [Ho Hin]].
    exists order. split; [|exact Ho].
    rewrite <- Es in Hin. apply slice0_subset in Hin.
    rewrite <- Ef in Hin. now apply filter_In in Hin. }
  destruct Hb as [order [Hin' Ho]].
  apply in_map_iff in Hin' as [[k v] [Hv Hkv]]. simpl in Hv. subst v.
  pose proof (Hk _ _ Hkv) as E. subst o. rewrite E.
  now apply in_map_has with order.
Qed.

Lemma in_map_set (k k' : string) (v v' : TrackedOrder)
    (m : list (string * TrackedOrder)) :
  In (k', v') (map_set k v m) -> (k', v') = (k, v) \/ In (k', v') m.
Proof.
  induction m as [|[k0 v0] rest IH]; simpl.
  - intuition.
  - destruct (String.eqb k k0); simpl; intuition.
Qed.

Lemma keyed_mutate (k : string) (v : TrackedOrder) (m : OrderMonitor) (n : Z) :
  keyed m -> orderId v = k ->
  keyed (mkMonitor (map_mutate k v (tracked m)) n).
Proof.
  intros Hk Hv k' v' Hin. simpl in Hin. unfold map_mutate in Hin.
  destruct (map_has k (tracked m)); [|now apply Hk].
  apply in_map_set in Hin as [E|E]; [|now apply Hk].
  inversion E; subst. reflexivity.
Qed.

Lemma keyed_untrack (m : OrderMonitor) (k : string) :
  keyed m -> keyed (untrackOrder m k).
Proof.
  intros Hk k' v' Hin. simpl in Hin.
  apply in_map_delete in Hin. now apply Hk.
Qed.

(** A rejected status request leaves the monitor as it was: nothing is
    remembered about it. *)
Lemma pollOrder_rejected (d : Deps) (m : OrderMonitor) (o : TrackedOrder) :
  getOrderStatus d (orderId o) = Rejected ->
  pollOrder d m o = (m, [GetOrderStatus (orderId o)]).
Proof.
  intros H. unfold pollOrder, pollOrder_try. rewrite H.
  cbn [tracked activePollCount]. destruct m as [t n]; simpl.
  f_equal. f_equal. lia.
Qed.

Lemma map_has_set_present (k k' : string) (v : TrackedOrder)
    (m : list (string * TrackedOrder)) :
  map_has k' m = true -> map_has k (map_set k' v m) = map_has k m.
Proof.
  induction m as [|[k0 v0] rest IH]; simpl; [discriminate|].
  destruct (String.eqb k' k0) eqn:E; simpl.
  - apply String.eqb_eq in E. now subst.
  - intros H. now rewrite IH.
Qed.

Lemma map_has_mutate (k k' : string) (v : TrackedOrder)
    (m : list (string * TrackedOrder)) :
  map_has k (map_mutate k' v m) = map_has k m.
Proof.
  unfold map_mutate. destruct (map_has k' m) eqn:E; [|reflexivity].
  now apply map_has_set_present.
Qed.

Lemma map_has_delete_other (k k' : string) (m : list (string * TrackedOrder)) :
  map_has k m = false -> map_has k (map_delete k' m) = false.
Proof.
  induction m as [|[k0 v0] rest IH]; simpl; [reflexivity|].
  intros H. apply orb_false_iff in H as [H0 Hrest].
  destruct (String.eqb k' k0); simpl; [now apply IH|].
  now rewrite H0, IH.
Qed.

(** A poll adds no key to the tracked map and keeps every entry under its
    own id. *)
Lemma pollOrder_keeps (d : Deps) (m : OrderMonitor) (o : TrackedOrder) :
  (keyed m -> keyed (fst (pollOrder d m o))) /\
  (forall k, map_has k (tracked m) = false ->
             map_has k (tracked (fst (pollOrder d m o))) = false).
Proof.
  unfold pollOrder, pollOrder_try.
  destruct (getOrderStatus d (orderId o)) as [status|];
    [|split; [intros H k v Hin; now apply H|intros k H; exact H]].
  destruct (String.eqb (st_status status) (lastStatus o)).
  - split.
    + intros H. now apply keyed_mutate.
    + intros k H. cbn [fst tracked]. now rewrite map_has_mutate.
  - assert (Hm : forall n, keyed m ->
               keyed (mkMonitor
                        (map_mutate (orderId o)
                           (mkTracked (orderId o) (telegramId o) (createdAt o)
                              (dateNow d (orderId o)) (st_status status))
                           (tracked m)) n)).
    { intros n H. now apply keyed_mutate. }
    destruct (onStatusChange d _ _ _ _ _); [destruct (is_terminal _)|];
      cbn [fst tracked untrackOrder activePollCount]; split;
      try (intros H k v Hin; cbn [tracked] in Hin;
           try apply in_map_delete in Hin;
           now apply (Hm 0 H k v));
      intros k H; try apply map_has_delete_other; now rewrite map_has_mutate.
Qed.

Lemma pollAll_keeps (d : Deps) (batch : list TrackedOrder) :
  forall m,
    (keyed m -> keyed (fst (pollAll d m batch))) /\
    (forall k, map_has k (tracked m) = false ->
               map_has k (tracked (fst (pollAll d m batch))) = false).
Proof.
  induction batch as [|o rest IH]; intros m; simpl; [split; auto|].
  destruct (pollOrder_keeps d m o) as [Hk Hh].
  destruct (pollOrder d m o) as [m1 e1]. cbn [fst] in Hk, Hh.
  destruct (IH m1) as [Hk' Hh'].
  destruct (pollAll d m1 rest) as [m2 e2]. cbn [fst] in *.
  split; auto.
Qed.

Lemma tick_keeps (d : Deps) (now : Z) (m : OrderMonitor) :
  (keyed m -> keyed (fst (tick d now m))) /\
  (forall k, map_has k (tracked m) = false ->
             map_has k (tracked (fst (tick d now m))) = false).
Proof.
  unfold tick.
  destruct (filter (due now) (map snd (tracked m))) as [|x xs];
    [split; auto|].
  destruct (slice0 _ (x :: xs)) as [|y ys]; [split; auto|].
  apply pollAll_keeps.
Qed.

(** No run of ticks requests an order that is not tracked when it starts. *)
Lemma ticks_poll_tracked (steps : list (Deps * Z)) :
  forall m o, keyed m -> map_has o (tracked m) = false ->
              ~ In o (polls (snd (ticks steps m))).
Proof.
  induction steps as [|[d now] rest IH]; intros m o Hk Hh; simpl; [tauto|].
  pose proof (tick_polls_tracked d now m o Hk) as Hfirst.
  destruct (tick_keeps d now m) as [Hk1 Hh1].
  destruct (tick d now m) as [m1 e1]. cbn [fst snd] in *.
  specialize (IH m1 o (Hk1 Hk) (Hh1 o Hh)).
  destruct (ticks rest m1) as [m2 e2]. cbn [snd] in *.
  rewrite polls_app. intros Hin. apply in_app_or in Hin as [Hin|Hin].
  - apply Hfirst in Hin. congruence.
  - now apply IH.
Qed.

(** A poll that sees a tracked order change to a terminal status makes the
    status request, both status updates and exactly one callback call, in
    this order, and leaves the poll counter as it was, whether the callback
    returns or throws.  When the callback returns, the order is dropped from
    the tracked map, and no run of ticks from there requests it again. *)
Lemma pollOrder_terminal_transition (d : Deps) (m : OrderMonitor)
    (order : TrackedOrder) (status : SideShiftOrderStatus) :
  keyed m ->
  getOrderStatus d (orderId order) = Resolved status ->
  st_status status <> lastStatus order ->
  is_terminal (st_status status) = true ->
  snd (pollOrder d m order)
    = [GetOrderStatus (orderId order);
       UpdateOrderStatus (orderId order) (st_status status);
       UpdateWatchedOrderStatus (orderId order) (st_status status);
       OnStatusChange (telegramId order) (orderId order) (lastStatus order)
         (st_status status) status] /\
  List.length (notifications (snd (pollOrder d m order))) = 1%nat /\
  activePollCount (fst (pollOrder d m order)) = activePollCount m /\
  (onStatusChange d (telegramId order) (orderId order) (lastStatus order)
     (st_status status) status = true ->
   map_has (orderId order) (tracked (fst (pollOrder d m order))) = false /\
   forall steps,
     ~ In (orderId order)
         (polls (snd (ticks steps (fst (pollOrder d m order)))))).
Proof.
  intros Hk Hget Hneq Hterm.
  apply String.eqb_neq in Hneq.
  unfold pollOrder, pollOrder_try. rewrite Hget, Hneq.
  destruct (onStatusChange d _ _ _ _ _) eqn:Hcb.
  - rewrite Hterm. unfold untrackOrder. cbn [fst snd tracked activePollCount].
    split; [reflexivity|]. split; [reflexivity|]. split; [lia|].
    intros _. split; [apply map_has_delete|].
    intros steps. apply ticks_poll_tracked.
    + apply (keyed_untrack
               (mkMonitor
                  (map_mutate (orderId order)
                     (mkTracked (orderId order) (telegramId order)
                        (createdAt order) (dateNow d (orderId order))
                        (st_status status))
                     (tracked m))
                  (activePollCount m + 1 - 1))).
      now apply keyed_mutate.
    + apply map_has_delete.
  - cbn [fst snd tracked activePollCount].
    split; [reflexivity|]. split; [reflexivity|]. split; [lia|].
    discriminate.
Qed.

Lemma keyed_watching_x1 : keyed watching_x1.
Proof.
  intros k v [E|[]]. now inversion E.
Qed.

Lemma pollOrder_terminal_transition_witness :
  map_has "X1" (tracked (fst (pollOrder settling watching_x1 x1))) = false /\
  List.length (notifications (snd (pollOrder settling watching_x1 x1))) = 1%nat.
Proof.
  pose proof (pollOrder_terminal_transition settling watching_x1 x1 x1_settled
                keyed_watching_x1 eq_refl) as H.
  destruct H as [_ [Hn [_ Hm]]].
  - simpl. discriminate.
  - reflexivity.
  - split; [exact (proj1 (Hm eq_refl)) | exact Hn].
Defined.

(** C5: the terminal statuses are declared as those in which orders stop
    being tracked, yet when the callback throws on the transition of X1 from
    processing to settled, the poll has made both status updates and the one
    callback call and leaves X1 in the tracked map with settled as its last
    status.  The next due tick requests X1 again, sees no change and keeps
    it: the order is never removed. *)
Theorem terminal_order_stays_tracked_when_callback_throws :
  getOrderStatus throwing (orderId x1) = Resolved x1_settled /\
  lastStatus x1 <> st_status x1_settled /\
  is_terminal (st_status x1_settled) = true /\
  pollOrder throwing watching_x1 x1
  = (mkMonitor [("X1", mkTracked "X1" 42 0 300000 "settled")] 0,
     [GetOrderStatus "X1"; UpdateOrderStatus "X1" "settled";
      UpdateWatchedOrderStatus "X1" "settled";
      OnStatusChange 42 "X1" "processing" "settled" x1_settled]) /\
  tick settled_again 600000 (fst (pollOrder throwing watching_x1 x1))
  = (mkMonitor [("X1", mkTracked "X1" 42 0 600000 "settled")] 0,
     [GetOrderStatus "X1"]).
Proof.
  repeat split. simpl. discriminate.
Qed.

(** C3: ten seconds after the aggregator answered 429 with Retry-After: 30
    the next tick requests the same order again; the monitor is exactly as
    it was before the 429. *)
Theorem tick_polls_again_after_429 :
  SideShift.getOrderStatus (fun _ => None) too_many_requests
    = Throws (mkError (Str "Rate limit exceeded")) /\
  tick rate_limited 1000000 watching_x1 = (watching_x1, [GetOrderStatus "X1"]) /\
  polls
    (snd (tick rate_limited (1000000 + TICK_INTERVAL)
            (fst (tick rate_limited 1000000 watching_x1))))
  = ["X1"].
Proof. repeat split. Qed.

(** Whatever the aggregator answered, rejected requests change nothing
    the next tick could consult. *)
Lemma pollAll_rejected (d : Deps) (batch : list TrackedOrder) :
  (forall o, getOrderStatus d o = Rejected) ->
  forall m, pollAll d m batch = (m, map (fun o => GetOrderStatus (orderId o)) batch).
Proof.
  intros H. induction batch as [|o rest IH]; intros m; simpl; [reflexivity|].
  rewrite pollOrder_rejected by apply H. now rewrite IH.
Qed.

Lemma tick_rejected_leaves_monitor (d : Deps) (now : Z) (m : OrderMonitor) :
  (forall o, getOrderStatus d o = Rejected) -> fst (tick d now m) = m.
Proof.
  intros H. unfold tick.
  destruct (filter (due now) (map snd (tracked m))) as [|x xs]; [reflexivity|].
  destruct (slice0 _ (x :: xs)) as [|y ys]; [reflexivity|].
  now rewrite pollAll_rejected.
Qed.

End MonitorFacts.

(* ------------------------------------------------------------------ *)
(** ** Aggregator client *)

Module SideShiftFacts.

Import JS.
Import SideShift.

Lemma call_axios_error {X : Type} (fallback : string)
    (schema : value -> option X) (check : X -> option X)
    (response : option AxiosResponse) :
  call fallback schema check (AxiosError response)
  = Throws (mkError (error_message response fallback)).
Proof. reflexivity. Qed.

(** C6 (amended): on a 4xx or 5xx reply each call of the client throws an
    error that carries one thing, a message: the reply body's
    [error.message] when it is truthy, otherwise the fixed text of the call.
    The HTTP status and the Retry-After header do not enter it: replies
    that differ only in those throw the same error. *)
Theorem client_error_carries_message_only
    (schemaQ : value -> option SideShiftQuote)
    (schemaO : value -> option SideShiftOrder)
    (schemaS : value -> option SideShiftOrderStatus)
    (schemaC : value -> option SideShiftCheckoutResponse)
    (fromAsset toAsset checkoutUrl : string) (r : AxiosResponse) :
  (createQuote schemaQ fromAsset toAsset (AxiosError (Some r))
   = Throws (mkError (or_else (get_opt (get_opt (data r) "error") "message")
                        (Str (quote_fallback fromAsset toAsset)))) /\
   createOrder schemaO (AxiosError (Some r))
   = Throws (mkError (or_else (get_opt (get_opt (data r) "error") "message")
                        (Str "Failed to create order"))) /\
   getOrderStatus schemaS (AxiosError (Some r))
   = Throws (mkError (or_else (get_opt (get_opt (data r) "error") "message")
                        (Str "Failed to get order status"))) /\
   createCheckout checkoutUrl schemaC (AxiosError (Some r))
   = Throws (mkError (or_else (get_opt (get_opt (data r) "error") "message")
                        (Str "Failed to create checkout")))) /\
  (forall (s : Z) (ra : option string),
      let r' := AxiosError (Some (mkResponse s ra (data r))) in
      createQuote schemaQ fromAsset toAsset r'
      = createQuote schemaQ fromAsset toAsset (AxiosError (Some r)) /\
      createOrder schemaO r' = createOrder schemaO (AxiosError (Some r)) /\
      getOrderStatus schemaS r' = getOrderStatus schemaS (AxiosError (Some r)) /\
      createCheckout checkoutUrl schemaC r'
      = createCheckout checkoutUrl schemaC (AxiosError (Some r))).
Proof.
  split.
  - repeat split.
  - intros s ra. repeat split.
Qed.

(** C6, as first stated, fails: a 503 with Retry-After and a 404 are both
    error replies, with different status and Retry-After, and
    [getOrderStatus] throws the same error for both, so no field of the
    error tells the transient one from the permanent one. *)
Lemma getOrderStatus_503_404_same_error :
  is_error_status (status unavailable_503) = true /\
  is_error_status (status not_found_404) = true /\
  status unavailable_503 <> status not_found_404 /\
  retryAfter unavailable_503 <> retryAfter not_found_404 /\
  getOrderStatus no_schema (AxiosError (Some unavailable_503))
  = Throws (mkError (Str "Failed to get order status")) /\
  getOrderStatus no_schema (AxiosError (Some not_found_404))
  = Throws (mkError (Str "Failed to get order status")) /\
  ~ (exists httpStatus : Error -> Z,
        forall r, In r [unavailable_503; not_found_404] ->
                  forall e, thrown (getOrderStatus no_schema (AxiosError (Some r)))
                            = Some e -> httpStatus e = status r).
Proof.
  repeat split; try discriminate.
  intros [f Hf].
  pose proof (Hf unavailable_503 (or_introl eq_refl) _ eq_refl) as H1.
  pose proof (Hf not_found_404 (or_intror (or_introl eq_refl)) _ eq_refl) as H2.
  cbv in H1, H2. rewrite H1 in H2. discriminate.
Qed.

(** A body that fails validation, and a quote carrying [error], throw from
    inside the [try] and come out with the fixed text as well. *)
Lemma createQuote_error_field_lost
    (schema : value -> option SideShiftQuote) (fromAsset toAsset : string)
    (body : value) (q : SideShiftQuote) (e : SideShiftError) :
  schema body = Some q -> q_error q = Some e ->
  createQuote schema fromAsset toAsset (Fulfilled body)
  = Throws (mkError (Str (quote_fallback fromAsset toAsset))).
Proof.
  intros Hs He. unfold createQuote, call. now rewrite Hs, He.
Qed.

End SideShiftFacts.

(* ------------------------------------------------------------------ *)
(** ** DCA scheduler *)

Module DCAFacts.

Import JS.
Import SideShift.
Import DCA.

(** C2: at the scenario's plan, claimed at [t0] and executed with a quote
    and an order two seconds later, the closing transaction makes three
    writes and none to [nextExecutionAt]: the row keeps the lock sentinel
    [t0 + 10 min] instead of [now + 24 h], and a claim eleven minutes after
    the first finds the plan due again.  The no-wallet path of the same
    function does reschedule at [now + interval]. *)
Theorem executeSchedule_success_keeps_lock_sentinel :
  fst (claim utc t0 t0 db0) = [plan] /\
  path happy = Succeeded quote1 order1 /\
  executeSchedule_writes utc happy (t0 + 2000) plan
  = [InsertOrder order1_row;
     InsertWatchedOrder (mkWatchedRow 42 "o1" "pending");
     IncrementOrdersExecuted 1] /\
  find_schedule 1
    (executeSchedule utc happy (t0 + 2000) plan (snd (claim utc t0 t0 db0)))
  = Some (with_ordersExecuted 4 (with_nextExecutionAt (lockTime utc t0) plan)) /\
  lockTime utc t0 <> addHours utc (t0 + 2000) (intervalHours plan) /\
  map id
    (fst (claim utc (t0 + 660000) (t0 + 660000)
            (executeSchedule utc happy (t0 + 2000) plan
               (snd (claim utc t0 t0 db0)))))
  = [1] /\
  find_schedule 1
    (executeSchedule utc no_wallet (t0 + 2000) plan (snd (claim utc t0 t0 db0)))
  = Some (with_nextExecutionAt (addHours utc (t0 + 2000) 24) plan).
Proof.
  repeat split. discriminate.
Qed.

(** C1: on a host in Central European time, five minutes into the hour
    that the clocks repeat at the end of daylight saving, the lock sentinel
    [setMinutes(getMinutes() + 10)] lies fifty minutes in the past.  Two
    instances start [processSchedules] together on the one due plan; A runs
    its claim transaction and B runs its own right after A's commit: B finds
    the plan still due, so both claim it, two orders are inserted and
    [ordersExecuted] goes up by two.  On a host in UTC the same select of B
    finds nothing. *)
Theorem two_instances_both_claim_in_repeated_hour :
  is_due t1 autumn_plan = true /\
  lockTime berlin (t1 + 5) = t1 + 5 - 50 * 60000 /\
  (exists w,
      run berlin orders_for one_after_the_other (start t1 t1 t1 autumn_db)
      = Some w /\
      finished w = true /\
      claimed (pcA w) = [1] /\ claimed (pcB w) = [1] /\
      map or_sideshiftOrderId (orders (db w)) = ["o1"; "o2"] /\
      map ordersExecuted (dcaSchedules (db w))
      = [ordersExecuted autumn_plan + 2]) /\
  (exists w,
      run utc orders_for (firstn 4 one_after_the_other)
        (start t1 t1 t1 autumn_db) = Some w /\
      pcB w = Selected []).
Proof.
  split; [reflexivity|]. split; [reflexivity|]. split.
  - eexists. split; [vm_compute; reflexivity|]. repeat split.
  - eexists. split; [vm_compute; reflexivity|]. reflexivity.
Qed.

Section AnyZone.

Variable zone : Zone.

(** A successful execution writes no [nextExecutionAt], whatever the plan. *)
Lemma success_writes_no_reschedule (a : Answers) (c : Z) (s : Schedule)
    (q : SideShiftQuote) (o : SideShiftOrder) :
  path a = Succeeded q o ->
  forall sid t,
    ~ In (SetNextExecutionAt sid t) (executeSchedule_writes zone a c s).
Proof.
  intros H sid t. unfold executeSchedule_writes. rewrite H. simpl.
  intros [E|[E|[E|[]]]]; discriminate.
Qed.

(** *** Statements on a one-row table *)

Lemma in_ids_self (P : Schedule) : in_ids [id P] P = true.
Proof. unfold in_ids. simpl. now rewrite Z.eqb_refl. Qed.

Lemma update_single (P : Schedule) (t : Z) :
  update_nextExecutionAt (map id [P]) t [P] = [with_nextExecutionAt t P].
Proof.
  unfold update_nextExecutionAt. cbn [map]. now rewrite in_ids_self.
Qed.

Lemma select_free (i : Instance) (now : Z) (P : Schedule) :
  is_due now P = true -> select_skip_locked i now [] [P] = [P].
Proof. intros H. unfold select_skip_locked. simpl. now rewrite H. Qed.

Lemma select_locked (i j : Instance) (now : Z) (X : Schedule) (sid : Z) :
  inst_eqb i j = false -> id X = sid ->
  select_skip_locked j now [(sid, i)] [X] = [].
Proof.
  intros Hij Hid. unfold select_skip_locked, locked_by_other. simpl.
  rewrite Hid, Z.eqb_refl, Hij. simpl. now rewrite andb_false_r.
Qed.

Lemma select_not_due (j : Instance) (now : Z) (l : list (Z * Instance))
    (X : Schedule) :
  is_due now X = false -> select_skip_locked j now l [X] = [].
Proof. intros H. unfold select_skip_locked. simpl. now rewrite H. Qed.

Lemma not_due_after (now : Z) (X : Schedule) :
  now < nextExecutionAt X -> is_due now X = false.
Proof.
  intros H. unfold is_due.
  destruct (Z.leb_spec (nextExecutionAt X) now); [lia|apply andb_false_r].
Qed.

Lemma execute_success (a : Answers) (c t : Z) (P : Schedule)
    (os : list OrderRow) (ws : list WatchedRow) :
  succeeds a ->
  exists o ws',
    executeSchedule zone a c P (mkDb [with_nextExecutionAt t P] os ws)
    = mkDb [with_ordersExecuted (ordersExecuted P + 1)
              (with_nextExecutionAt t P)]
        (os ++ [o]) ws'.
Proof.
  intros [q [o H]]. unfold executeSchedule, executeSchedule_writes.
  rewrite H. simpl. rewrite Z.eqb_refl. eauto.
Qed.


(** *** Two instances, one due plan *)

Section OnePlan.

Variable answers : Instance -> Schedule -> Answers.
Variable P : Schedule.
Variables clock0 nowA nowB : Z.
Variable os0 : list OrderRow.

Hypothesis active : isActive P = 1.
Hypothesis dueA : nextExecutionAt P <= nowA.
Hypothesis dueB : nextExecutionAt P <= nowB.
Hypothesis startedA : nowA <= clock0.
Hypothesis startedB : nowB <= clock0.
Hypothesis all_succeed : forall i, succeeds (answers i P).
Hypothesis steady_lock :
  forall c, clock0 <= c ->
            steady zone c (MAX_PROCESSING_TIME_MINUTES * 60000).

Lemma lockTime_steady (c : Z) :
  clock0 <= c -> lockTime zone c = c + 600000.
Proof.
  intros H. unfold lockTime, addMinutes, set_local.
  rewrite (steady_lock c H). unfold MAX_PROCESSING_TIME_MINUTES. lia.
Qed.

Lemma plan_due (now : Z) : nextExecutionAt P <= now -> is_due now P = true.
Proof.
  intros H. unfold is_due. rewrite active. simpl.
  now apply Z.leb_le.
Qed.

Lemma sentinel_hides (now t n : Z) :
  now <= clock0 -> lockTime zone clock0 <= t ->
  is_due now (with_nextExecutionAt t P) = false /\
  is_due now (with_ordersExecuted n (with_nextExecutionAt t P)) = false.
Proof.
  intros Hn Ht. rewrite lockTime_steady in Ht by lia.
  split; apply not_due_after; simpl; lia.
Qed.

Ltac fields :=
  cbn [pc_of set_pc pcA pcB db dcaSchedules locks clock orders watchedOrders]
    in *.

Lemma release_own (i : Instance) (sid : Z) : release i [(sid, i)] = [].
Proof. unfold release. simpl. now destruct i. Qed.

Lemma release_other (i j : Instance) (sid : Z) :
  inst_eqb i j = false -> release j [(sid, i)] = [(sid, i)].
Proof. intros H. unfold release. simpl. now rewrite H. Qed.

Lemma clock_set (i : Instance) (p : Pc) (w : World) (c : Z) (d : Db)
    (l : list (Z * Instance)) : clock (set_pc i p w c d l) = c.
Proof. now destruct i. Qed.

Lemma db_set (i : Instance) (p : Pc) (w : World) (c : Z) (d : Db)
    (l : list (Z * Instance)) : db (set_pc i p w c d l) = d.
Proof. now destruct i. Qed.

Lemma locks_set (i : Instance) (p : Pc) (w : World) (c : Z) (d : Db)
    (l : list (Z * Instance)) : locks (set_pc i p w c d l) = l.
Proof. now destruct i. Qed.

Lemma pc_of_set_same (i : Instance) (p : Pc) (w : World) (c : Z) (d : Db)
    (l : list (Z * Instance)) : pc_of i (set_pc i p w c d l) = p.
Proof. now destruct i. Qed.

Lemma pc_of_set_other (i j : Instance) (p : Pc) (w : World) (c : Z) (d : Db)
    (l : list (Z * Instance)) :
  inst_eqb i j = false -> pc_of i (set_pc j p w c d l) = pc_of i w.
Proof. destruct i, j; simpl; intros H; try discriminate; reflexivity. Qed.

Lemma inst_eqb_sym (i j : Instance) : inst_eqb i j = inst_eqb j i.
Proof. now destruct i, j. Qed.

(** The claim of [i] does not depend on the clock nor on where the other
    instance stands. *)
Lemma owns_frame (i j : Instance) (p : Pc) (w : World) (c : Z) :
  inst_eqb i j = false ->
  owns zone P clock0 os0 i w ->
  owns zone P clock0 os0 i (set_pc j p w c (db w) (locks w)).
Proof.
  intros Hij Hown. unfold owns in *.
  rewrite db_set, locks_set, (pc_of_set_other i j) by assumption.
  exact Hown.
Qed.

(** While [i] holds the claim the other instance selects nothing, and its
    commit leaves the lock of [i] in place. *)
Lemma owner_shuts_out (i j : Instance) (now_j : Z) (w : World) :
  inst_eqb i j = false -> now_j <= clock0 ->
  owns zone P clock0 os0 i w ->
  select_skip_locked j now_j (locks w) (dcaSchedules (db w)) = [] /\
  release j (locks w) = locks w.
Proof.
  intros Hij Hnow Hown.
  destruct Hown as
    [(Hp & Hl & Ht & Ho)
    |[(t & Ht0 & Hp & Hl & Ht & Ho)
     |[(t & Ht0 & Hp & Hl & Ht & Ho)
      |(t & o & Ht0 & Hp & Hl & Ht & Ho)]]]; rewrite Hl, Ht.
  - split; [now apply select_locked | now apply release_other].
  - split; [now apply select_locked | now apply release_other].
  - split; [|reflexivity].
    apply select_not_due. now apply (sentinel_hides now_j t 0).
  - split; [|reflexivity].
    apply select_not_due. now apply (sentinel_hides now_j t).
Qed.

(** While [i] holds the claim, a step of the owner moves it along its four
    stages and a step of the other instance claims nothing. *)
Lemma owner_keeps_claim (i j k : Instance) (now_j : Z) (dt : Z)
    (choice : nat) (w w' : World) :
  inst_eqb i j = false -> now_j <= clock0 -> clock0 <= clock w -> 0 <= dt ->
  owns zone P clock0 os0 i w -> idle now_j (pc_of j w) ->
  step zone answers k dt choice w = Some w' ->
  clock0 <= clock w' /\ owns zone P clock0 os0 i w' /\ idle now_j (pc_of j w').
Proof.
  intros Hij Hnow Hc Hdt Hown Hidle Hstep.
  unfold step in Hstep.
  destruct (Z.ltb_spec dt 0) as [|_]; [lia|].
  assert (Hk : k = i \/ k = j) by (destruct i, j, k; auto; discriminate).
  destruct Hk as [-> | ->].
  - (* the owner moves *)
    assert (Hframe : forall p c d l,
               pc_of j (set_pc i p w c d l) = pc_of j w).
    { intros. apply pc_of_set_other. now rewrite inst_eqb_sym. }
    destruct Hown as
      [(Hp & Hl & Ht & Ho)
      |[(t & Ht0 & Hp & Hl & Ht & Ho)
       |[(t & Ht0 & Hp & Hl & Ht & Ho)
        |(t & o & Ht0 & Hp & Hl & Ht & Ho)]]];
      rewrite Hp in Hstep.
    + rewrite Ht, update_single in Hstep.
      inversion Hstep; subst w'; clear Hstep.
      rewrite clock_set, Hframe. split; [lia|]. split; [|assumption].
      right; left. exists (lockTime zone (clock w + dt)).
      rewrite pc_of_set_same, locks_set, db_set. fields.
      rewrite !lockTime_steady by lia. repeat split; try assumption; lia.
    + rewrite Hl, release_own in Hstep.
      inversion Hstep; subst w'; clear Hstep.
      rewrite clock_set, Hframe. split; [lia|]. split; [|assumption].
      right; right; left. exists t.
      rewrite pc_of_set_same, locks_set, db_set.
      repeat split; assumption.
    + destruct choice as [|n]; [|destruct n; discriminate].
      cbn [nth_error remove_nth] in Hstep. rewrite Hl in Hstep.
      cbn [locked_by_other existsb] in Hstep.
      destruct (execute_success (answers i P) (clock w + dt) t P os0
                  (watchedOrders (db w)) (all_succeed i)) as (o & ws' & He).
      destruct (db w) as [tbl os ws] eqn:Edb. fields. subst tbl os.
      rewrite He in Hstep.
      inversion Hstep; subst w'; clear Hstep.
      rewrite clock_set, Hframe. split; [lia|]. split; [|assumption].
      right; right; right. exists t, o.
      rewrite pc_of_set_same, locks_set, db_set. fields.
      repeat split; assumption.
    + destruct choice; discriminate.
  - (* the other instance moves *)
    destruct (owner_shuts_out i j now_j w Hij Hnow Hown) as [Hsel Hrel].
    destruct Hidle as [Hq | [Hq | Hq]]; rewrite Hq in Hstep.
    + rewrite Hsel in Hstep. cbn [map] in Hstep. rewrite app_nil_r in Hstep.
      inversion Hstep; subst w'; clear Hstep.
      rewrite clock_set, pc_of_set_same. split; [lia|].
      split; [now apply owns_frame|]. right; left; reflexivity.
    + rewrite Hrel in Hstep.
      inversion Hstep; subst w'; clear Hstep.
      rewrite clock_set, pc_of_set_same. split; [lia|].
      split; [now apply owns_frame|]. right; right; reflexivity.
    + destruct choice; discriminate.
Qed.

Lemma step_keeps_invariant (i : Instance) (dt : Z) (choice : nat)
    (w w' : World) :
  claim_invariant zone P clock0 nowA nowB os0 w ->
  step zone answers i dt choice w = Some w' ->
  claim_invariant zone P clock0 nowA nowB os0 w'.
Proof.
  intros [Hc Hcases] Hstep.
  assert (Hdt : 0 <= dt).
  { unfold step in Hstep. destruct (Z.ltb_spec dt 0); [discriminate|lia]. }
  destruct Hcases as [(Ha & Hb & Hl & Ht & Ho) | [[Hown Hidle] | [Hown Hidle]]].
  - unfold step in Hstep.
    destruct (Z.ltb_spec dt 0) as [|_]; [lia|].
    destruct i; cbn [pc_of] in Hstep.
    + rewrite Ha, Hl, Ht, select_free in Hstep by (now apply plan_due).
      inversion Hstep; subst w'; clear Hstep.
      split; [fields; lia|]. right; left. split.
      * left. fields. repeat split; assumption.
      * left. fields. assumption.
    + rewrite Hb, Hl, Ht, select_free in Hstep by (now apply plan_due).
      inversion Hstep; subst w'; clear Hstep.
      split; [fields; lia|]. right; right. split.
      * left. fields. repeat split; assumption.
      * left. fields. assumption.
  - destruct (owner_keeps_claim A B i nowB dt choice w w' eq_refl startedB
                Hc Hdt Hown Hidle Hstep) as (H1 & H2 & H3).
    split; [assumption|]. right; left. now split.
  - destruct (owner_keeps_claim B A i nowA dt choice w w' eq_refl startedA
                Hc Hdt Hown Hidle Hstep) as (H1 & H2 & H3).
    split; [assumption|]. right; right. now split.
Qed.

Lemma run_keeps_invariant (moves : list Move) :
  forall w w',
    claim_invariant zone P clock0 nowA nowB os0 w ->
    run zone answers moves w = Some w' ->
    claim_invariant zone P clock0 nowA nowB os0 w'.
Proof.
  induction moves as [|[[i dt] choice] rest IH]; intros w w' Hinv Hrun.
  - inversion Hrun; now subst.
  - simpl in Hrun.
    destruct (step zone answers i dt choice w) as [w1|] eqn:Hs; [|discriminate].
    apply (IH w1 w'); [|assumption].
    now apply (step_keeps_invariant i dt choice w).
Qed.

Lemma start_invariant (ws0 : list WatchedRow) :
  claim_invariant zone P clock0 nowA nowB os0
    (start clock0 nowA nowB (mkDb [P] os0 ws0)).
Proof.
  split; [simpl; lia|]. left. repeat split.
Qed.

(** An unfinished world has an instance that can move at once. *)
Lemma unfinished_can_move (w : World) :
  claim_invariant zone P clock0 nowA nowB os0 w -> finished w = false ->
  exists i w', step zone answers i 0 0 w = Some w'.
Proof.
  intros [Hc Hcases] Hfin.
  assert (Hidle : forall j now, idle now (pc_of j w) ->
             finished_pc (pc_of j w) = false ->
             exists w', step zone answers j 0 0 w = Some w').
  { intros j now [Hq | [Hq | Hq]] Hf; unfold step; simpl; rewrite Hq in *;
      try discriminate; eauto. }
  assert (Hown : forall i, owns zone P clock0 os0 i w ->
             finished_pc (pc_of i w) = false ->
             exists w', step zone answers i 0 0 w = Some w').
  { intros i
      [(Hp & Hl & Ht & Ho)
      |[(t & Ht0 & Hp & Hl & Ht & Ho)
       |[(t & Ht0 & Hp & Hl & Ht & Ho)
        |(t & o & Ht0 & Hp & Hl & Ht & Ho)]]] Hf;
      unfold step; simpl; rewrite Hp in *; try discriminate; eauto.
    rewrite Hl. simpl. eauto. }
  unfold finished in Hfin. apply andb_false_iff in Hfin.
  destruct Hcases as [(Ha & Hb & Hl & Ht & Ho) | [[Ho Hi] | [Ho Hi]]].
  - exists A. unfold step. simpl. rewrite Ha. eauto.
  - destruct Hfin as [Hf | Hf].
    + exists A. now apply Hown.
    + exists B. now apply (Hidle B nowB).
  - destruct Hfin as [Hf | Hf].
    + exists A. now apply (Hidle A nowA).
    + exists B. now apply Hown.
Qed.

Lemma rows_update (ids : list Z) (t : Z) (rows : list Schedule) :
  List.length (update_nextExecutionAt ids t rows) = List.length rows.
Proof. apply length_map. Qed.

Lemma rows_apply_writes (ws : list Write) :
  forall d, List.length (dcaSchedules (fold_left apply_write ws d))
            = List.length (dcaSchedules d).
Proof.
  induction ws as [|x rest IH]; intros d; simpl; [reflexivity|].
  rewrite IH. destruct x; simpl; try reflexivity.
  - unfold increment_ordersExecuted. apply length_map.
  - apply rows_update.
Qed.

Lemma length_remove_nth {X : Type} (xs : list X) :
  forall n x, nth_error xs n = Some x ->
              S (List.length (remove_nth n xs)) = List.length xs.
Proof.
  induction xs as [|y rest IH]; intros [|n] x H; simpl in *; try discriminate.
  - reflexivity.
  - now rewrite (IH n x H).
Qed.

(** Every step uses up fuel, so every interleaving is finite. *)
Lemma step_uses_fuel (i : Instance) (dt : Z) (choice : nat) (w w' : World) :
  step zone answers i dt choice w = Some w' -> (fuel w' < fuel w)%nat.
Proof.
  unfold step. destruct (dt <? 0); [discriminate|].
  destruct w as [c0 d l pa pb]. unfold fuel.
  destruct i; cbn [pc_of set_pc pcA pcB db locks clock].
  - destruct pa as [now|[|s ss]|ss|ds pending]; intros H.
    + inversion H; subst; clear H. cbn [pcA pcB db fuel_pc].
      pose proof (filter_length_le
                    (fun s => is_due now s && negb (locked_by_other A l (id s)))
                    (dcaSchedules d)).
      unfold select_skip_locked. lia.
    + inversion H; subst; clear H. cbn [pcA pcB db fuel_pc]. simpl. lia.
    + inversion H; subst; clear H. cbn [pcA pcB db fuel_pc dcaSchedules].
      rewrite rows_update. simpl. lia.
    + inversion H; subst; clear H. cbn [pcA pcB db fuel_pc]. lia.
    + revert H.
      destruct (nth_error pending choice) as [s|] eqn:E; [|discriminate].
      destruct (locked_by_other A l (id s)); [discriminate|].
      intros H. inversion H; subst; clear H. cbn [pcA pcB db fuel_pc].
      unfold executeSchedule. rewrite rows_apply_writes.
      pose proof (length_remove_nth pending choice s E). lia.
  - destruct pb as [now|[|s ss]|ss|ds pending]; intros H.
    + inversion H; subst; clear H. cbn [pcA pcB db fuel_pc].
      pose proof (filter_length_le
                    (fun s => is_due now s && negb (locked_by_other B l (id s)))
                    (dcaSchedules d)).
      unfold select_skip_locked. lia.
    + inversion H; subst; clear H. cbn [pcA pcB db fuel_pc]. simpl. lia.
    + inversion H; subst; clear H. cbn [pcA pcB db fuel_pc dcaSchedules].
      rewrite rows_update. simpl. lia.
    + inversion H; subst; clear H. cbn [pcA pcB db fuel_pc]. lia.
    + revert H.
      destruct (nth_error pending choice) as [s|] eqn:E; [|discriminate].
      destruct (locked_by_other B l (id s)); [discriminate|].
      intros H. inversion H; subst; clear H. cbn [pcA pcB db fuel_pc].
      unfold executeSchedule. rewrite rows_apply_writes.
      pose proof (length_remove_nth pending choice s E). lia.
Qed.

(** From any world of the invariant the two instances can run to the end. *)
Lemma run_completes (n : nat) :
  forall w, claim_invariant zone P clock0 nowA nowB os0 w -> (fuel w <= n)%nat ->
            exists moves w', run zone answers moves w = Some w' /\ finished w' = true.
Proof.
  induction n as [|n IH]; intros w Hinv Hfuel.
  - destruct (finished w) eqn:Hf.
    + exists [], w. now split.
    + destruct (unfinished_can_move w Hinv Hf) as (i & w1 & Hs).
      apply step_uses_fuel in Hs. lia.
  - destruct (finished w) eqn:Hf.
    + exists [], w. now split.
    + destruct (unfinished_can_move w Hinv Hf) as (i & w1 & Hs).
      destruct (IH w1) as (moves & w' & Hrun & Hdone).
      * now apply (step_keeps_invariant i 0 0%nat w).
      * apply step_uses_fuel in Hs. lia.
      * exists ((i, 0, 0%nat) :: moves), w'. simpl. rewrite Hs. now split.
Qed.

(** Where the host's offset from UTC does not change within ten minutes
    of a write of the sentinel, the lock holds: two instances start
    [processSchedules] on the same due, active plan, each having read its
    [now], and run interleaved in any order and at any pace, every execution
    getting its quote and its order.  Then at every point the rows the two
    have claimed are disjoint; the run can always be completed; and once
    both are done exactly one order has been inserted and the plan's
    [ordersExecuted] has gone up by exactly one. *)
Theorem two_instances_claim_once (ws0 : list WatchedRow) (moves : list Move)
    (w : World) :
  run zone answers moves (start clock0 nowA nowB (mkDb [P] os0 ws0)) = Some w ->
  disjoint (claimed (pcA w)) (claimed (pcB w)) /\
  (exists more w', run zone answers more w = Some w' /\ finished w' = true) /\
  (finished w = true ->
   exists o P',
     orders (db w) = os0 ++ [o] /\ dcaSchedules (db w) = [P'] /\
     id P' = id P /\ ordersExecuted P' = ordersExecuted P + 1).
Proof.
  intros Hrun.
  pose proof (run_keeps_invariant moves _ _ (start_invariant ws0) Hrun) as Hinv.
  split; [|split].
  - destruct Hinv as [_ [(Ha & Hb & _) | [[_ Hi] | [_ Hi]]]].
    + rewrite Ha. intros x [].
    + destruct Hi as [Hq | [Hq | Hq]]; rewrite Hq; intros x _ [].
    + destruct Hi as [Hq | [Hq | Hq]]; rewrite Hq; intros x [].
  - now apply (run_completes (fuel w)).
  - intros Hfin. unfold finished in Hfin.
    apply andb_true_iff in Hfin as [HfA HfB].
    destruct Hinv as [_ [(Ha & Hb & _) | [[Ho _] | [Ho _]]]].
    + rewrite Ha in HfA. discriminate.
    + destruct Ho as
        [(Hp & Hl & Ht & Ho)
        |[(t & Ht0 & Hp & Hl & Ht & Ho)
         |[(t & Ht0 & Hp & Hl & Ht & Ho)
          |(t & o & Ht0 & Hp & Hl & Ht & Ho)]]];
        cbn [pc_of] in Hp; rewrite Hp in HfA; try discriminate.
      exists o, (with_ordersExecuted (ordersExecuted P + 1)
                   (with_nextExecutionAt t P)).
      split; [exact Ho|]. split; [exact Ht|]. split; reflexivity.
    + destruct Ho as
        [(Hp & Hl & Ht & Ho)
        |[(t & Ht0 & Hp & Hl & Ht & Ho)
         |[(t & Ht0 & Hp & Hl & Ht & Ho)
          |(t & o & Ht0 & Hp & Hl & Ht & Ho)]]];
        cbn [pc_of] in Hp; rewrite Hp in HfB; try discriminate.
      exists o, (with_ordersExecuted (ordersExecuted P + 1)
                   (with_nextExecutionAt t P)).
      split; [exact Ho|]. split; [exact Ht|]. split; reflexivity.
Qed.

End OnePlan.

End AnyZone.

Lemma two_instances_claim_once_witness :
  run utc (fun _ _ => happy) interleaved (start t0 t0 t0 db0)
  = Some interleaved_end /\
  finished interleaved_end = true /\
  exists o P',
    orders (db interleaved_end) = [] ++ [o] /\
    dcaSchedules (db interleaved_end) = [P'] /\
    id P' = id plan /\ ordersExecuted P' = ordersExecuted plan + 1.
Proof.
  split; [reflexivity|]. split; [reflexivity|].
  refine (proj2 (proj2
            (two_instances_claim_once utc (fun _ _ => happy) plan t0 t0 t0 []
               eq_refl _ _ _ _ _ _ [] interleaved interleaved_end eq_refl))
            eq_refl).
  - unfold plan, t0; simpl; lia.
  - unfold plan, t0; simpl; lia.
  - lia.
  - lia.
  - intros i. exists quote1, order1. reflexivity.
  - intros c _. reflexivity.
Defined.

End DCAFacts.

(* ------------------------------------------------------------------ *)
(** ** HTTP routes *)

Module ApiFacts.

Import JS.
Import Api.

Ltac handler :=
  unfold respond, bind, field, some, require, perform, ret, reply.

(** Authentication answers 401 or yields the verified uid, and reads no
    data. *)
Lemma authenticate_cases (sv : Services) (req : Request) :
  (exists r, authenticate sv req = (inl r, []) /\ status r = 401) \/
  (exists a, authenticate sv req = (inr a, [])).
Proof.
  unfold authenticate. handler.
  destruct (bearer (authorization req)) as [h|]; [|left; eauto].
  destruct (nth_error (split "Bearer " h) 1) as [t|]; [|left; eauto].
  destruct (verifyIdToken sv t); [right|left]; eauto.
Qed.

Lemma nonempty_truthy (x : option string) :
  truthy (match x with Some s => Str s | None => Undefined end) = true ->
  exists s, x = Some s /\ nonempty x = Some s.
Proof.
  destruct x as [s|]; simpl; [|discriminate].
  intros H. exists s. split; [reflexivity|].
  destruct (String.eqb s EmptyString); [discriminate|reflexivity].
Qed.

(** C9 (amended): on every user-scoped route, a request whose verified
    caller differs from the non-empty [userId] it supplies is rejected
    without any call into the data layer; the answer is 403 unless an earlier
    check answers first: 400 when POST /api/chat/history lacks role or
    content, 500 when the settings routes find DATABASE_URL unset. *)
Theorem mismatch_reaches_no_data (route : UserRoute) (sv : Services)
    (req : Request) (caller : string) :
  authenticate sv req = (inr caller, []) ->
  truthy (suppliedUserId route req) = true ->
  strict_eq_str (suppliedUserId route req) caller = false ->
  snd (handle route sv req) = [] /\
  status (fst (handle route sv req))
  = match earlier_rejection route sv req with
    | Some s => s
    | None => 403
    end.
Proof.
  intros Hauth Htruthy Hneq.
  destruct route; unfold handle, suppliedUserId, earlier_rejection in *.
  - unfold swapHistory_GET, bind. rewrite Hauth.
    destruct (nonempty_truthy _ Htruthy) as (s & Hs & Hn).
    rewrite Hs in Hneq. simpl in Hneq.
    handler. rewrite Hn, Hneq. split; reflexivity.
  - unfold chatHistory_GET, bind. rewrite Hauth.
    destruct (nonempty_truthy _ Htruthy) as (s & Hs & Hn).
    rewrite Hs in Hneq. simpl in Hneq.
    handler. rewrite Hn, Hneq. split; reflexivity.
  - unfold chatHistory_POST, bind. rewrite Hauth.
    destruct (body req) as [b|]; [|discriminate].
    destruct b; try discriminate.
    handler. cbn [get_opt get body] in *.
    rewrite Htruthy. cbn [andb].
    destruct (truthy (lookup "role" fields) && truthy (lookup "content" fields));
      simpl; [|split; reflexivity].
    rewrite Hneq. split; reflexivity.
  - unfold chatHistory_DELETE, bind. rewrite Hauth.
    destruct (nonempty_truthy _ Htruthy) as (s & Hs & Hn).
    rewrite Hs in Hneq. simpl in Hneq.
    handler. rewrite Hn, Hneq. split; reflexivity.
  - unfold userSettings_GET, bind. rewrite Hauth.
    destruct (nonempty_truthy _ Htruthy) as (s & Hs & Hn).
    rewrite Hs in Hneq. simpl in Hneq.
    handler. destruct (databaseUrl sv); [|split; reflexivity].
    rewrite Hn, Hneq. split; reflexivity.
  - unfold userSettings_POST, bind. rewrite Hauth.
    handler. destruct (databaseUrl sv); [|split; reflexivity].
    destruct (body req) as [b|]; [|discriminate].
    destruct b; try discriminate.
    cbn [get_opt get body] in *.
    rewrite Htruthy, Hneq. split; reflexivity.
Qed.

Lemma mismatch_reaches_no_data_witness :
  snd (handle SwapHistoryGet alice_services get_as_bob) = [] /\
  status (fst (handle SwapHistoryGet alice_services get_as_bob)) = 403.
Proof.
  apply (mismatch_reaches_no_data SwapHistoryGet alice_services get_as_bob
           "alice"); reflexivity.
Defined.

(** C9, as first stated, fails: Alice's verified token with Bob's id in the
    body of POST /api/chat/history, without role and content, is answered
    400, not 403. *)
Lemma chatHistory_POST_mismatch_answers_400 :
  authenticate alice_services post_as_bob = (inr "alice", []) /\
  suppliedUserId ChatHistoryPost post_as_bob = Str "bob" /\
  handle ChatHistoryPost alice_services post_as_bob
  = (fail 400 "userId, role, and content are required", []) /\
  status (fst (handle ChatHistoryPost alice_services post_as_bob)) <> 403.
Proof.
  repeat split. discriminate.
Qed.


(** *** Admin coin routes *)

Lemma adminGate_header (sv : Services) (req req' : Request) :
  authorization req = authorization req' ->
  adminGate sv req = adminGate sv req'.
Proof. intros H. unfold adminGate. now rewrite H. Qed.

(** A gate that answers, answers for the whole route. *)
Lemma handleAdmin_gate_rejects (sv : Services) (req : Request)
    (r : Response) (es : list Effect) :
  adminGate sv req = (inl r, es) ->
  forall route p, handleAdmin route p sv req = (r, es).
Proof.
  intros H route p.
  destruct route; unfold handleAdmin;
    [unfold adjust_POST | unfold adjust_GET | unfold stats_GET
    | unfold users_GET];
    unfold bind at 1; rewrite H; reflexivity.
Qed.

Lemma handleAdmin_gate_first (sv : Services) (req : Request)
    (who : value * Admin) (es : list Effect) :
  adminGate sv req = (inr who, es) ->
  forall route p, exists rest, snd (handleAdmin route p sv req) = es ++ rest.
Proof.
  intros H route p.
  destruct route; unfold handleAdmin;
    [unfold adjust_POST | unfold adjust_GET | unfold stats_GET
    | unfold users_GET];
    unfold bind at 1; rewrite H;
    match goal with
    | |- context [let '(y, es') := ?k in (y, es ++ es')] =>
        destruct k as [[r|r] rest]; exists rest; reflexivity
    end.
Qed.

(** How each family of routes treats the token of a Bearer header: the
    user-scoped routes answer 401 without touching data when the identity
    provider does not verify the token.  The admin coin routes take the uid of a verified token; when
    verification fails they read the uid from the token's payload without a
    signature check: they answer 401 only when that yields none, and
    otherwise look the unverified uid up in the admin table before anything
    else, answering 403 when no admin row matches. *)
Theorem token_verification_by_route (sv : Services) (req : Request)
    (h : string) :
  bearer (authorization req) = Some h ->
  ((forall t, nth_error (split "Bearer " h) 1 = Some t ->
              verifyIdToken sv t = None) ->
   forall route,
     handle route sv req = (fail 401 "Unauthorized: Invalid token", [])) /\
  (forall d, verifyIdToken sv (substring_from 7 h) = Some d ->
             decodeToken sv (substring_from 7 h) = Some (Str (uid d))) /\
  (verifyIdToken sv (substring_from 7 h) = None ->
   (rawUid sv (substring_from 7 h) = None ->
    forall route p,
      handleAdmin route p sv req = (fail 401 "Invalid token", [])) /\
   (forall u, rawUid sv (substring_from 7 h) = Some u ->
      forall route p, exists rest,
        snd (handleAdmin route p sv req) = GetAdminByFirebaseUid u :: rest) /\
   (forall u, rawUid sv (substring_from 7 h) = Some u ->
      returns sv (GetAdminByFirebaseUid u) = true -> adminRow sv u = None ->
      forall route p,
        handleAdmin route p sv req
        = (fail 403 "Forbidden", [GetAdminByFirebaseUid u]))).
Proof.
  intros Hb. split; [|split].
  - intros Hv route.
    assert (Ha : authenticate sv req
                 = (inl (fail 401 "Unauthorized: Invalid token"), [])).
    { unfold authenticate. handler. rewrite Hb.
      destruct (nth_error (split "Bearer " h) 1) as [t|] eqn:E; [|reflexivity].
      now rewrite (Hv t eq_refl). }
    destruct route; unfold handle;
      [unfold swapHistory_GET | unfold chatHistory_GET
      | unfold chatHistory_POST | unfold chatHistory_DELETE
      | unfold userSettings_GET | unfold userSettings_POST];
      unfold bind at 1; rewrite Ha; reflexivity.
  - intros d Hd. unfold decodeToken. now rewrite Hd.
  - intros Hv.
    assert (Hdec : decodeToken sv (substring_from 7 h)
                   = rawUid sv (substring_from 7 h)).
    { unfold decodeToken. now rewrite Hv. }
    split; [|split].
    + intros Hraw. apply handleAdmin_gate_rejects.
      unfold adminGate. handler. now rewrite Hb, Hdec, Hraw.
    + intros u Hraw route p.
      assert (Hg : exists x, adminGate sv req = (x, [GetAdminByFirebaseUid u])).
      { unfold adminGate. handler. rewrite Hb, Hdec, Hraw.
        destruct (returns sv (GetAdminByFirebaseUid u)); [|eauto].
        destruct (adminRow sv u); eauto. }
      destruct Hg as [[r|who] Hg].
      * rewrite (handleAdmin_gate_rejects _ _ _ _ Hg). eexists; reflexivity.
      * destruct (handleAdmin_gate_first _ _ _ _ Hg route p) as [rest Hr].
        exists rest. exact Hr.
    + intros u Hraw Hret Hrow. apply handleAdmin_gate_rejects.
      unfold adminGate. handler. now rewrite Hb, Hdec, Hraw, Hret, Hrow.
Qed.

Lemma token_verification_by_route_witness :
  exists rest,
    snd (handleAdmin StatsGet (fun _ => true) forgery_services forged_request)
    = GetAdminByFirebaseUid (Str "admin1") :: rest.
Proof.
  refine (proj1 (proj2
            (proj2 (proj2
                      (token_verification_by_route forgery_services
                         forged_request
                         (String.append "Bearer " forged_token) eq_refl))
               eq_refl))
            (Str "admin1") eq_refl StatsGet (fun _ => true)).
Defined.

(** C4: a token the identity provider does not verify is accepted.  With
    a payload naming an admin it passes the admin gate and gets the supply
    statistics; on the gift-all route, which looks up no admin row, a
    payload naming any uid at all is enough to gift coins to every user.
    In both the caller's identity is the uid read from the unverified
    payload. *)
Theorem unverified_token_is_accepted :
  verifyIdToken forgery_services forged_token = None /\
  authorization forged_request = Some (String.append "Bearer " forged_token) /\
  stats_GET forgery_services forged_request
  = (ok 200, [GetAdminByFirebaseUid (Str "admin1"); GetCoinSupplyStats]) /\
  verifyIdToken outsider_services outsider_token = None /\
  adminRow outsider_services (Str "mallory") = None /\
  authorization outsider_gift = Some (String.append "Bearer " outsider_token) /\
  giftAll_POST outsider_services outsider_gift
  = (ok 200,
     [GiftAllUsers (Str "mallory") (Str "unknown") (Fin (inject_Z 1000000))
        Undefined]).
Proof. repeat split. Qed.

(** *** Amount validation of the adjust route *)

Lemma get_total (b : value) (k : string) (v : value) :
  get b k = Some v -> forall k', get b k' = Some (get_opt b k').
Proof.
  intros H k'. unfold get_opt.
  destruct (get b k') eqn:E; [reflexivity|].
  destruct b; try discriminate. simpl in E.
  destruct (String.eqb k' "sub"); discriminate.
Qed.

Lemma adjust_POST_past_gate (sv : Services) (req : Request) (b : value)
    (who : value * Admin) (es : list Effect) (k : string) (v : value) :
  adminGate sv req = (inr who, es) ->
  body req = Some b -> get b k = Some v ->
  adjust_POST sv req
  = (fst (respond (adjust_checked sv who (get_opt b "targetUserId")
                     (get_opt b "action") (get_opt b "amount")
                     (get_opt b "note"))),
     es ++ snd (respond (adjust_checked sv who (get_opt b "targetUserId")
                           (get_opt b "action") (get_opt b "amount")
                           (get_opt b "note")))).
Proof.
  intros Hg Hb Hk. unfold adjust_POST.
  unfold bind at 1. rewrite Hg, Hb.
  unfold some at 1. unfold ret at 1. unfold bind at 1. cbn beta iota.
  unfold field.
  rewrite !(get_total b k v Hk).
  unfold some, ret. unfold bind at 1 2 3 4. cbn beta iota.
  destruct (adjust_checked sv who _ _ _ _) as [[r|r] rest]; reflexivity.
Qed.

Lemma adjust_checked_reset (sv : Services) (who : value * Admin)
    (target amount amount' note : value) :
  adjust_checked sv who target (Str "reset") amount note
  = adjust_checked sv who target (Str "reset") amount' note.
Proof. reflexivity. Qed.

Lemma adjust_checked_amounts (sv : Services) (who : value * Admin)
    (target action amount note : value) (args : AdjustArgs) :
  In (AdjustTestnetCoins args)
    (snd (adjust_checked sv who target action amount note)) ->
  Api.amount args
  = if strict_eq_str action "reset" then Num (Fin 0) else amount.
Proof.
  unfold adjust_checked. handler.
  destruct (truthy target && includes ["gift"; "deduct"; "reset"] action);
    [|intros []].
  destruct (negb (is_gift_or_deduct action && bad_amount amount));
    [|intros []].
  cbn [app].
  destruct (returns sv (SelectUser target)); [|intros [E|[]]; discriminate].
  destruct (userRow sv target) as [row|]; [|intros [E|[]]; discriminate].
  destruct (nonempty (firebase_uid row)) as [fuid|];
    [|intros [E|[]]; discriminate].
  cbn [app].
  destruct (returns sv _); intros [E|[E|[]]]; try discriminate;
    inversion E; reflexivity.
Qed.


Lemma gift_or_deduct_included (a : value) :
  is_gift_or_deduct a = true -> includes ["gift"; "deduct"; "reset"] a = true.
Proof.
  unfold is_gift_or_deduct, includes. cbn [existsb].
  intros H. apply orb_true_iff in H as [H|H]; rewrite H;
    rewrite ?orb_true_r; reflexivity.
Qed.

Lemma adminGate_effects (sv : Services) (req : Request)
    (x : Response + value * Admin) (es : list Effect) :
  adminGate sv req = (x, es) ->
  forall args, ~ In (AdjustTestnetCoins args) es.
Proof.
  unfold adminGate. handler.
  destruct (bearer (authorization req)) as [h|];
    [|intros E; inversion E; intros args []].
  destruct (decodeToken sv (substring_from 7 h)) as [u|];
    [|intros E; inversion E; intros args []].
  cbn [app].
  destruct (returns sv (GetAdminByFirebaseUid u));
    [destruct (adminRow sv u)|];
    intros E; inversion E; intros args [F|[]]; discriminate.
Qed.

Lemma get_opt_of_get (b : value) (k : string) (v : value) :
  get b k = Some v -> get_opt b k = v.
Proof. intros H. unfold get_opt. now rewrite H. Qed.

(** C10: past the admin gate and with a target user id, a gift or deduct
    whose amount is not a positive number is answered 400 before anything is
    read or written; a reset is never answered so, gives the same answer and
    the same calls whatever amount the body carries, hands amount 0 to the
    adjustment, and is answered 200 once the user row is found and the
    adjustment returns. *)
Theorem adjust_amount_validation (sv : Services) (req : Request) (b : value)
    (who : value * Admin) (es : list Effect)
    (target action amount note : value) :
  adminGate sv req = (inr who, es) ->
  body req = Some b ->
  get b "targetUserId" = Some target -> get b "action" = Some action ->
  get b "amount" = Some amount -> get b "note" = Some note ->
  truthy target = true ->
  (is_gift_or_deduct action = true -> bad_amount amount = true ->
   adjust_POST sv req
   = (fail 400 "amount must be a positive number for gift/deduct", es)) /\
  (action = Str "reset" ->
   (forall req' b' amount',
       authorization req' = authorization req -> body req' = Some b' ->
       get b' "targetUserId" = Some target -> get b' "action" = Some action ->
       get b' "amount" = Some amount' -> get b' "note" = Some note ->
       adjust_POST sv req' = adjust_POST sv req) /\
   error (fst (adjust_POST sv req))
   <> Some "amount must be a positive number for gift/deduct" /\
   (forall args, In (AdjustTestnetCoins args) (snd (adjust_POST sv req)) ->
                 Api.amount args = Num (Fin 0)) /\
   (forall row fuid,
       returns sv (SelectUser target) = true ->
       userRow sv target = Some row ->
       nonempty (firebase_uid row) = Some fuid ->
       returns sv
         (AdjustTestnetCoins
            (mkAdjust (fst who) (admin_email (snd who)) target fuid
               (wallet_address row) action (Num (Fin 0)) note)) = true ->
       adjust_POST sv req
       = (ok 200,
          es ++ [SelectUser target;
                 AdjustTestnetCoins
                   (mkAdjust (fst who) (admin_email (snd who)) target fuid
                      (wallet_address row) action (Num (Fin 0)) note)]))).
Proof.
  intros Hg Hb Ht Ha Hm Hn Htruthy.
  pose proof (adjust_POST_past_gate sv req b who es _ _ Hg Hb Ht) as Hpost.
  rewrite (get_opt_of_get _ _ _ Ht), (get_opt_of_get _ _ _ Ha),
    (get_opt_of_get _ _ _ Hm), (get_opt_of_get _ _ _ Hn) in Hpost.
  split.
  - intros Hgd Hbad. rewrite Hpost.
    unfold adjust_checked. handler.
    rewrite Htruthy, (gift_or_deduct_included _ Hgd), Hgd, Hbad.
    simpl. now rewrite app_nil_r.
  - intros ->. repeat split.
    + intros req' b' amount' Hh Hb' Ht' Ha' Hm' Hn'.
      rewrite (adminGate_header sv req req' (eq_sym Hh)) in Hg.
      pose proof (adjust_POST_past_gate sv req' b' who es _ _ Hg Hb' Ht')
        as Hpost'.
      rewrite (get_opt_of_get _ _ _ Ht'), (get_opt_of_get _ _ _ Ha'),
        (get_opt_of_get _ _ _ Hm'), (get_opt_of_get _ _ _ Hn') in Hpost'.
      rewrite Hpost, Hpost'.
      now rewrite (adjust_checked_reset sv who target amount' amount note).
    + rewrite Hpost. cbn [fst].
      unfold adjust_checked. handler. rewrite Htruthy. cbn.
      destruct (returns sv (SelectUser target)); [|discriminate].
      destruct (userRow sv target) as [row|]; [|discriminate].
      destruct (nonempty (firebase_uid row)) as [fuid|]; [|discriminate].
      destruct (returns sv _); discriminate.
    + intros args Hin. rewrite Hpost in Hin. cbn [snd] in Hin.
      apply in_app_or in Hin as [Hin|Hin].
      * now apply (adminGate_effects _ _ _ _ Hg) in Hin.
      * assert (Hin' : In (AdjustTestnetCoins args)
                         (snd (adjust_checked sv who target (Str "reset")
                                 amount note))).
        { destruct (adjust_checked sv who target (Str "reset") amount note)
            as [[r|r] rest]; exact Hin. }
        now apply adjust_checked_amounts in Hin'.
    + intros row fuid Hsel Hrow Hfuid Hadj. rewrite Hpost.
      unfold adjust_checked. handler. rewrite Htruthy. cbn.
      rewrite Hsel, Hrow. cbn. rewrite Hfuid. cbn. rewrite Hadj. reflexivity.
Qed.

Lemma adjust_amount_validation_witness :
  adjust_POST admin_services (adjust_request (Str "gift") (Num (Fin (-5))))
  = (fail 400 "amount must be a positive number for gift/deduct",
     [GetAdminByFirebaseUid (Str "admin1")]) /\
  adjust_POST admin_services (adjust_request (Str "reset") (Str "a lot"))
  = adjust_POST admin_services (adjust_request (Str "reset") (Num (Fin 1))).
Proof.
  split.
  - refine (proj1
              (adjust_amount_validation admin_services
                 (adjust_request (Str "gift") (Num (Fin (-5))))
                 (Obj [("targetUserId", Num (Fin 7)); ("action", Str "gift");
                       ("amount", Num (Fin (-5)))])
                 (Str "admin1", admin1) [GetAdminByFirebaseUid (Str "admin1")]
                 (Num (Fin 7)) (Str "gift") (Num (Fin (-5))) Undefined
                 eq_refl eq_refl eq_refl eq_refl eq_refl eq_refl eq_refl)
              eq_refl eq_refl).
  - refine (proj1
              (proj2
                 (adjust_amount_validation admin_services
                    (adjust_request (Str "reset") (Num (Fin 1)))
                    (Obj [("targetUserId", Num (Fin 7));
                          ("action", Str "reset"); ("amount", Num (Fin 1))])
                    (Str "admin1", admin1)
                    [GetAdminByFirebaseUid (Str "admin1")]
                    (Num (Fin 7)) (Str "reset") (Num (Fin 1)) Undefined
                    eq_refl eq_refl eq_refl eq_refl eq_refl eq_refl eq_refl)
                 eq_refl)
              (adjust_request (Str "reset") (Str "a lot"))
              (Obj [("targetUserId", Num (Fin 7)); ("action", Str "reset");
                    ("amount", Str "a lot")])
              (Str "a lot") eq_refl eq_refl eq_refl eq_refl eq_refl eq_refl).
Defined.

End ApiFacts.

(* ------------------------------------------------------------------ *)
(** ** Order monitor: the map, the tick and the reload *)

Module MonitorMore.

Import JS.
Import SideShift.
Import Monitor.
Import MonitorFacts.

(** *** Keys of the tracked map *)

Lemma in_keys_has (k : string) (t : list (string * TrackedOrder)) :
  In k (map fst t) <-> map_has k t = true.
Proof.
  induction t as [|[k' v'] rest IH]; simpl.
  - split; [tauto|discriminate].
  - rewrite orb_true_iff, <- IH. split; intros [H|H]; auto.
    + subst. left. apply String.eqb_refl.
    + apply String.eqb_eq in H. auto.
Qed.

Lemma keys_set_present (k : string) (v : TrackedOrder)
    (t : list (string * TrackedOrder)) :
  map_has k t = true -> map fst (map_set k v t) = map fst t.
Proof.
  induction t as [|[k' v'] rest IH]; simpl; [discriminate|].
  destruct (String.eqb k k') eqn:E; simpl.
  - apply String.eqb_eq in E. now subst.
  - intros H. now rewrite IH.
Qed.

Lemma keys_set_absent (k : string) (v : TrackedOrder)
    (t : list (string * TrackedOrder)) :
  map_has k t = false -> map fst (map_set k v t) = map fst t ++ [k].
Proof.
  induction t as [|[k' v'] rest IH]; simpl; [reflexivity|].
  intros H. apply orb_false_iff in H as [E Hrest].
  rewrite E. simpl. now rewrite IH.
Qed.

Lemma keys_mutate (k : string) (v : TrackedOrder)
    (t : list (string * TrackedOrder)) :
  map fst (map_mutate k v t) = map fst t.
Proof.
  unfold map_mutate. destruct (map_has k t) eqn:E; [|reflexivity].
  now apply keys_set_present.
Qed.

Lemma keys_delete (k : string) (t : list (string * TrackedOrder)) :
  map fst (map_delete k t)
  = filter (fun k' => negb (String.eqb k k')) (map fst t).
Proof.
  induction t as [|[k' v'] rest IH]; simpl; [reflexivity|].
  destruct (String.eqb k k'); simpl; now rewrite IH.
Qed.

Lemma NoDup_filter {X : Type} (f : X -> bool) (xs : list X) :
  NoDup xs -> NoDup (filter f xs).
Proof.
  induction 1 as [|x xs Hx Hnd IH]; simpl; [constructor|].
  destruct (f x); [|assumption].
  constructor; [|assumption].
  intros Hin. apply filter_In in Hin. tauto.
Qed.

Lemma NoDup_snoc {X : Type} (xs : list X) (x : X) :
  NoDup xs -> ~ In x xs -> NoDup (xs ++ [x]).
Proof.
  intros Hnd Hx. induction Hnd as [|y ys Hy Hnd IH]; simpl.
  - constructor; [tauto|constructor].
  - constructor.
    + intros Hin. apply in_app_or in Hin as [Hin|[E|[]]]; [tauto|].
      subst. apply Hx. now left.
    + apply IH. intros Hin. apply Hx. now right.
Qed.

Lemma map_get_set_same (k : string) (v : TrackedOrder)
    (t : list (string * TrackedOrder)) :
  map_get k (map_set k v t) = Some v.
Proof.
  induction t as [|[k' v'] rest IH]; simpl.
  - now rewrite String.eqb_refl.
  - destruct (String.eqb k k') eqn:E; simpl.
    + now rewrite String.eqb_refl.
    + now rewrite E.
Qed.

Lemma map_get_set_other (k k' : string) (v : TrackedOrder)
    (t : list (string * TrackedOrder)) :
  String.eqb k' k = false -> map_get k' (map_set k v t) = map_get k' t.
Proof.
  intros Hk. induction t as [|[k0 v0] rest IH]; simpl.
  - now rewrite Hk.
  - destruct (String.eqb k k0) eqn:E; simpl.
    + apply String.eqb_eq in E. subst. now rewrite Hk.
    + now rewrite IH.
Qed.

Lemma map_get_none (k : string) (t : list (string * TrackedOrder)) :
  map_has k t = false <-> map_get k t = None.
Proof.
  induction t as [|[k' v'] rest IH]; simpl; [tauto|].
  destruct (String.eqb k k'); simpl; [split; discriminate|exact IH].
Qed.

Lemma map_get_in (k : string) (v : TrackedOrder)
    (t : list (string * TrackedOrder)) :
  map_get k t = Some v -> In (k, v) t.
Proof.
  induction t as [|[k' v'] rest IH]; simpl; [discriminate|].
  destruct (String.eqb k k') eqn:E.
  - apply String.eqb_eq in E. intros H. inversion H; subst. now left.
  - intros H. right. now apply IH.
Qed.


(** X1: tracking an order that is already tracked changes nothing and
    writes nothing, whoever the user and whatever the creation time given
    the second time. *)
Theorem trackOrder_again_is_noop (t1 t2 : Z) (m : OrderMonitor) (o : string)
    (u u' : Z) (created created' : option Z) :
  trackOrder t2 (fst (trackOrder t1 m o u created)) o u' created'
  = (fst (trackOrder t1 m o u created), []).
Proof.
  unfold trackOrder at 2 3.
  destruct (map_has o (tracked m)) eqn:E; cbn [fst].
  - unfold trackOrder. now rewrite E.
  - unfold trackOrder. cbn [tracked]. now rewrite map_has_set.
Qed.


(** *** Every operation keeps the map well formed *)

Lemma unique_set (k : string) (v : TrackedOrder) (m : OrderMonitor) (n : Z) :
  unique m -> unique (mkMonitor (map_set k v (tracked m)) n).
Proof.
  unfold unique, getTrackedOrderIds. cbn [tracked]. intros H.
  destruct (map_has k (tracked m)) eqn:E.
  - now rewrite keys_set_present.
  - rewrite keys_set_absent by assumption. apply NoDup_snoc; [assumption|].
    rewrite in_keys_has. congruence.
Qed.

Lemma keyed_set (k : string) (v : TrackedOrder) (m : OrderMonitor) (n : Z) :
  keyed m -> orderId v = k -> keyed (mkMonitor (map_set k v (tracked m)) n).
Proof.
  intros Hk Hv k' v' Hin. cbn [tracked] in Hin.
  apply in_map_set in Hin as [E|E]; [|now apply Hk].
  inversion E; subst. reflexivity.
Qed.

Lemma unique_untrack (m : OrderMonitor) (k : string) :
  unique m -> unique (untrackOrder m k).
Proof.
  unfold unique, getTrackedOrderIds, untrackOrder. cbn [tracked].
  rewrite keys_delete. apply NoDup_filter.
Qed.

Lemma pollOrder_unique (d : Deps) (m : OrderMonitor) (o : TrackedOrder) :
  unique m -> unique (fst (pollOrder d m o)).
Proof.
  unfold unique, getTrackedOrderIds. intros H.
  unfold pollOrder, pollOrder_try.
  destruct (getOrderStatus d (orderId o)) as [status|]; [|exact H].
  destruct (String.eqb (st_status status) (lastStatus o));
    [cbn [fst tracked]; now rewrite keys_mutate|].
  destruct (onStatusChange d _ _ _ _ _); [destruct (is_terminal _)|];
    cbn [fst tracked untrackOrder];
    rewrite ?keys_delete, keys_mutate; try assumption.
  now apply NoDup_filter.
Qed.

Lemma pollAll_unique (d : Deps) (batch : list TrackedOrder) :
  forall m, unique m -> unique (fst (pollAll d m batch)).
Proof.
  induction batch as [|o rest IH]; intros m H; simpl; [assumption|].
  pose proof (pollOrder_unique d m o H) as H1.
  destruct (pollOrder d m o) as [m1 e1]. cbn [fst] in H1.
  specialize (IH m1 H1).
  destruct (pollAll d m1 rest) as [m2 e2]. exact IH.
Qed.

Lemma load_row_keeps (clockAt : string -> Z) (m : OrderMonitor)
    (r : PendingRow) (n : Z) :
  keyed m /\ unique m ->
  keyed (mkMonitor (load_row clockAt (tracked m) r) n) /\
  unique (mkMonitor (load_row clockAt (tracked m) r) n).
Proof.
  intros [Hk Hu]. unfold load_row.
  destruct (map_has (p_sideshiftOrderId r) (tracked m)).
  - split; [intros k v Hin; now apply Hk|exact Hu].
  - split; [now apply keyed_set|now apply unique_set].
Qed.

Lemma load_rows_keeps (clockAt : string -> Z) (rows : list PendingRow) :
  forall m n, keyed m /\ unique m ->
    keyed (mkMonitor (load_rows clockAt rows (tracked m)) n) /\
    unique (mkMonitor (load_rows clockAt rows (tracked m)) n).
Proof.
  unfold load_rows.
  induction rows as [|r rest IH]; intros m n H; simpl.
  - destruct H as [Hk Hu]. split; [intros k v Hin; now apply Hk|exact Hu].
  - apply (IH (mkMonitor (load_row clockAt (tracked m) r) n) n).
    now apply load_row_keeps.
Qed.

Lemma loadPendingOrders_keeps (clockAt : string -> Z)
    (pendingOrders pendingWatched : outcome (list PendingRow))
    (m : OrderMonitor) :
  keyed m /\ unique m ->
  keyed (loadPendingOrders clockAt pendingOrders pendingWatched m) /\
  unique (loadPendingOrders clockAt pendingOrders pendingWatched m).
Proof.
  intros H. unfold loadPendingOrders.
  destruct pendingOrders as [os|]; [|exact H].
  pose proof (load_rows_keeps clockAt os m (activePollCount m) H) as H1.
  destruct pendingWatched as [ws|]; [|exact H1].
  apply (load_rows_keeps clockAt ws
           (mkMonitor (load_rows clockAt os (tracked m)) (activePollCount m))
           (activePollCount m) H1).
Qed.

(** X2: starting from the empty monitor, every operation keeps each entry
    stored under its own order id and at most one entry per id: tracking,
    untracking, a poll, a tick, the reload and the reconciliation. *)
Theorem operations_keep_map_well_formed (d : Deps) (clockAt : string -> Z)
    (now : Z) (m : OrderMonitor) (oid : string) (tg : Z) (created : option Z)
    (order : TrackedOrder)
    (pendingOrders pendingWatched : outcome (list PendingRow)) :
  (keyed empty /\ unique empty) /\
  (keyed m /\ unique m ->
   (keyed (fst (trackOrder now m oid tg created)) /\
    unique (fst (trackOrder now m oid tg created))) /\
   (keyed (untrackOrder m oid) /\ unique (untrackOrder m oid)) /\
   (keyed (fst (pollOrder d m order)) /\ unique (fst (pollOrder d m order))) /\
   (keyed (fst (tick d now m)) /\ unique (fst (tick d now m))) /\
   (keyed (loadPendingOrders clockAt pendingOrders pendingWatched m) /\
    unique (loadPendingOrders clockAt pendingOrders pendingWatched m)) /\
   (keyed (fst (reconcile d clockAt pendingOrders pendingWatched m)) /\
    unique (fst (reconcile d clockAt pendingOrders pendingWatched m)))).
Proof.
  split.
  - split; [intros k v []|constructor].
  - intros [Hk Hu]. repeat split.
    + unfold trackOrder. destruct (map_has oid (tracked m)); cbn [fst];
        [assumption|now apply keyed_set].
    + unfold trackOrder. destruct (map_has oid (tracked m)); cbn [fst];
        [assumption|now apply unique_set].
    + now apply keyed_untrack.
    + now apply unique_untrack.
    + now apply pollOrder_keeps.
    + now apply pollOrder_unique.
    + now apply tick_keeps.
    + unfold tick.
      destruct (filter (due now) (map snd (tracked m))) as [|x xs];
        [assumption|].
      destruct (slice0 _ (x :: xs)) as [|y ys]; [assumption|].
      now apply pollAll_unique.
    + now apply loadPendingOrders_keeps.
    + now apply loadPendingOrders_keeps.
    + unfold reconcile. apply pollAll_keeps.
      now apply loadPendingOrders_keeps.
    + unfold reconcile. apply pollAll_unique.
      now apply loadPendingOrders_keeps.
Qed.


Lemma operations_keep_map_well_formed_witness :
  keyed (fst (tick settling 1000000 watching_x1)) /\
  unique (fst (tick settling 1000000 watching_x1)).
Proof.
  apply (operations_keep_map_well_formed settling (fun _ => 0) 1000000
           watching_x1 "X1" 42 None x1 Rejected Rejected).
  split; [exact keyed_watching_x1|].
  unfold unique; simpl. constructor; [tauto|constructor].
Defined.


(** *** Backoff and the tick *)

(** X3: the polling interval is never below 15 s nor above 15 min, and it
    never shrinks as an order ages. *)
Theorem getBackoffInterval_bounded_monotone (a b : Z) :
  15000 <= getBackoffInterval a <= 900000 /\
  (a <= b -> getBackoffInterval a <= getBackoffInterval b).
Proof.
  unfold getBackoffInterval.
  repeat match goal with
         | |- context [?x <? ?y] => destruct (Z.ltb_spec x y)
         end; lia.
Qed.

Lemma getBackoffInterval_bounded_monotone_witness :
  getBackoffInterval 299999 <= getBackoffInterval 300000.
Proof.
  apply (proj2 (getBackoffInterval_bounded_monotone 299999 300000)). lia.
Defined.

Lemma tick_polls_batch (d : Deps) (now : Z) (m : OrderMonitor) :
  polls (snd (tick d now m))
  = map orderId (slice0 (MAX_CONCURRENT - activePollCount m) (dueOrders now m)).
Proof.
  unfold tick, dueOrders.
  destruct (filter (due now) (map snd (tracked m))) as [|x xs] eqn:Ef.
  - unfold slice0. destruct (_ <? 0); now rewrite firstn_nil.
  - destruct (slice0 _ (x :: xs)) as [|y ys] eqn:Es; [reflexivity|].
    apply pollAll_polls.
Qed.

(** X4: with no more polls in flight than the cap, a tick requests the
    first [MAX_CONCURRENT - activePollCount] due orders of the map, in the
    order they were added, each once, and so never more than the cap
    leaves room for. *)
Theorem tick_respects_cap (d : Deps) (now : Z) (m : OrderMonitor) :
  0 <= activePollCount m <= MAX_CONCURRENT ->
  polls (snd (tick d now m))
  = map orderId
      (firstn (Z.to_nat (MAX_CONCURRENT - activePollCount m))
         (dueOrders now m)) /\
  Z.of_nat (List.length (polls (snd (tick d now m))))
  <= MAX_CONCURRENT - activePollCount m.
Proof.
  intros H. rewrite tick_polls_batch. unfold slice0.
  destruct (Z.ltb_spec (MAX_CONCURRENT - activePollCount m) 0); [lia|].
  split; [reflexivity|].
  rewrite length_map, length_firstn. lia.
Qed.

Lemma tick_respects_cap_witness :
  Z.of_nat (List.length (polls (snd (tick settling 1000000 watching_x1))))
  <= MAX_CONCURRENT - activePollCount watching_x1.
Proof.
  apply (tick_respects_cap settling 1000000 watching_x1).
  unfold MAX_CONCURRENT; simpl; lia.
Defined.

(** X5: with more polls in flight than the cap, the negative end of the
    slice counts from the end of the due orders: the tick requests the due
    orders in map order, leaving out the last
    [activePollCount - MAX_CONCURRENT] of them (all of them when there are
    no more than that), however many that leaves. *)
Theorem tick_over_cap_drops_from_end (d : Deps) (now : Z) (m : OrderMonitor) :
  MAX_CONCURRENT < activePollCount m ->
  polls (snd (tick d now m))
  = map orderId
      (firstn (List.length (dueOrders now m)
               - Z.to_nat (activePollCount m - MAX_CONCURRENT))
         (dueOrders now m)) /\
  List.length (polls (snd (tick d now m)))
  = (List.length (dueOrders now m)
     - Z.to_nat (activePollCount m - MAX_CONCURRENT))%nat.
Proof.
  intros H. rewrite tick_polls_batch. unfold slice0.
  destruct (Z.ltb_spec (MAX_CONCURRENT - activePollCount m) 0); [|lia].
  replace (Z.to_nat
             (Z.of_nat (List.length (dueOrders now m))
              + (MAX_CONCURRENT - activePollCount m)))
    with (List.length (dueOrders now m)
          - Z.to_nat (activePollCount m - MAX_CONCURRENT))%nat by lia.
  split; [reflexivity|].
  rewrite length_map, length_firstn. lia.
Qed.

Lemma tick_over_cap_drops_from_end_witness :
  polls (snd (tick settling 1000000 busy_monitor)) = ["X1"; "X2"].
Proof.
  apply (tick_over_cap_drops_from_end settling 1000000 busy_monitor).
  unfold MAX_CONCURRENT; simpl; lia.
Defined.

Lemma map_get_mutate_same (k : string) (v : TrackedOrder)
    (t : list (string * TrackedOrder)) :
  map_has k t = true -> map_get k (map_mutate k v t) = Some v.
Proof.
  intros H. unfold map_mutate. rewrite H. apply map_get_set_same.
Qed.

Lemma map_get_delete_same (k : string) (t : list (string * TrackedOrder)) :
  map_get k (map_delete k t) = None.
Proof. apply map_get_none, map_has_delete. Qed.

(** The entry of a polled order after a reply: gone, or stamped with the
    time of the reply and the status of the reply. *)
Lemma pollOrder_entry (d : Deps) (m : OrderMonitor) (o : TrackedOrder)
    (status : SideShiftOrderStatus) :
  map_has (orderId o) (tracked m) = true ->
  getOrderStatus d (orderId o) = Resolved status ->
  map_get (orderId o) (tracked (fst (pollOrder d m o))) = None \/
  map_get (orderId o) (tracked (fst (pollOrder d m o)))
  = Some (mkTracked (orderId o) (telegramId o) (createdAt o)
            (dateNow d (orderId o)) (st_status status)).
Proof.
  intros Hh Hg. unfold pollOrder, pollOrder_try. rewrite Hg.
  cbn [tracked activePollCount].
  destruct (String.eqb (st_status status) (lastStatus o)) eqn:E.
  - right. cbn [fst tracked]. rewrite map_get_mutate_same by assumption.
    apply String.eqb_eq in E. now rewrite E.
  - destruct (onStatusChange d _ _ _ _ _); [destruct (is_terminal _)|];
      cbn [fst tracked untrackOrder].
    + left. apply map_get_delete_same.
    + right. now apply map_get_mutate_same.
    + right. now apply map_get_mutate_same.
Qed.




(** X7: a status change is acted on once.  After a poll that received a
    reply, the entry the next poll starts from already carries the status of
    that reply, also when the callback threw; a poll that gets the same
    status again only makes the request: no update, no callback. *)
Theorem same_status_again_notifies_nothing (d d' : Deps) (m : OrderMonitor)
    (o o1 : TrackedOrder) (status status' : SideShiftOrderStatus) :
  In (orderId o, o) (tracked m) ->
  getOrderStatus d (orderId o) = Resolved status ->
  map_get (orderId o) (tracked (fst (pollOrder d m o))) = Some o1 ->
  getOrderStatus d' (orderId o) = Resolved status' ->
  st_status status' = st_status status ->
  snd (pollOrder d' (fst (pollOrder d m o)) o1) = [GetOrderStatus (orderId o)].
Proof.
  intros Hin Hg H1 Hg' Hs.
  destruct (pollOrder_entry d m o status (in_map_has _ _ _ Hin) Hg) as [He|He];
    rewrite He in H1; [discriminate|].
  inversion H1; subst o1; clear H1.
  unfold pollOrder at 1. unfold pollOrder_try.
  cbn [orderId lastStatus]. rewrite Hg', Hs, String.eqb_refl. reflexivity.
Qed.

Lemma same_status_again_notifies_nothing_witness :
  snd (pollOrder
         (mkDeps (fun _ => Resolved x1_settled) (fun _ _ _ _ _ => false)
            (fun _ => 300000))
         (fst (pollOrder
                 (mkDeps (fun _ => Resolved x1_settled)
                    (fun _ _ _ _ _ => false) (fun _ => 300000))
                 watching_x1 x1))
         (mkTracked "X1" 42 0 300000 "settled"))
  = [GetOrderStatus "X1"].
Proof.
  apply (same_status_again_notifies_nothing
           (mkDeps (fun _ => Resolved x1_settled) (fun _ _ _ _ _ => false)
              (fun _ => 300000))
           (mkDeps (fun _ => Resolved x1_settled) (fun _ _ _ _ _ => false)
              (fun _ => 300000))
           watching_x1 x1 (mkTracked "X1" 42 0 300000 "settled")
           x1_settled x1_settled).
  - now left.
  - reflexivity.
  - reflexivity.
  - reflexivity.
  - reflexivity.
Defined.


(** *** Reload and reconciliation *)

Lemma load_row_has (clockAt : string -> Z) (t : list (string * TrackedOrder))
    (r : PendingRow) (k : string) :
  map_has k (load_row clockAt t r)
  = map_has k t || String.eqb k (p_sideshiftOrderId r).
Proof.
  unfold load_row.
  destruct (map_has (p_sideshiftOrderId r) t) eqn:E.
  - destruct (String.eqb k (p_sideshiftOrderId r)) eqn:Ek.
    + apply String.eqb_eq in Ek. subst. now rewrite E.
    + now rewrite orb_false_r.
  - destruct (String.eqb k (p_sideshiftOrderId r)) eqn:Ek.
    + apply String.eqb_eq in Ek. subst. rewrite map_has_set.
      now rewrite orb_true_r.
    + rewrite orb_false_r.
      destruct (map_has k t) eqn:Ek'.
      * apply in_keys_has. rewrite keys_set_absent by assumption.
        apply in_or_app. left. now apply in_keys_has.
      * apply not_true_is_false. intros Hc. apply in_keys_has in Hc.
        rewrite keys_set_absent in Hc by assumption.
        apply in_app_or in Hc as [Hc|[Hc|[]]].
        -- apply in_keys_has in Hc. congruence.
        -- subst. now rewrite String.eqb_refl in Ek.
Qed.

Lemma load_rows_has (clockAt : string -> Z) (rows : list PendingRow) :
  forall t k,
    map_has k (load_rows clockAt rows t)
    = map_has k t
      || existsb (fun r => String.eqb k (p_sideshiftOrderId r)) rows.
Proof.
  unfold load_rows.
  induction rows as [|r rest IH]; intros t k; simpl.
  - now rewrite orb_false_r.
  - rewrite IH, load_row_has. now rewrite orb_assoc.
Qed.

Lemma load_row_get (clockAt : string -> Z) (t : list (string * TrackedOrder))
    (r : PendingRow) (k : string) (v : TrackedOrder) :
  map_get k t = Some v -> map_get k (load_row clockAt t r) = Some v.
Proof.
  intros H. unfold load_row.
  destruct (map_has (p_sideshiftOrderId r) t) eqn:E; [assumption|].
  rewrite map_get_set_other; [assumption|].
  destruct (String.eqb k (p_sideshiftOrderId r)) eqn:Ek; [|reflexivity].
  apply String.eqb_eq in Ek. subst.
  apply map_get_none in E. congruence.
Qed.

Lemma load_rows_get (clockAt : string -> Z) (rows : list PendingRow) :
  forall t k v,
    map_get k t = Some v -> map_get k (load_rows clockAt rows t) = Some v.
Proof.
  unfold load_rows.
  induction rows as [|r rest IH]; intros t k v H; simpl; [assumption|].
  apply IH. now apply load_row_get.
Qed.

Lemma load_rows_present (clockAt : string -> Z) (rows : list PendingRow) :
  forall t,
    (forall r, In r rows -> map_has (p_sideshiftOrderId r) t = true) ->
    load_rows clockAt rows t = t.
Proof.
  unfold load_rows.
  induction rows as [|r rest IH]; intros t H; simpl; [reflexivity|].
  unfold load_row at 2. rewrite (H r (or_introl eq_refl)).
  apply IH. intros r' Hr'. apply H. now right.
Qed.

Lemma existsb_row (rows : list PendingRow) (r : PendingRow) :
  In r rows ->
  existsb (fun r' => String.eqb (p_sideshiftOrderId r) (p_sideshiftOrderId r'))
    rows = true.
Proof.
  intros H. apply existsb_exists. exists r. split; [assumption|].
  apply String.eqb_refl.
Qed.

(** X8: reloading is idempotent: a second [loadPendingOrders] that gets the
    same rows leaves the monitor as the first one left it. *)
Theorem loadPendingOrders_idempotent (clockAt clockAt' : string -> Z)
    (pendingOrders pendingWatched : outcome (list PendingRow))
    (m : OrderMonitor) :
  loadPendingOrders clockAt' pendingOrders pendingWatched
    (loadPendingOrders clockAt pendingOrders pendingWatched m)
  = loadPendingOrders clockAt pendingOrders pendingWatched m.
Proof.
  unfold loadPendingOrders.
  destruct pendingOrders as [os|]; [|reflexivity].
  destruct pendingWatched as [ws|]; cbn [tracked activePollCount].
  - rewrite (load_rows_present clockAt' os).
    + rewrite (load_rows_present clockAt' ws); [reflexivity|].
      intros r Hr. rewrite load_rows_has, (existsb_row ws r Hr).
      apply orb_true_r.
    + intros r Hr. rewrite !load_rows_has, (existsb_row os r Hr).
      now rewrite orb_true_r.
  - rewrite (load_rows_present clockAt' os); [reflexivity|].
    intros r Hr. rewrite load_rows_has, (existsb_row os r Hr).
    apply orb_true_r.
Qed.

(** X9: a reload never touches an entry that is already tracked, and when
    both queries answer, every row they return is tracked afterwards; when
    the first query fails the monitor is left as it was. *)
Theorem loadPendingOrders_keeps_and_covers (clockAt : string -> Z)
    (os ws : list PendingRow) (pendingWatched : outcome (list PendingRow))
    (m : OrderMonitor) :
  (forall k v,
      map_get k (tracked m) = Some v ->
      map_get k
        (tracked (loadPendingOrders clockAt (Resolved os) pendingWatched m))
      = Some v) /\
  (forall r,
      In r (os ++ ws) ->
      map_has (p_sideshiftOrderId r)
        (tracked (loadPendingOrders clockAt (Resolved os) (Resolved ws) m))
      = true) /\
  loadPendingOrders clockAt Rejected pendingWatched m = m.
Proof.
  split; [|split; [|reflexivity]].
  - intros k v H. unfold loadPendingOrders.
    destruct pendingWatched as [ws'|]; cbn [tracked];
      repeat apply load_rows_get; assumption.
  - intros r Hr. unfold loadPendingOrders. cbn [tracked].
    rewrite !load_rows_has.
    apply in_app_or in Hr as [Hr|Hr];
      rewrite (existsb_row _ r Hr);
      rewrite ?orb_true_r; reflexivity.
Qed.

Lemma loadPendingOrders_keeps_and_covers_witness :
  map_get "X1"
    (tracked (loadPendingOrders (fun _ => 5) (Resolved pending_rows)
                (Resolved []) watching_x1))
  = Some x1.
Proof.
  apply (proj1 (loadPendingOrders_keeps_and_covers (fun _ => 5) pending_rows
                  [] (Resolved []) watching_x1)).
  reflexivity.
Defined.

(** X10: a reconciliation requests every order tracked after its reload,
    each once and in the order of the map, whether or not it is due and
    however many polls are in flight. *)
Theorem reconcile_polls_every_tracked (d : Deps) (clockAt : string -> Z)
    (pendingOrders pendingWatched : outcome (list PendingRow))
    (m : OrderMonitor) :
  keyed m -> unique m ->
  polls (snd (reconcile d clockAt pendingOrders pendingWatched m))
  = getTrackedOrderIds
      (loadPendingOrders clockAt pendingOrders pendingWatched m).
Proof.
  intros Hk Hu. unfold reconcile. rewrite pollAll_polls.
  destruct (loadPendingOrders_keeps clockAt pendingOrders pendingWatched m
              (conj Hk Hu)) as [Hk1 _].
  unfold getTrackedOrderIds.
  remember (tracked (loadPendingOrders clockAt pendingOrders pendingWatched m))
    as t eqn:Et.
  assert (Hall : forall k v, In (k, v) t -> orderId v = k).
  { intros k v Hin. apply Hk1. now rewrite <- Et. }
  clear Et Hk1. induction t as [|[k v] rest IH]; simpl; [reflexivity|].
  rewrite (Hall k v (or_introl eq_refl)). f_equal.
  apply IH. intros k' v' Hin. apply Hall. now right.
Qed.

Lemma reconcile_polls_every_tracked_witness :
  polls (snd (reconcile settling (fun _ => 5) (Resolved pending_rows)
                Rejected watching_x1))
  = ["X1"; "X2"].
Proof.
  apply (reconcile_polls_every_tracked settling (fun _ => 5)
           (Resolved pending_rows) Rejected watching_x1).
  - exact keyed_watching_x1.
  - unfold unique; simpl. constructor; [tauto|constructor].
Defined.

End MonitorMore.

(* ------------------------------------------------------------------ *)
(** ** The scheduler run by one instance *)

Module DCAMore.

Import JS.
Import SideShift.
Import DCA.

Section AnyHost.

Variable zone : Zone.

Lemma static_with_next (t : Z) (s : Schedule) :
  static (with_nextExecutionAt t s) = static s.
Proof. reflexivity. Qed.

Lemma static_with_executed (n : Z) (s : Schedule) :
  static (with_ordersExecuted n s) = static s.
Proof. reflexivity. Qed.

Lemma static_update (ids : list Z) (t : Z) (rows : list Schedule) :
  map static (update_nextExecutionAt ids t rows) = map static rows.
Proof.
  unfold update_nextExecutionAt. rewrite map_map. apply map_ext.
  intros s. now destruct (in_ids ids s).
Qed.

Lemma static_increment (sid : Z) (rows : list Schedule) :
  map static (increment_ordersExecuted sid rows) = map static rows.
Proof.
  unfold increment_ordersExecuted. rewrite map_map. apply map_ext.
  intros s. now destruct (id s =? sid).
Qed.

Lemma static_ids (rows rows' : list Schedule) :
  map static rows' = map static rows -> map id rows' = map id rows.
Proof.
  intros H.
  assert (E : forall l, map id l = map id (map static l)).
  { intros l. rewrite map_map. reflexivity. }
  now rewrite (E rows'), (E rows), H.
Qed.

(** What one write does to the three tables. *)
Lemma apply_write_static (w : Write) (d : Db) :
  map static (dcaSchedules (apply_write d w)) = map static (dcaSchedules d).
Proof.
  destruct w; cbn [apply_write dcaSchedules]; try reflexivity.
  - apply static_increment.
  - apply static_update.
Qed.

Lemma writes_static (ws : list Write) :
  forall d,
    map static (dcaSchedules (fold_left apply_write ws d))
    = map static (dcaSchedules d).
Proof.
  induction ws as [|w ws IH]; intros d; simpl; [reflexivity|].
  now rewrite IH, apply_write_static.
Qed.

Lemma executeSchedule_static (a : Answers) (c : Z) (s : Schedule) (d : Db) :
  map static (dcaSchedules (executeSchedule zone a c s d))
  = map static (dcaSchedules d).
Proof. apply writes_static. Qed.

Lemma claim_static (now c : Z) (d : Db) :
  map static (dcaSchedules (snd (claim zone now c d))) = map static (dcaSchedules d).
Proof.
  unfold claim. destruct (filter (is_due now) (dcaSchedules d));
    [reflexivity|]. cbn [snd dcaSchedules]. apply static_update.
Qed.

Lemma execute_all_static (answers : Schedule -> Answers)
    (clockAt : Schedule -> Z) (l : list Schedule) :
  forall d,
    map static (dcaSchedules (execute_all zone answers clockAt l d))
    = map static (dcaSchedules d).
Proof.
  unfold execute_all.
  induction l as [|s l IH]; intros d; simpl; [reflexivity|].
  now rewrite IH, executeSchedule_static.
Qed.

Lemma processSchedules_eq (answers : Schedule -> Answers)
    (clockAt : Schedule -> Z) (now c0 : Z) (d : Db) :
  processSchedules zone answers clockAt now c0 d
  = (fst (claim zone now c0 d),
     execute_all zone answers clockAt (fst (claim zone now c0 d)) (snd (claim zone now c0 d))).
Proof.
  unfold processSchedules. now destruct (claim zone now c0 d).
Qed.

Lemma executeSchedule_orders (a : Answers) (c : Z) (s : Schedule) (d : Db) :
  exists rows,
    orders (executeSchedule zone a c s d) = orders d ++ rows /\
    List.length rows = new_orders a.
Proof.
  unfold executeSchedule, executeSchedule_writes, new_orders.
  destruct (path a) as [| |q o|]; simpl.
  - exists []. now rewrite app_nil_r.
  - exists []. now rewrite app_nil_r.
  - eexists [_]. split; reflexivity.
  - exists []. now rewrite app_nil_r.
Qed.

Lemma execute_all_orders (answers : Schedule -> Answers)
    (clockAt : Schedule -> Z) (l : list Schedule) :
  forall d,
    exists rows,
      orders (execute_all zone answers clockAt l d) = orders d ++ rows /\
      (List.length rows <= List.length l)%nat.
Proof.
  unfold execute_all.
  induction l as [|s l IH]; intros d; simpl.
  - exists []. split; [now rewrite app_nil_r|apply Nat.le_refl].
  - destruct (IH (executeSchedule zone (answers s) (clockAt s) s d))
      as [rows [E L]].
    destruct (executeSchedule_orders (answers s) (clockAt s) s d)
      as [r1 [E1 L1]].
    exists (r1 ++ rows). split.
    + now rewrite E, E1, app_assoc.
    + rewrite length_app, L1. unfold new_orders.
      destruct (path (answers s)); simpl; lia.
Qed.

(** X11: a tick of the scheduler adds, removes, deactivates and edits no
    plan: only the two counters [nextExecutionAt] and [ordersExecuted] of
    the rows change; and the orders table is only appended to, by at most
    one row for each plan claimed. *)
Theorem processSchedules_keeps_plans (answers : Schedule -> Answers)
    (clockAt : Schedule -> Z) (now c0 : Z) (d : Db) :
  map static (dcaSchedules (snd (processSchedules zone answers clockAt now c0 d)))
  = map static (dcaSchedules d) /\
  exists rows,
    orders (snd (processSchedules zone answers clockAt now c0 d))
    = orders d ++ rows /\
    (List.length rows
     <= List.length (fst (processSchedules zone answers clockAt now c0 d)))%nat.
Proof.
  rewrite processSchedules_eq. cbn [fst snd]. split.
  - now rewrite execute_all_static, claim_static.
  - destruct (execute_all_orders answers clockAt (fst (claim zone now c0 d))
                (snd (claim zone now c0 d))) as [rows [E L]].
    exists rows. split; [|assumption].
    rewrite E. f_equal. unfold claim.
    now destruct (filter (is_due now) (dcaSchedules d)).
Qed.

(** *** The lock sentinel *)

Lemma in_ids_in (ids : list Z) (s : Schedule) :
  in_ids ids s = true <-> In (id s) ids.
Proof.
  unfold in_ids. rewrite existsb_exists. split.
  - intros [x [Hx E]]. apply Z.eqb_eq in E. now subst.
  - intros H. exists (id s). split; [assumption|apply Z.eqb_refl].
Qed.

Lemma not_due_before (now : Z) (s : Schedule) :
  now < nextExecutionAt s -> is_due now s = false.
Proof.
  intros H. unfold is_due.
  destruct (Z.leb_spec (nextExecutionAt s) now); [lia|apply andb_false_r].
Qed.

(** X12: a plan claimed at [now] is not claimed again while the lock
    sentinel stands: a second claim before [lockTime] returns only rows the
    first claim did not touch, which were not due at [now]. *)
Theorem claim_again_skips_claimed (now c now' c' : Z) (d : Db) (s : Schedule) :
  now' < lockTime zone c ->
  In s (fst (claim zone now' c' (snd (claim zone now c d)))) ->
  In s (dcaSchedules d) /\ is_due now s = false /\
  ~ In (id s) (map id (fst (claim zone now c d))).
Proof.
  intros Hlock Hin.
  assert (Hfst : forall n k e, fst (claim zone n k e) = filter (is_due n) (dcaSchedules e)).
  { intros n k e. unfold claim.
    now destruct (filter (is_due n) (dcaSchedules e)). }
  rewrite Hfst in Hin. apply filter_In in Hin as [Hin Hdue].
  rewrite Hfst.
  assert (Hnot : forall r, In r (dcaSchedules d) ->
                   ~ In (id r) (map id (filter (is_due now) (dcaSchedules d))) ->
                   is_due now r = false).
  { intros r Hr Hn. destruct (is_due now r) eqn:E; [|reflexivity].
    exfalso. apply Hn. apply in_map. apply filter_In. now split. }
  unfold claim in Hin.
  destruct (filter (is_due now) (dcaSchedules d)) as [|x xs] eqn:Ef.
  - cbn [snd] in Hin. split; [assumption|]. split; [|intros []].
    apply Hnot; [assumption|intros []].
  - cbn [snd dcaSchedules] in Hin. unfold update_nextExecutionAt in Hin.
    apply in_map_iff in Hin as [r [Er Hr]].
    destruct (in_ids (map id (x :: xs)) r) eqn:Ei.
    + subst s. rewrite not_due_before in Hdue; [discriminate|].
      exact Hlock.
    + subst s. assert (Hn : ~ In (id r) (map id (x :: xs))).
      { intros H. apply in_ids_in in H. congruence. }
      split; [assumption|]. split; [|assumption].
      now apply Hnot.
Qed.

(** *** What a tick leaves behind *)

Lemma update_next_bound (ids : list Z) (sid t b : Z) (rows : list Schedule) :
  b <= t ->
  (forall r, In r rows -> In (id r) ids -> b <= nextExecutionAt r) ->
  forall r, In r (update_nextExecutionAt [sid] t rows) ->
            In (id r) ids -> b <= nextExecutionAt r.
Proof.
  intros Hb H r Hr Hid. unfold update_nextExecutionAt in Hr.
  apply in_map_iff in Hr as [r0 [E Hr0]].
  destruct (in_ids [sid] r0); subst r.
  - exact Hb.
  - now apply H.
Qed.

Lemma increment_bound (ids : list Z) (sid b : Z) (rows : list Schedule) :
  (forall r, In r rows -> In (id r) ids -> b <= nextExecutionAt r) ->
  forall r, In r (increment_ordersExecuted sid rows) ->
            In (id r) ids -> b <= nextExecutionAt r.
Proof.
  intros H r Hr Hid. unfold increment_ordersExecuted in Hr.
  apply in_map_iff in Hr as [r0 [E Hr0]].
  destruct (id r0 =? sid); subst r; exact (H r0 Hr0 Hid).
Qed.

Lemma executeSchedule_bound (a : Answers) (c b : Z) (s : Schedule)
    (ids : list Z) (d : Db) :
  b <= addMinutes zone c RETRY_DELAY_MINUTES ->
  b <= addHours zone c (intervalHours s) ->
  (forall r, In r (dcaSchedules d) -> In (id r) ids -> b <= nextExecutionAt r) ->
  forall r, In r (dcaSchedules (executeSchedule zone a c s d)) ->
            In (id r) ids -> b <= nextExecutionAt r.
Proof.
  intros Hm Hh H. unfold executeSchedule, executeSchedule_writes.
  destruct (path a) as [| |q o|]; cbn [releaseLock scheduleRetry success_writes
    fold_left apply_write dcaSchedules].
  - now apply update_next_bound.
  - now apply update_next_bound.
  - now apply increment_bound.
  - exact H.
Qed.

Lemma set_local_steady (t delta : Z) :
  steady zone t delta -> set_local zone t delta = t + delta.
Proof. unfold steady, set_local. intros H. rewrite H. lia. Qed.

(** X13: after a tick, no plan it claimed is due again for five minutes,
    however its execution ended: a success leaves the ten-minute sentinel, a
    failure schedules the retry five minutes on, a plan without a wallet
    moves on by its interval, and an execution that could write nothing
    leaves the sentinel.  The clocks do not run backwards, the intervals are
    positive, and the host's offset from UTC does not change between an
    instant at which the scheduler computes a time and the time it
    computes. *)
Theorem processSchedules_rests_claimed (answers : Schedule -> Answers)
    (clockAt : Schedule -> Z) (now c0 now' : Z) (d : Db) (r : Schedule) :
  now <= c0 ->
  steady zone c0 (MAX_PROCESSING_TIME_MINUTES * 60000) ->
  (forall s, In s (dcaSchedules d) ->
             now <= clockAt s /\ 0 < intervalHours s /\
             steady zone (clockAt s) (RETRY_DELAY_MINUTES * 60000) /\
             steady zone (clockAt s) (intervalHours s * 3600000)) ->
  now' < now + RETRY_DELAY_MINUTES * 60000 ->
  In r (dcaSchedules (snd (processSchedules zone answers clockAt now c0 d))) ->
  In (id r) (map id (fst (processSchedules zone answers clockAt now c0 d))) ->
  is_due now' r = false.
Proof.
  intros Hc Hz Hd Hn Hr Hid. apply not_due_before.
  rewrite processSchedules_eq in Hr, Hid. cbn [fst snd] in Hr, Hid.
  assert (Hsub : forall s, In s (fst (claim zone now c0 d)) ->
                   In s (dcaSchedules d)).
  { intros s Hs. unfold claim in Hs.
    destruct (filter (is_due now) (dcaSchedules d)) eqn:Ef;
      cbn [fst] in Hs; [destruct Hs|].
    rewrite <- Ef in Hs. now apply filter_In in Hs. }
  assert (Hclaim : forall x, In x (dcaSchedules (snd (claim zone now c0 d))) ->
                     In (id x) (map id (fst (claim zone now c0 d))) ->
                     now + RETRY_DELAY_MINUTES * 60000 <= nextExecutionAt x).
  { intros x Hx Hi. unfold claim in Hx, Hi.
    destruct (filter (is_due now) (dcaSchedules d)) as [|y ys];
      cbn [fst snd dcaSchedules] in Hx, Hi; [destruct Hi|].
    unfold update_nextExecutionAt in Hx.
    apply in_map_iff in Hx as [x0 [E Hx0]].
    destruct (in_ids (map id (y :: ys)) x0) eqn:Ei; subst x.
    - cbn [nextExecutionAt with_nextExecutionAt].
      unfold lockTime, addMinutes. rewrite (set_local_steady _ _ Hz).
      unfold MAX_PROCESSING_TIME_MINUTES, RETRY_DELAY_MINUTES. lia.
    - apply in_ids_in in Hi. congruence. }
  enough (Hall : forall x,
             In x (dcaSchedules
                     (execute_all zone answers clockAt
                        (fst (claim zone now c0 d))
                        (snd (claim zone now c0 d)))) ->
             In (id x) (map id (fst (claim zone now c0 d))) ->
             now + RETRY_DELAY_MINUTES * 60000 <= nextExecutionAt x).
  { specialize (Hall r Hr Hid). lia. }
  revert Hclaim Hsub.
  generalize (map id (fst (claim zone now c0 d))) as ids.
  generalize (snd (claim zone now c0 d)) as d1.
  generalize (fst (claim zone now c0 d)) as due.
  clear Hr Hid r. unfold execute_all.
  induction due as [|s due IH]; intros d1 ids Hclaim Hsub; simpl.
  - exact Hclaim.
  - apply IH.
    + destruct (Hd s (Hsub s (or_introl eq_refl))) as (Hc1 & Hi1 & Hz1 & Hz2).
      apply executeSchedule_bound; [| |exact Hclaim].
      * unfold addMinutes. rewrite (set_local_steady _ _ Hz1). lia.
      * unfold addHours. rewrite (set_local_steady _ _ Hz2).
        unfold RETRY_DELAY_MINUTES. nia.
    + intros x Hx. apply Hsub. now right.
Qed.

(** *** The counter and the orders *)

Lemma total_update (ids : list Z) (t : Z) (rows : list Schedule) :
  map ordersExecuted (update_nextExecutionAt ids t rows)
  = map ordersExecuted rows.
Proof.
  unfold update_nextExecutionAt. rewrite map_map. apply map_ext.
  intros s. now destruct (in_ids ids s).
Qed.

Lemma total_increment (sid : Z) (rows : list Schedule) :
  fold_right Z.add 0 (map ordersExecuted (increment_ordersExecuted sid rows))
  = fold_right Z.add 0 (map ordersExecuted rows)
    + Z.of_nat (List.length (filter (fun s => id s =? sid) rows)).
Proof.
  induction rows as [|s rows IH]; [reflexivity|].
  cbn [increment_ordersExecuted map fold_right filter].
  unfold increment_ordersExecuted in IH. rewrite IH.
  destruct (id s =? sid); cbn [ordersExecuted with_ordersExecuted List.length];
    lia.
Qed.

Lemma executeSchedule_total (a : Answers) (c : Z) (s : Schedule) (d : Db) :
  total_executed (executeSchedule zone a c s d)
  = total_executed d
    + Z.of_nat (List.length (rows_of (id s) d)) * Z.of_nat (new_orders a).
Proof.
  unfold executeSchedule, executeSchedule_writes, new_orders, total_executed,
    rows_of.
  destruct (path a) as [| |q o|]; cbn [releaseLock scheduleRetry success_writes
    fold_left apply_write dcaSchedules].
  - rewrite total_update. lia.
  - rewrite total_update. lia.
  - rewrite total_increment. lia.
  - lia.
Qed.

Lemma one_row_per_id (sid : Z) (rows : list Schedule) :
  NoDup (map id rows) -> In sid (map id rows) ->
  List.length (filter (fun s => id s =? sid) rows) = 1%nat.
Proof.
  induction rows as [|r rows IH]; intros Hn Hin; [destruct Hin|].
  cbn [map] in Hn, Hin. inversion Hn as [|x xs Hx Hn']; subst.
  cbn [filter]. destruct (Z.eqb_spec (id r) sid) as [E|E].
  - cbn [List.length]. f_equal.
    assert (Hnone : forall l, ~ In sid (map id l) ->
                      filter (fun s => id s =? sid) l = []).
    { induction l as [|y l IHl]; intros Hy; [reflexivity|].
      cbn [filter]. destruct (Z.eqb_spec (id y) sid) as [Ey|Ey].
      - exfalso. apply Hy. now left.
      - apply IHl. intros Hl. apply Hy. now right. }
    rewrite Hnone; [reflexivity|]. now rewrite <- E.
  - destruct Hin as [Hin|Hin]; [contradiction|]. now apply IH.
Qed.

(** X14: [ordersExecuted] counts the orders: over a tick, on a table with
    one row for each plan id, the sum of [ordersExecuted] grows by exactly
    the number of rows added to [orders]. *)
Theorem processSchedules_counts_orders (answers : Schedule -> Answers)
    (clockAt : Schedule -> Z) (now c0 : Z) (d : Db) :
  NoDup (map id (dcaSchedules d)) ->
  total_executed (snd (processSchedules zone answers clockAt now c0 d))
  - total_executed d
  = Z.of_nat (List.length
                (orders (snd (processSchedules zone answers clockAt now c0 d))))
    - Z.of_nat (List.length (orders d)).
Proof.
  intros Hn. rewrite processSchedules_eq. cbn [snd].
  assert (Hsub : forall s, In s (fst (claim zone now c0 d)) ->
                   In (id s) (map id (dcaSchedules d))).
  { intros s Hs. apply in_map. unfold claim in Hs.
    destruct (filter (is_due now) (dcaSchedules d)) eqn:Ef;
      cbn [fst] in Hs; [destruct Hs|].
    rewrite <- Ef in Hs. now apply filter_In in Hs. }
  assert (Hids : map id (dcaSchedules (snd (claim zone now c0 d)))
                 = map id (dcaSchedules d)).
  { apply static_ids, claim_static. }
  assert (Ht : total_executed (snd (claim zone now c0 d)) = total_executed d).
  { unfold total_executed, claim.
    destruct (filter (is_due now) (dcaSchedules d)); [reflexivity|].
    cbn [snd dcaSchedules]. now rewrite total_update. }
  assert (Ho : orders (snd (claim zone now c0 d)) = orders d).
  { unfold claim. now destruct (filter (is_due now) (dcaSchedules d)). }
  rewrite <- Ht, <- Ho. rewrite <- Hids in Hn, Hsub. clear Ht Ho Hids.
  revert Hn Hsub.
  generalize (snd (claim zone now c0 d)) as d1.
  generalize (fst (claim zone now c0 d)) as due.
  unfold execute_all.
  induction due as [|s due IH]; intros d1 Hn Hsub; cbn [fold_left]; [lia|].
  assert (Hi : map id (dcaSchedules (executeSchedule zone (answers s) (clockAt s) s d1))
               = map id (dcaSchedules d1)).
  { apply static_ids, executeSchedule_static. }
  assert (IH' := IH (executeSchedule zone (answers s) (clockAt s) s d1)).
  rewrite Hi in IH'.
  specialize (IH' Hn (fun x Hx => Hsub x (or_intror Hx))).
  rewrite executeSchedule_total in IH'.
  destruct (executeSchedule_orders (answers s) (clockAt s) s d1)
    as [rows [E L]].
  rewrite E, length_app, L in IH'. unfold rows_of in IH'.
  rewrite (one_row_per_id (id s) (dcaSchedules d1) Hn
             (Hsub s (or_introl eq_refl))) in IH'.
  lia.
Qed.

Lemma filter_map_fixed {X : Type} (p : X -> bool) (f : X -> X)
    (rows : list X) :
  (forall r, p (f r) = p r) -> (forall r, p r = true -> f r = r) ->
  filter p (map f rows) = filter p rows.
Proof.
  intros Hp Hf. induction rows as [|r rows IH]; [reflexivity|].
  cbn [map filter]. rewrite Hp. destruct (p r) eqn:E.
  - now rewrite IH, (Hf r E).
  - exact IH.
Qed.

(** X15: one execution changes no row of another plan and removes no
    watched order: the rows with a different id are the same before and
    after, and the watched orders it found are still there, in place. *)
Theorem executeSchedule_touches_own_plan (a : Answers) (c : Z) (s : Schedule)
    (d : Db) :
  rows_but (id s) (executeSchedule zone a c s d) = rows_but (id s) d /\
  watchedOrders d
  = firstn (List.length (watchedOrders d))
      (watchedOrders (executeSchedule zone a c s d)).
Proof.
  assert (Hu : forall t rows,
             filter (fun r => negb (id r =? id s))
               (update_nextExecutionAt [id s] t rows)
             = filter (fun r => negb (id r =? id s)) rows).
  { intros t rows. apply filter_map_fixed; intros r.
    - destruct (in_ids [id s] r); reflexivity.
    - unfold in_ids. cbn [existsb]. rewrite orb_false_r.
      intros H. destruct (id r =? id s); [discriminate H|reflexivity]. }
  assert (Hi : forall rows,
             filter (fun r => negb (id r =? id s))
               (increment_ordersExecuted (id s) rows)
             = filter (fun r => negb (id r =? id s)) rows).
  { intros rows. apply filter_map_fixed; intros r.
    - destruct (id r =? id s) eqn:E; cbn [id with_ordersExecuted];
        now rewrite E.
    - intros H. destruct (id r =? id s); [discriminate H|reflexivity]. }
  unfold rows_but, executeSchedule, executeSchedule_writes.
  destruct (path a) as [| |q o|]; cbn [releaseLock scheduleRetry success_writes
    fold_left apply_write dcaSchedules watchedOrders].
  - split; [apply Hu|now rewrite firstn_all].
  - split; [apply Hu|now rewrite firstn_all].
  - split; [apply Hi|]. unfold insert_watched.
    destruct (existsb _ (watchedOrders d)).
    + now rewrite firstn_all.
    + now rewrite firstn_app, firstn_all, Nat.sub_diag, app_nil_r.
  - split; [reflexivity|now rewrite firstn_all].
Qed.

End AnyHost.

Lemma claim_again_skips_claimed_witness :
  In plan2 (dcaSchedules db2) /\ is_due t0 plan2 = false /\
  ~ In (id plan2) (map id (fst (claim utc t0 t0 db2))).
Proof.
  apply (claim_again_skips_claimed utc t0 t0 (t0 + 60000) (t0 + 60000) db2
           plan2).
  - vm_compute. reflexivity.
  - vm_compute. left. reflexivity.
Defined.

Lemma processSchedules_rests_claimed_witness :
  is_due (t0 + 240000)
    (with_nextExecutionAt (addMinutes utc (t0 + 2000) 5) plan)
  = false.
Proof.
  apply (processSchedules_rests_claimed utc (fun _ => failing)
           (fun _ => t0 + 2000) t0 t0 (t0 + 240000) db2
           (with_nextExecutionAt (addMinutes utc (t0 + 2000) 5) plan)).
  - lia.
  - reflexivity.
  - intros s [E|[E|[]]]; subst s; unfold t0;
      (split; [lia|]); (split; [simpl; lia|]); split; reflexivity.
  - unfold RETRY_DELAY_MINUTES. lia.
  - vm_compute. left. reflexivity.
  - vm_compute. left. reflexivity.
Defined.

Lemma processSchedules_counts_orders_witness :
  total_executed
    (snd (processSchedules utc (fun _ => happy) (fun _ => t0 + 2000)
            (t0 + 60000) (t0 + 60000) db2))
  - total_executed db2
  = 2 - 0.
Proof.
  apply (processSchedules_counts_orders utc (fun _ => happy)
           (fun _ => t0 + 2000) (t0 + 60000) (t0 + 60000) db2).
  simpl. constructor.
  - intros [E|[]]. discriminate.
  - constructor; [intros []|constructor].
Defined.

End DCAMore.

(* ------------------------------------------------------------------ *)
(** ** What the client returns *)

Module SideShiftMore.

Import JS.
Import SideShift.
Import DCA.

Lemma call_returns {X : Type} (fallback : string) (schema : value -> option X)
    (check : X -> option X) (r : AxiosResult) (a : X) :
  call fallback schema check r = Returns a ->
  exists body v, r = Fulfilled body /\ schema body = Some v /\
                 check v = Some a.
Proof.
  unfold call. destruct r as [body| |]; try discriminate.
  destruct (schema body) as [v|] eqn:Es; [|discriminate].
  destruct (check v) as [a'|] eqn:Ec; [|discriminate].
  intros E. injection E as <-. now exists body, v.
Qed.

Lemma append_slash_nonempty (a b : string) :
  String.append a (String.append "/" b) <> EmptyString.
Proof. destruct a; discriminate. Qed.

(** X16: whatever a function of the client returns is the body of a 2xx
    reply that passed the function's schema; a quote or a checkout returned
    carries no [error], and a checkout returned has a [url]: the reply's own
    when it has one, else the checkout address built from the id. *)
Theorem client_returns_validated_bodies
    (schemaQ : value -> option SideShiftQuote)
    (schemaO : value -> option SideShiftOrder)
    (schemaS : value -> option SideShiftOrderStatus)
    (schemaC : value -> option SideShiftCheckoutResponse)
    (X : Type) (schemaL : value -> option X)
    (fromAsset toAsset checkoutUrl : string) (r : AxiosResult) :
  (forall q, createQuote schemaQ fromAsset toAsset r = Returns q ->
             exists body, r = Fulfilled body /\ schemaQ body = Some q /\
                          q_error q = None) /\
  (forall o, createOrder schemaO r = Returns o ->
             exists body, r = Fulfilled body /\ schemaO body = Some o) /\
  (forall s, getOrderStatus schemaS r = Returns s ->
             exists body, r = Fulfilled body /\ schemaS body = Some s) /\
  (forall l, getCoins schemaL r = Returns l ->
             exists body, r = Fulfilled body /\ schemaL body = Some l) /\
  (forall l, getPairs schemaL r = Returns l ->
             exists body, r = Fulfilled body /\ schemaL body = Some l) /\
  (forall c, createCheckout checkoutUrl schemaC r = Returns c ->
             exists body v,
               r = Fulfilled body /\ schemaC body = Some v /\
               c_error v = None /\ c_error c = None /\ c_id c = c_id v /\
               c_url c <> EmptyString /\
               (c_url v <> EmptyString -> c_url c = c_url v)).
Proof.
  split; [|split; [|split; [|split; [|split]]]].
  - intros q H. apply call_returns in H as (body & v & Hr & Hs & Hc).
    exists body. destruct (q_error v) eqn:E; [discriminate|].
    injection Hc as <-. auto.
  - intros o H. apply call_returns in H as (body & v & Hr & Hs & Hc).
    injection Hc as <-. eauto.
  - intros s H. apply call_returns in H as (body & v & Hr & Hs & Hc).
    injection Hc as <-. eauto.
  - intros l H. apply call_returns in H as (body & v & Hr & Hs & Hc).
    injection Hc as <-. eauto.
  - intros l H. apply call_returns in H as (body & v & Hr & Hs & Hc).
    injection Hc as <-. eauto.
  - intros c H. apply call_returns in H as (body & v & Hr & Hs & Hc).
    exists body, v. destruct (c_error v) eqn:E; [discriminate|].
    injection Hc as <-. cbn [c_error c_id c_url].
    destruct (String.eqb_spec (c_url v) EmptyString) as [Eu|Eu].
    + repeat split; try assumption.
      * apply append_slash_nonempty.
      * intros Hn. contradiction.
    + repeat split; assumption.
Qed.

Lemma client_returns_validated_bodies_witness :
  exists body,
    Fulfilled (Str "q") = Fulfilled body /\
    (fun _ => Some quote1) body = Some quote1 /\ q_error quote1 = None.
Proof.
  apply (proj1 (client_returns_validated_bodies (fun _ => Some quote1)
                  (fun _ => None) (fun _ => None) (fun _ => None)
                  unit (fun _ => None) "USDC" "BTC" "https://pay.example"
                  (Fulfilled (Str "q")))
           quote1).
  reflexivity.
Defined.

(** X17: with the quote taken from the client, the scheduler's own test
    of [quote.error] never decides: an execution ends in a scheduled retry
    exactly when the update of [scheduleRetry] goes through and the [try]
    was left in one of these ways: the user query was rejected; the user
    has no wallet and the update of [releaseLock] was rejected; or the user
    has a wallet and the client threw for the quote, or threw for the order,
    or the order has no id, or the closing transaction was rejected. *)
Theorem scheduler_failure_causes (schema : value -> option SideShiftQuote)
    (fromAsset toAsset : string) (r : AxiosResult)
    (user : outcome (option User)) (ord : result SideShiftOrder)
    (commits releases retries : bool) :
  path (mkAnswers user (createQuote schema fromAsset toAsset r) ord commits
          releases retries) = Failed <->
  retries = true /\
  (user = Rejected \/
   (exists u, user = Resolved u /\ has_wallet u = None /\ releases = false) \/
   (exists u, user = Resolved u /\ has_wallet u <> None /\
      ((exists e, createQuote schema fromAsset toAsset r = Throws e) \/
       (exists e, ord = Throws e) \/
       (exists o, ord = Returns o /\
                  (o_id o = EmptyString \/ commits = false))))).
Proof.
  unfold path, caught. cbn [getUser quote order committed released retried].
  assert (Hq : forall q, createQuote schema fromAsset toAsset r = Returns q ->
                         q_error q = None).
  { intros q Eq. unfold createQuote in Eq.
    apply call_returns in Eq as (body & v & _ & _ & Hc).
    destruct (q_error v) eqn:E; [discriminate|]. now injection Hc as <-. }
  destruct retries.
  - split; [intros H; split; [reflexivity|]|intros [_ H]].
    + destruct user as [u|]; [|now left]. right.
      destruct (has_wallet u) as [w|] eqn:Ew.
      * right. exists u. split; [reflexivity|]. split; [congruence|].
        destruct (createQuote schema fromAsset toAsset r) as [q|e] eqn:Eq;
          [|left; now exists e].
        rewrite (Hq q eq_refl) in H. right.
        destruct ord as [o|e]; [|left; now exists e].
        right. exists o. split; [reflexivity|].
        destruct (String.eqb_spec (o_id o) EmptyString) as [Eo|Eo];
          [now left|].
        destruct commits; [discriminate|now right].
      * left. exists u. split; [reflexivity|]. split; [exact Ew|].
        destruct releases; [discriminate|reflexivity].
    + destruct H as [->|[(u & -> & Hw & ->)|(u & -> & Hw & H)]];
        [reflexivity|now rewrite Hw|].
      destruct (has_wallet u) as [w|]; [|contradiction].
      destruct (createQuote schema fromAsset toAsset r) as [q|e] eqn:Eq;
        [|reflexivity].
      rewrite (Hq q eq_refl).
      destruct ord as [o|e]; [|reflexivity].
      destruct H as [[e H]|[[e H]|(o' & H1 & H2)]]; try discriminate.
      injection H1 as <-.
      destruct H2 as [->| ->]; [reflexivity|].
      now destruct (String.eqb (o_id o) EmptyString).
  - split; [|intros [H _]; discriminate].
    destruct user as [u|]; [|discriminate].
    destruct (has_wallet u).
    + destruct (createQuote schema fromAsset toAsset r) as [q|e];
        [|discriminate].
      destruct (q_error q); [discriminate|].
      destruct ord as [o|e]; [|discriminate].
      destruct (String.eqb (o_id o) EmptyString); [discriminate|].
      destruct commits; discriminate.
    + destruct releases; discriminate.
Qed.

End SideShiftMore.

(* ------------------------------------------------------------------ *)
(** ** What the routes reach *)

Module ApiMore.

Import JS.
Import Api.
Import ApiFacts.

Lemma strict_eq_str_eq (v : value) (s : string) :
  strict_eq_str v s = true -> v = Str s.
Proof.
  destruct v; simpl; try discriminate.
  intros H. apply String.eqb_eq in H. now subst.
Qed.

Ltac split_cases :=
  repeat match goal with
  | |- context [match ?x with Some _ => _ | None => _ end] =>
      destruct x eqn:?; cbn [app fst snd]
  | |- context [if ?b then _ else _] =>
      destruct b eqn:?; cbn [app fst snd]
  end.

Ltac one_effect :=
  cbn [fst snd app In];
  let H := fresh in
  intros H;
  repeat match type of H with
         | _ \/ _ => destruct H as [H|H]
         | False => destruct H
         end.

(** X18: complete mediation on the user-scoped routes: every call into the
    data layer is made for the caller the identity provider verified, and a
    request makes at most one. *)
Theorem user_routes_reach_callers_data (route : UserRoute) (sv : Services)
    (req : Request) (e : Effect) :
  In e (snd (handle route sv req)) ->
  exists caller,
    authenticate sv req = (inr caller, []) /\
    effect_user e = Some (Str caller) /\
    snd (handle route sv req) = [e].
Proof.
  destruct (authenticate_cases sv req) as [[r [Ha _]]|[caller Ha]].
  - destruct route; unfold handle;
      [unfold swapHistory_GET | unfold chatHistory_GET
      | unfold chatHistory_POST | unfold chatHistory_DELETE
      | unfold userSettings_GET | unfold userSettings_POST];
      unfold bind at 1; rewrite Ha; intros [].
  - intros Hin. exists caller. split; [assumption|]. revert Hin.
    destruct route; unfold handle;
      [unfold swapHistory_GET | unfold chatHistory_GET
      | unfold chatHistory_POST | unfold chatHistory_DELETE
      | unfold userSettings_GET | unfold userSettings_POST];
      unfold bind at 1; rewrite Ha; handler; cbn [app fst snd];
      split_cases; one_effect; subst e; cbn [effect_user];
      repeat match goal with
             | H : String.eqb _ _ = true |- _ => apply String.eqb_eq in H; subst
             | H : strict_eq_str _ _ = true |- _ =>
                 apply strict_eq_str_eq in H; subst
             end; split; reflexivity.
Qed.

Lemma user_routes_reach_callers_data_witness :
  exists caller,
    authenticate alice_services get_as_alice = (inr caller, []) /\
    effect_user (GetSwapHistory "alice" "50") = Some (Str caller) /\
    snd (handle SwapHistoryGet alice_services get_as_alice)
    = [GetSwapHistory "alice" "50"].
Proof.
  apply (user_routes_reach_callers_data SwapHistoryGet alice_services
           get_as_alice (GetSwapHistory "alice" "50")).
  left. reflexivity.
Defined.

(** X19: a request without a Bearer header is answered 401 by every
    user-scoped route and every route behind the admin gate, and reaches no
    data and no admin lookup. *)
Theorem no_bearer_header_is_401 (sv : Services) (req : Request) :
  bearer (authorization req) = None ->
  (forall route,
      handle route sv req = (fail 401 "Unauthorized: No token provided", [])) /\
  (forall route p, handleAdmin route p sv req = (fail 401 "Unauthorized", [])).
Proof.
  intros Hb. split.
  - assert (Ha : authenticate sv req
                 = (inl (fail 401 "Unauthorized: No token provided"), [])).
    { unfold authenticate. handler. now rewrite Hb. }
    intros route. destruct route; unfold handle;
      [unfold swapHistory_GET | unfold chatHistory_GET
      | unfold chatHistory_POST | unfold chatHistory_DELETE
      | unfold userSettings_GET | unfold userSettings_POST];
      unfold bind at 1; rewrite Ha; reflexivity.
  - apply handleAdmin_gate_rejects. unfold adminGate. handler.
    now rewrite Hb.
Qed.

Lemma no_bearer_header_is_401_witness :
  handle SwapHistoryGet alice_services gift_request
  = (fail 401 "Unauthorized: No token provided", []).
Proof.
  apply (proj1 (no_bearer_header_is_401 alice_services gift_request eq_refl)).
Defined.

(** The admin gate passes only for a uid with an admin row, after the one
    lookup. *)
Lemma adminGate_passes (sv : Services) (req : Request) (who : value * Admin)
    (es : list Effect) :
  adminGate sv req = (inr who, es) ->
  exists h,
    bearer (authorization req) = Some h /\
    decodeToken sv (substring_from 7 h) = Some (fst who) /\
    returns sv (GetAdminByFirebaseUid (fst who)) = true /\
    adminRow sv (fst who) = Some (snd who) /\
    es = [GetAdminByFirebaseUid (fst who)].
Proof.
  unfold adminGate. handler.
  destruct (bearer (authorization req)) as [h|]; [|discriminate].
  destruct (decodeToken sv (substring_from 7 h)) as [u|] eqn:Ed;
    [|discriminate].
  cbn [app].
  destruct (returns sv (GetAdminByFirebaseUid u)) eqn:Er; [|discriminate].
  destruct (adminRow sv u) as [a|] eqn:Ea; [|discriminate].
  intros E. injection E as <- <-. exists h. cbn [fst snd]. auto.
Qed.

Lemma adminGate_answers (sv : Services) (req : Request) (r : Response)
    (es : list Effect) :
  adminGate sv req = (inl r, es) ->
  es = [] \/
  exists h u,
    bearer (authorization req) = Some h /\
    decodeToken sv (substring_from 7 h) = Some u /\
    es = [GetAdminByFirebaseUid u].
Proof.
  unfold adminGate. handler.
  destruct (bearer (authorization req)) as [h|];
    [|intros E; injection E as <- <-; now left].
  destruct (decodeToken sv (substring_from 7 h)) as [u|] eqn:Ed;
    [|intros E; injection E as <- <-; now left].
  cbn [app].
  destruct (returns sv (GetAdminByFirebaseUid u)) eqn:Er;
    [destruct (adminRow sv u) as [a|] eqn:Ea; [discriminate|]|];
    intros E; injection E as <- <-; right; exists h, u; auto.
Qed.

(** X20: behind the admin gate nothing is read or written except for a
    caller with a row in the admin table: the only call a request without
    one can cause is the lookup of its own uid in that table. *)
Theorem admin_routes_reach_data_for_admins_only (route : AdminRoute)
    (p : string -> bool) (sv : Services) (req : Request) (e : Effect) :
  In e (snd (handleAdmin route p sv req)) ->
  exists h u,
    bearer (authorization req) = Some h /\
    decodeToken sv (substring_from 7 h) = Some u /\
    (e = GetAdminByFirebaseUid u \/
     exists admin, adminRow sv u = Some admin /\
                   returns sv (GetAdminByFirebaseUid u) = true).
Proof.
  destruct (adminGate sv req) as [[r|who] es] eqn:Hg.
  - rewrite (handleAdmin_gate_rejects sv req r es Hg). cbn [snd].
    destruct (adminGate_answers sv req r es Hg) as [->|(h & u & Hb & Hd & ->)];
      [intros []|].
    intros [<-|[]]. exists h, u. auto.
  - destruct (adminGate_passes sv req who es Hg) as (h & Hb & Hd & Hr & Ha & _).
    intros _. exists h, (fst who). split; [assumption|].
    split; [assumption|]. right. exists (snd who). auto.
Qed.

Lemma admin_routes_reach_data_for_admins_only_witness :
  exists h u,
    bearer (authorization forged_request) = Some h /\
    decodeToken forgery_services (substring_from 7 h) = Some u /\
    (GetCoinSupplyStats = GetAdminByFirebaseUid u \/
     exists admin, adminRow forgery_services u = Some admin /\
                   returns forgery_services (GetAdminByFirebaseUid u) = true).
Proof.
  apply (admin_routes_reach_data_for_admins_only StatsGet (fun _ => true)
           forgery_services forged_request GetCoinSupplyStats).
  right. left. reflexivity.
Defined.

Lemma bad_amount_false (v : value) :
  bad_amount v = false -> exists n, v = Num n /\ num_le0 n = false.
Proof.
  destruct v; simpl; try discriminate. intros H. now exists n.
Qed.

Lemma not_reset_is_gift_or_deduct (a : value) :
  includes ["gift"; "deduct"; "reset"] a = true ->
  strict_eq_str a "reset" = false -> is_gift_or_deduct a = true.
Proof.
  unfold includes, is_gift_or_deduct. cbn [existsb].
  intros H Hr. rewrite Hr in H. now rewrite !orb_false_r in H.
Qed.

(** X21: every adjustment the adjust route hands to the data layer is
    made in the name of a caller with an admin row, on a user row that was
    found and has a Firebase uid, with one of the three actions, and with
    amount 0 for a reset and a number that is not [<= 0] otherwise; it is the
    last of exactly three calls. *)
Theorem adjust_POST_issues_validated_adjustments (sv : Services)
    (req : Request) (args : AdjustArgs) :
  In (AdjustTestnetCoins args) (snd (adjust_POST sv req)) ->
  (exists admin,
      adminRow sv (adminId args) = Some admin /\
      adminEmail args = admin_email admin) /\
  (exists row,
      userRow sv (targetUserId args) = Some row /\
      nonempty (firebase_uid row) = Some (targetFirebaseUid args) /\
      walletAddress args = wallet_address row) /\
  truthy (targetUserId args) = true /\
  includes ["gift"; "deduct"; "reset"] (action args) = true /\
  (if strict_eq_str (action args) "reset"
   then amount args = Num (Fin 0)
   else exists n, amount args = Num n /\ num_le0 n = false) /\
  snd (adjust_POST sv req)
  = [GetAdminByFirebaseUid (adminId args); SelectUser (targetUserId args);
     AdjustTestnetCoins args].
Proof.
  intros Hin. destruct (adminGate sv req) as [[r|who] es] eqn:Hg.
  - exfalso.
    pose proof (handleAdmin_gate_rejects sv req r es Hg AdjustPost
                  (fun _ => true)) as E.
    unfold handleAdmin in E. rewrite E in Hin.
    exact (adminGate_effects sv req _ es Hg args Hin).
  - destruct (adminGate_passes sv req who es Hg)
      as (h & Hb & Hd & Hr & Ha & ->).
    revert Hin. generalize (eq_refl (snd (adjust_POST sv req))).
    generalize (snd (adjust_POST sv req)) at 2 3 4 as calls.
    intros calls.
    match goal with |- _ -> _ -> ?G => set (Concl := G) end.
    unfold adjust_POST. unfold bind at 1. rewrite Hg.
    unfold adjust_checked. handler. cbn [app fst snd].
    split_cases; intros <-; one_effect; try discriminate.
    all: match goal with
         | H : AdjustTestnetCoins _ = AdjustTestnetCoins _ |- _ =>
             injection H as E; subst args
         end.
    all: subst Concl;
      cbn [adminId adminEmail targetUserId targetFirebaseUid walletAddress
             action amount];
      match goal with
      | H : (_ && _)%bool = true |- _ => apply andb_true_iff in H as [Ht Hi]
      end;
      (split; [eauto|]); (split; [eauto|]); (split; [assumption|]);
      (split; [assumption|]); (split; [|reflexivity]);
      match goal with
      | H : strict_eq_str _ "reset" = _ |- _ => rewrite H
      end; try reflexivity.
    all: apply bad_amount_false;
    match goal with
    | H : negb (is_gift_or_deduct _ && _) = true,
      H' : strict_eq_str _ "reset" = false |- _ =>
        rewrite (not_reset_is_gift_or_deduct _ Hi H') in H;
        cbn [andb] in H; now apply negb_true_iff in H
    end.
Qed.

Lemma adjust_POST_issues_validated_adjustments_witness :
  snd (adjust_POST admin_services (adjust_request (Str "reset") (Num (Fin 1))))
  = [GetAdminByFirebaseUid (Str "admin1"); SelectUser (Num (Fin 7));
     AdjustTestnetCoins
       (mkAdjust (Str "admin1") "root@example.org" (Num (Fin 7)) "uid-7" None
          (Str "reset") (Num (Fin 0)) Undefined)].
Proof.
  apply (adjust_POST_issues_validated_adjustments admin_services
           (adjust_request (Str "reset") (Num (Fin 1)))
           (mkAdjust (Str "admin1") "root@example.org" (Num (Fin 7)) "uid-7"
              None (Str "reset") (Num (Fin 0)) Undefined)).
  right. right. left. reflexivity.
Defined.

(** X22: a user-scoped route answers with a success status exactly when
    it made its one call into the data layer, the call returned and, on
    GET /api/chat/history, the metadata of the rows returned could be
    parsed. *)
Theorem user_route_success_iff_data_call_returned (route : UserRoute)
    (sv : Services) (req : Request) :
  status (fst (handle route sv req)) < 300 <->
  exists e,
    snd (handle route sv req) = [e] /\ returns sv e = true /\
    (route = ChatHistoryGet -> readable sv e = true).
Proof.
  destruct (authenticate_cases sv req) as [[r [Ha Hs]]|[caller Ha]].
  - destruct route; unfold handle;
      [unfold swapHistory_GET | unfold chatHistory_GET
      | unfold chatHistory_POST | unfold chatHistory_DELETE
      | unfold userSettings_GET | unfold userSettings_POST];
      unfold bind at 1; rewrite Ha; cbn [respond fst snd]; rewrite Hs;
      (split; [lia|intros [e [E _]]; discriminate]).
  - destruct route; unfold handle;
      [unfold swapHistory_GET | unfold chatHistory_GET
      | unfold chatHistory_POST | unfold chatHistory_DELETE
      | unfold userSettings_GET | unfold userSettings_POST];
      unfold bind at 1; rewrite Ha; handler; cbn [app fst snd];
      split_cases; cbn [status fail ok];
      (split;
       [intros H;
        first [lia
              |eexists; split; [reflexivity|];
               split; [assumption|]; first [discriminate|intros _; assumption]]
       |intros [e [E [R P]]]; try discriminate; try lia;
        injection E as <-; first [congruence|specialize (P eq_refl); congruence]]).
Qed.

Lemma verifyAdminToken_empty (sv : Services) :
  verifyAdminToken sv EmptyString = None.
Proof. reflexivity. Qed.

Lemma bad_gift_false (n : number) :
  bad_gift n = false -> exists q, n = Fin q /\ (0 < q)%Q.
Proof.
  unfold bad_gift. destruct n as [q| | |]; cbn [truthy num_le0];
    rewrite ?orb_true_r; try discriminate.
  intros H. exists q. split; [reflexivity|].
  apply orb_false_iff in H as [H _]. apply orb_false_iff in H as [_ H].
  apply Qnot_le_lt. intros Hle. apply Qle_bool_iff in Hle. congruence.
Qed.

(** X23: the gift-all route hands on only a finite amount above zero, in
    the name of the uid [verifyAdminToken] read from the header, and makes
    no other call: it looks up no admin row itself. *)
Theorem giftAll_POST_gifts_finite_positive (sv : Services) (req : Request)
    (a em note : value) (n : number) :
  In (GiftAllUsers a em n note) (snd (giftAll_POST sv req)) ->
  (exists q, n = Fin q /\ (0 < q)%Q) /\
  (exists h e, authorization req = Some h /\
               verifyAdminToken sv h = Some (a, e)) /\
  snd (giftAll_POST sv req) = [GiftAllUsers a em n note].
Proof.
  generalize (eq_refl (snd (giftAll_POST sv req))).
  generalize (snd (giftAll_POST sv req)) at 2 3 4 as calls.
  intros calls.
  match goal with |- _ -> _ -> ?G => set (Concl := G) end.
  unfold giftAll_POST. handler.
  destruct (authorization req) as [h|];
    [|rewrite verifyAdminToken_empty; intros <- []].
  destruct (verifyAdminToken sv h) as [[u e]|] eqn:Ev; [|intros <- []].
  cbn [app fst snd].
  split_cases; intros <-; one_effect; try discriminate.
  all: match goal with
       | H : GiftAllUsers _ _ _ _ = GiftAllUsers _ _ _ _ |- _ =>
           injection H as <- <- <- <-
       end.
  all: subst Concl; split;
    [apply bad_gift_false;
     match goal with
     | H : negb (bad_gift _) = true |- _ => now apply negb_true_iff in H
     end
    |split; [exists h, e; split; [reflexivity|exact Ev]|reflexivity]].
Qed.

Lemma giftAll_POST_gifts_finite_positive_witness :
  snd (giftAll_POST gift_services gift_request)
  = [GiftAllUsers (Str "admin1") (Str "unknown") (Fin 100) Undefined].
Proof.
  apply (giftAll_POST_gifts_finite_positive gift_services gift_request
           (Str "admin1") (Str "unknown") Undefined (Fin 100)).
  left. reflexivity.
Defined.

(** X24: a chat message is stored only with the role [user] or
    [assistant], a truthy content and the fields of the request body as
    sent. *)
Theorem chatHistory_POST_stores_validated_message (sv : Services)
    (req : Request) (u w role content s md : value) :
  In (AddChatMessage u w role content s md) (snd (chatHistory_POST sv req)) ->
  includes ["user"; "assistant"] role = true /\
  truthy content = true /\
  exists b,
    body req = Some b /\
    u = get_opt b "userId" /\ w = get_opt b "walletAddress" /\
    role = get_opt b "role" /\ content = get_opt b "content" /\
    s = get_opt b "sessionId" /\ md = get_opt b "metadata".
Proof.
  match goal with |- _ -> ?G => set (Concl := G) end.
  destruct (authenticate_cases sv req) as [[r [Ha _]]|[caller Ha]];
    unfold chatHistory_POST; unfold bind at 1; rewrite Ha; [intros []|].
  handler. cbn [app fst snd].
  split_cases; one_effect; try discriminate.
  all: match goal with
       | H : AddChatMessage _ _ _ _ _ _ = AddChatMessage _ _ _ _ _ _ |- _ =>
           injection H as <- <- <- <- <- <-
       end.
  all: subst Concl;
    repeat match goal with
           | H : (_ && _)%bool = true |- _ => apply andb_true_iff in H as [? ?]
           end;
    split; [assumption|]; split; [assumption|];
    eexists; split; [reflexivity|];
    repeat match goal with
           | H : get _ _ = Some _ |- _ => apply get_opt_of_get in H; rewrite H
           end; repeat split.
Qed.

Lemma chatHistory_POST_stores_validated_message_witness :
  includes ["user"; "assistant"] (Str "user") = true /\
  truthy (Str "hi") = true /\
  exists b,
    body post_as_alice = Some b /\
    Str "alice" = get_opt b "userId" /\ Undefined = get_opt b "walletAddress" /\
    Str "user" = get_opt b "role" /\ Str "hi" = get_opt b "content" /\
    Undefined = get_opt b "sessionId" /\ Undefined = get_opt b "metadata".
Proof.
  apply (chatHistory_POST_stores_validated_message alice_services
           post_as_alice (Str "alice") Undefined (Str "user") (Str "hi")
           Undefined Undefined).
  left. reflexivity.
Defined.

End ApiMore.

(* ------------------------------------------------------------------ *)
(** ** Yield pools *)

Module YieldFacts.

Import JS.
Import Yield.

Lemma gt_true (a b : Q) : gt a b = true -> (b < a)%Q.
Proof.
  unfold gt. intros H. apply negb_true_iff in H.
  apply Qnot_le_lt. intros Hle. apply Qle_bool_iff in Hle. congruence.
Qed.

Lemma gt_false (a b : Q) : gt a b = false -> (a <= b)%Q.
Proof.
  unfold gt. intros H. apply negb_false_iff in H. now apply Qle_bool_iff.
Qed.

Lemma in_insert (x y : YieldPool) (l : list YieldPool) :
  In y (insert x l) <-> y = x \/ In y l.
Proof.
  induction l as [|z l IH]; simpl.
  - intuition.
  - destruct (gt (apy z) (apy x)); simpl; rewrite ?IH; intuition.
Qed.

Lemma in_sort (y : YieldPool) (l : list YieldPool) :
  In y (sort_by_apy l) <-> In y l.
Proof.
  induction l as [|x l IH]; simpl; [reflexivity|].
  rewrite in_insert, IH. intuition.
Qed.

Lemma insert_descending (x : YieldPool) (l : list YieldPool) :
  descending l -> descending (insert x l).
Proof.
  induction l as [|z l IH]; intros Hd.
  - simpl. split; [intros y []|exact I].
  - cbn [insert]. destruct Hd as [Hz Hd].
    destruct (gt (apy z) (apy x)) eqn:E.
    + cbn [descending]. split; [|now apply IH].
      intros y Hy. apply in_insert in Hy as [->|Hy].
      * apply Qlt_le_weak. now apply gt_true.
      * now apply Hz.
    + cbn [descending]. split; [|split; assumption].
      apply gt_false in E.
      intros y [<-|Hy]; [assumption|].
      apply Qle_trans with (apy z); [now apply Hz|assumption].
Qed.

Lemma sort_descending (l : list YieldPool) : descending (sort_by_apy l).
Proof.
  induction l as [|x l IH]; [exact I|]. now apply insert_descending.
Qed.

Lemma descending_app (l1 l2 : list YieldPool) :
  descending (l1 ++ l2) ->
  descending l1 /\
  forall x y, In x l1 -> In y l2 -> (apy y <= apy x)%Q.
Proof.
  induction l1 as [|z l1 IH]; intros Hd.
  - split; [exact I|intros x y []].
  - cbn [app descending] in Hd. destruct Hd as [Hz Hd].
    destruct (IH Hd) as [Hd1 Hc]. split.
    + split; [|assumption]. intros y Hy. apply Hz. apply in_or_app. now left.
    + intros x y [<-|Hx] Hy.
      * apply Hz. apply in_or_app. now right.
      * now apply Hc.
Qed.

Lemma descending_filter (f : YieldPool -> bool) (l : list YieldPool) :
  descending l -> descending (filter f l).
Proof.
  induction l as [|z l IH]; intros Hd; [exact I|].
  destruct Hd as [Hz Hd]. cbn [filter]. destruct (f z).
  - split; [|now apply IH]. intros y Hy. apply filter_In in Hy as [Hy _].
    now apply Hz.
  - now apply IH.
Qed.

Lemma sort_of_descending (l : list YieldPool) :
  descending l -> sort_by_apy l = l.
Proof.
  induction l as [|x l IH]; intros Hd; [reflexivity|].
  destruct Hd as [Hx Hd]. cbn [sort_by_apy]. rewrite (IH Hd).
  destruct l as [|y l]; [reflexivity|].
  cbn [insert].
  assert (E : gt (apy y) (apy x) = false).
  { unfold gt. apply negb_false_iff. apply Qle_bool_iff. apply Hx. now left. }
  now rewrite E.
Qed.

(** X25: [getTopYieldPools] returns at most five pools, each of them an
    eligible pool of the fetched list, highest APY first; no eligible pool
    left out has a higher APY than a pool returned; and a failed request
    gives the empty list. *)
Theorem getTopYieldPools_top_five (data : list YieldPool) :
  (List.length (getTopYieldPools (Resolved data)) <= 5)%nat /\
  (forall p, In p (getTopYieldPools (Resolved data)) ->
             In p data /\ eligible p = true) /\
  descending (getTopYieldPools (Resolved data)) /\
  (forall p q,
      In p (getTopYieldPools (Resolved data)) ->
      In q data -> eligible q = true ->
      ~ In q (getTopYieldPools (Resolved data)) ->
      (apy q <= apy p)%Q) /\
  getTopYieldPools Rejected = [].
Proof.
  cbn [getTopYieldPools].
  pose proof (sort_descending (filter eligible data)) as Hd.
  rewrite <- (firstn_skipn 5 (sort_by_apy (filter eligible data))) in Hd.
  apply descending_app in Hd as [Hd1 Hc].
  split; [apply firstn_le_length|].
  split; [|split; [exact Hd1|split; [|reflexivity]]].
  - intros p Hp. apply MonitorFacts.firstn_subset in Hp. apply (proj1 (in_sort _ _)) in Hp.
    now apply filter_In in Hp.
  - intros p q Hp Hq He Hn. apply Hc; [assumption|].
    assert (Hs : In q (sort_by_apy (filter eligible data))).
    { apply (proj2 (in_sort _ _)). apply filter_In. now split. }
    rewrite <- (firstn_skipn 5 (sort_by_apy (filter eligible data))) in Hs.
    apply in_app_or in Hs as [Hs|Hs]; [contradiction|assumption].
Qed.

Lemma getTopYieldPools_top_five_witness :
  In curve_dai three_pools /\ eligible curve_dai = true.
Proof.
  apply (proj1 (proj2 (getTopYieldPools_top_five three_pools)) curve_dai).
  vm_compute. left. reflexivity.
Defined.

Lemma getTopYieldPools_descending (fetched : outcome (list YieldPool)) :
  descending (getTopYieldPools fetched).
Proof.
  destruct fetched as [data|]; [|exact I]. cbn [getTopYieldPools].
  pose proof (sort_descending (filter eligible data)) as Hd.
  rewrite <- (firstn_skipn 5 (sort_by_apy (filter eligible data))) in Hd.
  now apply descending_app in Hd.
Qed.

Lemma getTopYieldPools_length (fetched : outcome (list YieldPool)) :
  (List.length (getTopYieldPools fetched) <= 5)%nat.
Proof.
  destruct fetched as [data|]; cbn [getTopYieldPools];
    [apply firstn_le_length|cbn; lia].
Qed.

(** X26: the candidates of [findHigherYieldPools] are the five pools of
    [getTopYieldPools] only, and its own sort changes nothing: the result
    is those of the five that match the asset (whatever the case), lie above
    [minApy] and match the chain when one is given, in the order
    [getTopYieldPools] gave them. *)
Theorem findHigherYieldPools_filters_top_five
    (toUpperCase toLowerCase : string -> string)
    (fetched : outcome (list YieldPool)) (asset : string)
    (chain' : option string) (minApy : Q) :
  findHigherYieldPools toUpperCase toLowerCase fetched asset chain' minApy
  = filter (higher_yield toUpperCase toLowerCase asset chain' minApy)
      (getTopYieldPools fetched) /\
  (List.length
     (findHigherYieldPools toUpperCase toLowerCase fetched asset chain' minApy)
   <= 5)%nat /\
  forall p,
    In p (findHigherYieldPools toUpperCase toLowerCase fetched asset chain'
            minApy) ->
    In p (getTopYieldPools fetched) /\ (minApy < apy p)%Q /\
    toUpperCase (symbol p) = toUpperCase asset.
Proof.
  assert (E : findHigherYieldPools toUpperCase toLowerCase fetched asset
                chain' minApy
              = filter (higher_yield toUpperCase toLowerCase asset chain' minApy)
                  (getTopYieldPools fetched)).
  { unfold findHigherYieldPools. apply sort_of_descending.
    apply descending_filter. apply getTopYieldPools_descending. }
  rewrite E. split; [reflexivity|]. split.
  - eapply Nat.le_trans; [apply filter_length_le|].
    apply getTopYieldPools_length.
  - intros p Hp. apply filter_In in Hp as [Hp Hf]. split; [assumption|].
    unfold higher_yield in Hf.
    apply andb_true_iff in Hf as [Hf _].
    apply andb_true_iff in Hf as [Hs Ha].
    split; [now apply gt_true|now apply String.eqb_eq].
Qed.

Lemma findHigherYieldPools_filters_top_five_witness :
  In curve_dai (getTopYieldPools (Resolved three_pools)) /\
  (inject_Z 5 < apy curve_dai)%Q /\
  symbol curve_dai = "DAI".
Proof.
  apply (proj2 (proj2 (findHigherYieldPools_filters_top_five
                         (fun s => s) (fun s => s) (Resolved three_pools)
                         "DAI" None (inject_Z 5)))
           curve_dai).
  vm_compute. left. reflexivity.
Defined.

(** *** The migration suggestion *)

Lemma fold_highest (pools : list YieldPool) :
  forall start,
    let best := fold_left (fun highest p => if gt (apy p) (apy highest) then p
                                            else highest) pools start in
    (best = start \/ In best pools) /\
    (apy start <= apy best)%Q /\
    (forall p, In p pools -> (apy p <= apy best)%Q).
Proof.
  induction pools as [|x pools IH]; intros start; cbn [fold_left].
  - split; [now left|]. split; [apply Qle_refl|intros p []].
  - destruct (gt (apy x) (apy start)) eqn:E.
    + destruct (IH x) as [Hin [Hle Hall]]. split; [|split].
      * right. destruct Hin as [->|Hin]; [now left|now right].
      * apply Qle_trans with (apy x); [|assumption].
        apply Qlt_le_weak. now apply gt_true.
      * intros p [<-|Hp]; [assumption|now apply Hall].
    + destruct (IH start) as [Hin [Hle Hall]]. split; [|split].
      * destruct Hin as [->|Hin]; [now left|right; now right].
      * assumption.
      * intros p [<-|Hp]; [|now apply Hall].
        apply Qle_trans with (apy start); [now apply gt_false|assumption].
Qed.

Lemma highest_is_highest (pools : list YieldPool) (best : YieldPool) :
  highest pools = Some best ->
  In best pools /\ forall p, In p pools -> (apy p <= apy best)%Q.
Proof.
  unfold highest. destruct pools as [|first rest]; [discriminate|].
  intros E. injection E as E.
  pose proof (fold_highest (first :: rest) first) as H. cbv zeta in H.
  cbn [fold_left] in H, E.
  rewrite E in H. destruct H as [Hin [_ Hall]].
  split; [|exact Hall].
  destruct Hin as [->|Hin]; [now left|exact Hin].
Qed.

Lemma or_some {X : Type} (o alt : option X) (x : X) :
  match o with Some p => Some p | None => alt end = Some x ->
  o = Some x \/ alt = Some x.
Proof. destruct o; auto. Qed.

Lemma source_pool_in (toLowerCase : string -> string)
    (pools : list YieldPool) (chain' sourceAsset : option string)
    (best from : YieldPool) :
  source_pool toLowerCase pools chain' sourceAsset best = Some from ->
  In from pools.
Proof.
  unfold source_pool. intros E.
  apply or_some in E as [E|E]; [apply or_some in E as [E|E]|].
  - destruct sourceAsset as [a|]; [|discriminate].
    now apply find_some in E.
  - destruct chain' as [c|]; [|discriminate].
    destruct (String.eqb c EmptyString); [discriminate|].
    now apply find_some in E.
  - now apply find_some in E.
Qed.

(** X27: a migration suggestion names two pools of the list given, its
    target has the highest APY of the list, so the APY difference is never
    negative, nor is the extra yield on a non-negative amount; the empty
    list gives no suggestion. *)
Theorem calculateYieldMigration_targets_highest
    (toLowerCase : string -> string) (relevantPools : list YieldPool)
    (amount : Q) (chain' sourceAsset : option string)
    (s : MigrationSuggestion) :
  calculateYieldMigration toLowerCase relevantPools amount chain' sourceAsset
  = Some s ->
  In (fromPool s) relevantPools /\ In (toPool s) relevantPools /\
  (forall p, In p relevantPools -> (apy p <= apy (toPool s))%Q) /\
  (0 <= apyDifference s)%Q /\
  ((0 <= amount)%Q -> (0 <= annualExtraYield s)%Q) /\
  calculateYieldMigration toLowerCase [] amount chain' sourceAsset = None.
Proof.
  unfold calculateYieldMigration.
  destruct (highest relevantPools) as [best|] eqn:Eh; [|discriminate].
  destruct (source_pool toLowerCase relevantPools chain' sourceAsset best)
    as [from|] eqn:Es; [|discriminate].
  intros E. injection E as <-.
  cbn [fromPool toPool apyDifference annualExtraYield].
  destruct (highest_is_highest _ _ Eh) as [Hb Hall].
  pose proof (source_pool_in _ _ _ _ _ _ Es) as Hf.
  assert (Hd : (0 <= apy best - apy from)%Q).
  { apply (Qplus_le_l _ _ (apy from)). ring_simplify. now apply Hall. }
  split; [assumption|]. split; [assumption|]. split; [assumption|].
  split; [assumption|]. split; [|reflexivity].
  intros Ha. apply Qle_shift_div_l; [reflexivity|].
  rewrite Qmult_0_l. now apply Qmult_le_0_compat.
Qed.

Lemma calculateYieldMigration_targets_highest_witness :
  In aave_usdc three_pools /\ In tiny_usdt three_pools /\
  (apy curve_dai <= apy tiny_usdt)%Q.
Proof.
  pose proof (calculateYieldMigration_targets_highest (fun s => s) three_pools
                (inject_Z 10000) None (Some "USDC")
                (mkSuggestion aave_usdc tiny_usdt
                   (apy tiny_usdt - apy aave_usdc)
                   (inject_Z 10000 * (apy tiny_usdt - apy aave_usdc)
                    / inject_Z 100)
                   true)
                eq_refl) as [H1 [H2 [H3 _]]].
  split; [exact H1|]. split; [exact H2|].
  apply H3. right. left. reflexivity.
Defined.

(** X28: when the pool found for the source asset is itself the pool with
    the highest APY, a suggestion is still made: from that pool to itself,
    with difference zero and not cross-chain. *)
Theorem calculateYieldMigration_best_pool_to_itself
    (toLowerCase : string -> string) (relevantPools : list YieldPool)
    (amount : Q) (chain' : option string) (sourceAsset : string)
    (p : YieldPool) :
  find (fun x => String.eqb (symbol x) sourceAsset) relevantPools = Some p ->
  highest relevantPools = Some p ->
  exists s,
    calculateYieldMigration toLowerCase relevantPools amount chain'
      (Some sourceAsset) = Some s /\
    fromPool s = p /\ toPool s = p /\
    (apyDifference s == 0)%Q /\ (annualExtraYield s == 0)%Q /\
    isCrossChain s = false.
Proof.
  intros Hf Hh. unfold calculateYieldMigration, source_pool.
  rewrite Hh, Hf. eexists. split; [reflexivity|].
  cbn [fromPool toPool apyDifference annualExtraYield isCrossChain].
  split; [reflexivity|]. split; [reflexivity|].
  split; [ring|]. split.
  - unfold Qdiv. ring.
  - now rewrite String.eqb_refl.
Qed.

Lemma calculateYieldMigration_best_pool_to_itself_witness :
  exists s,
    calculateYieldMigration (fun s => s) [aave_usdc] (inject_Z 10000) None
      (Some "USDC") = Some s /\
    fromPool s = aave_usdc /\ toPool s = aave_usdc /\
    (apyDifference s == 0)%Q /\ (annualExtraYield s == 0)%Q /\
    isCrossChain s = false.
Proof.
  apply (calculateYieldMigration_best_pool_to_itself (fun s => s) [aave_usdc]
           (inject_Z 10000) None "USDC" aave_usdc);
    reflexivity.
Defined.

End YieldFacts.

(* ------------------------------------------------------------------ *)
(** ** Command parsing *)

Module GroqFacts.

Import JS.
Import Groq.

Lemma push_nil (b : bool) (msg : string) : push b msg = [] -> b = false.
Proof. destruct b; [discriminate|reflexivity]. Qed.

Lemma or_else_str (v : value) (d s : string) :
  or_else v (Str d) = Str s -> d <> s -> v = Str s.
Proof.
  unfold or_else. destruct (truthy v); [auto|].
  intros E Hd. injection E as E. contradiction.
Qed.

Lemma or_else_truthy (v d : value) :
  truthy v = true -> or_else v d = v.
Proof. intros H. unfold or_else. now rewrite H. Qed.

Lemma invalid_amount_false (toNumber : value -> number) (v : value) :
  invalid_amount toNumber v = false ->
  truthy v = true /\ le0 toNumber v = false.
Proof.
  unfold invalid_amount. intros H. apply orb_false_iff in H as [H1 H2].
  apply negb_false_iff in H1. now split.
Qed.

Lemma validated_fields (toNumber : value -> number) (parsed : value)
    (userInput : string) (c : ParsedCommand) :
  validateParsedCommand toNumber parsed userInput = Some c ->
  exists i reported,
    get parsed "intent" = Some i /\
    spread (or_else (get_opt parsed "validationErrors") (Arr [])) = Some reported /\
    c = mkParsed
          (match get_opt parsed "success" with Bool false => false | _ => true end
           && (List.length (reported ++ map Str (errors_found toNumber parsed))
               =? 0)%nat)
          (or_else i (Str "unknown"))
          (or_else (get_opt parsed "fromAsset") Null)
          (or_else (get_opt parsed "fromChain") Null)
          (or_else (get_opt parsed "toAsset") Null)
          (or_else (get_opt parsed "toChain") Null)
          (or_else (get_opt parsed "amount") Null)
          (or_else (get_opt parsed "amountType") Null)
          (get_opt parsed "portfolio")
          (get_opt parsed "frequency")
          (get_opt parsed "dayOfWeek")
          (get_opt parsed "dayOfMonth")
          (get_opt parsed "conditionOperator")
          (get_opt parsed "conditionValue")
          (get_opt parsed "conditionAsset")
          (or_else (settled parsed "settleAsset" "fromAsset") Null)
          (or_else (settled parsed "settleNetwork" "fromChain") Null)
          (or_else (settled parsed "settleAmount" "amount") Null)
          (or_else (get_opt parsed "settleAddress") Null)
          (match reported ++ map Str (errors_found toNumber parsed) with
           | [] => match get_opt parsed "confidence" with
                   | Num n => n
                   | _ => Fin 0
                   end
           | _ => lowered (match get_opt parsed "confidence" with
                           | Num n => n
                           | _ => Fin 0
                           end)
           end)
          (reported ++ map Str (errors_found toNumber parsed))
          (or_else (get_opt parsed "parsedMessage") (Str EmptyString))
          (or_else (get_opt parsed "requiresConfirmation") (Bool false))
          (Some userInput).
Proof.
  unfold validateParsedCommand.
  destruct (get parsed "intent") as [i|]; [|discriminate].
  destruct (spread _) as [reported|]; [|discriminate].
  intros E. injection E as <-. now exists i, reported.
Qed.

Lemma map_Str_nil (l : list string) : map Str l = [] -> l = [].
Proof. destruct l; [reflexivity|discriminate]. Qed.

Lemma length_is_0_false_arr (v : value) :
  length_is_0 v = false -> forall items, v = Arr items -> items <> [].
Proof. intros H items -> ->. discriminate H. Qed.

(** The allocation check lets through values that are no array. *)
Lemma allocation_check_passes_non_arrays (v : value) :
  In v [Obj []; Bool true; Num (Fin 5)] ->
  truthy v = true /\ length_is_0 v = false.
Proof.
  intros [<-|[<-|[<-|[]]]]; split; reflexivity.
Qed.

(** X29: a command reported successful has passed the checks of its
    intent: it carries no validation error, and a swap has a truthy source
    asset, destination asset and amount, a DCA plan a truthy frequency as
    well, a portfolio a truthy source asset, amount and [portfolio] field, a
    checkout a truthy asset and amount; an amount is truthy and not [<= 0],
    which need not make it a number.  The [portfolio] field is truthy and
    its [length] is not 0: when it is an array it is not empty, but a value
    without a [length], such as [{}], [true] or [5], passes as well. *)
Theorem successful_command_is_complete (toNumber : value -> number)
    (completion : outcome value) (userInput : string) (c : ParsedCommand) :
  parseUserCommand toNumber completion userInput = c ->
  success c = true ->
  validationErrors c = [] /\ originalInput c = Some userInput /\
  (intent c = Str "swap" ->
   truthy (fromAsset c) = true /\ truthy (toAsset c) = true /\
   truthy (amount c) = true /\ le0 toNumber (amount c) = false) /\
  (intent c = Str "dca" ->
   truthy (fromAsset c) = true /\ truthy (toAsset c) = true /\
   truthy (amount c) = true /\ le0 toNumber (amount c) = false /\
   truthy (frequency c) = true) /\
  (intent c = Str "portfolio" ->
   truthy (fromAsset c) = true /\
   truthy (amount c) = true /\ le0 toNumber (amount c) = false /\
   truthy (portfolio c) = true /\ length_is_0 (portfolio c) = false /\
   (forall items, portfolio c = Arr items -> items <> [])) /\
  (intent c = Str "checkout" ->
   truthy (settleAsset c) = true /\
   truthy (settleAmount c) = true /\ le0 toNumber (settleAmount c) = false).
Proof.
  intros <-. unfold parseUserCommand.
  destruct completion as [content|]; [|discriminate].
  destruct (validateParsedCommand toNumber (or_else content (Obj [])) userInput)
    as [c|] eqn:Ev; [|discriminate].
  remember (or_else content (Obj [])) as parsed eqn:Ep. clear Ep content.
  apply validated_fields in Ev as (i & reported & Hi & Hr & ->).
  cbn [success validationErrors originalInput intent fromAsset toAsset amount
         frequency portfolio settleAsset settleAmount].
  intros Hs. apply andb_true_iff in Hs as [_ Hs].
  apply Nat.eqb_eq in Hs. apply length_zero_iff_nil in Hs.
  rewrite Hs. apply app_eq_nil in Hs as [_ He]. apply map_Str_nil in He.
  assert (Hgi : get_opt parsed "intent" = i).
  { unfold get_opt. now rewrite Hi. }
  split; [reflexivity|]. split; [reflexivity|].
  unfold errors_found in He. rewrite Hgi in He.
  split; [|split; [|split]]; intros Hint;
    apply or_else_str in Hint; try discriminate; rewrite Hint in He;
    cbn [strict_eq_str String.eqb Ascii.eqb Bool.eqb] in He;
    repeat match goal with
           | H : _ ++ _ = [] |- _ => apply app_eq_nil in H as [? ?]
           end;
    repeat match goal with
           | H : push _ _ = [] |- _ => apply push_nil in H
           end;
    repeat match goal with
           | H : negb _ = false |- _ => apply negb_false_iff in H
           | H : (_ || _)%bool = false |- _ => apply orb_false_iff in H as [? ?]
           | H : invalid_amount _ _ = false |- _ =>
               apply invalid_amount_false in H as [? ?]
           end;
    repeat match goal with
           | H : truthy ?v = true |- _ =>
               rewrite (or_else_truthy v Null H)
           end;
    repeat split; try assumption.
  now apply length_is_0_false_arr.
Qed.

Lemma successful_command_is_complete_witness :
  truthy (Str "ETH") = true /\ truthy (Str "USDC") = true /\
  truthy (Num (Fin 1)) = true /\ le0 number_of (Num (Fin 1)) = false.
Proof.
  exact (proj1 (proj2 (proj2
                  (successful_command_is_complete number_of
                     (Resolved swap_one_eth) "swap 1 ETH to USDC" _
                     eq_refl eq_refl)))
           eq_refl).
Defined.

(** X30: a command that carries a validation error is never reported
    successful, and its confidence, lowered by 30, is never negative nor
    minus infinity. *)
Theorem command_with_errors_is_unsuccessful (toNumber : value -> number)
    (completion : outcome value) (userInput : string) (c : ParsedCommand) :
  parseUserCommand toNumber completion userInput = c ->
  validationErrors c <> [] ->
  success c = false /\
  (forall q, confidence c = Fin q -> (0 <= q)%Q) /\
  confidence c <> NegInf.
Proof.
  intros <-. unfold parseUserCommand.
  assert (Hfail : success parsing_failed = false /\
                  (forall q, confidence parsing_failed = Fin q -> (0 <= q)%Q) /\
                  confidence parsing_failed <> NegInf).
  { split; [reflexivity|]. split; [|discriminate].
    intros q E. injection E as <-. apply Qle_refl. }
  destruct completion as [content|]; [|intros _; exact Hfail].
  destruct (validateParsedCommand toNumber (or_else content (Obj [])) userInput)
    as [c|] eqn:Ev; [|intros _; exact Hfail].
  apply validated_fields in Ev as (i & reported & Hi & Hr & ->).
  cbn [success validationErrors confidence].
  destruct (reported ++ map Str (errors_found toNumber _)) as [|e es];
    [intros H; contradiction|intros _].
  split; [apply andb_false_r|].
  destruct (match get_opt _ "confidence" with Num n => n | _ => Fin 0 end)
    as [q0| | |]; cbn [lowered].
  - destruct (Qle_bool (q0 - inject_Z 30) 0) eqn:E.
    + split; [|discriminate]. intros q Eq. injection Eq as <-. apply Qle_refl.
    + split; [|discriminate]. intros q Eq. injection Eq as <-.
      apply Qlt_le_weak. apply Qnot_le_lt. intros Hle.
      apply Qle_bool_iff in Hle. congruence.
  - split; discriminate.
  - split; [|discriminate]. intros q Eq. injection Eq as <-. apply Qle_refl.
  - split; discriminate.
Qed.

Lemma command_with_errors_is_unsuccessful_witness :
  success (parseUserCommand number_of (Resolved swap_without_amount)
             "swap ETH to USDC") = false.
Proof.
  apply (command_with_errors_is_unsuccessful number_of
           (Resolved swap_without_amount) "swap ETH to USDC" _ eq_refl).
  discriminate.
Defined.

End GroqFacts.
